(** * A shallow embedding of the AWS provider helpers of the rack

    The development follows [provider/aws/helpers.go], the conditions of
    [provider/aws/formation/app.json.tmpl] and the manifest validation of
    the [manifest] package.  Go values are modelled as the code has them:
    strings are byte strings, [int] and [time.Duration] are 64-bit integers
    carried in [Z] with the wrap-around written out, maps are [gmap]s, a
    run-time panic is an explicit outcome, and calls to the cloud provider
    are oracles threaded through an explicit state. *)

From Stdlib Require Import ZArith List Ascii String Lia.
From stdpp Require Import base decidable option list sorting strings gmap fin_maps.

Local Open Scope string_scope.
Local Open Scope list_scope.
Local Open Scope Z_scope.

(** ** Go preliminaries *)

Module Go.

(** A Go call either returns or panics. *)
Inductive outcome (A : Type) : Type :=
| Returns (a : A)
| Panics (msg : string).
Global Arguments Returns {A} a.
Global Arguments Panics {A} msg.

Definition bind {A B} (x : outcome A) (k : A -> outcome B) : outcome B :=
  match x with
  | Returns a => k a
  | Panics m => Panics m
  end.

(** A Go [error] value: one made by [fmt.Errorf], or an [awserr.Error] of
    the provider's SDK with its code.  In [option error], [None] is the nil
    error. *)
Inductive error : Type :=
| Errorf (msg : string)
| AwsError (code msg : string).

(** A Go result pair [(value, err)]: the value is meaningful only when the
    error is nil. *)
Inductive res (A : Type) : Type :=
| Ok (a : A)
| Err (e : error).
Global Arguments Ok {A} a.
Global Arguments Err {A} e.

(** 64-bit signed integers ([int] on the supported platforms, [int64],
    [time.Duration]). *)
Definition MaxInt64 : Z := 9223372036854775807.
Definition MinInt64 : Z := -9223372036854775808.
Definition in_int64 (z : Z) : Prop := MinInt64 <= z <= MaxInt64.

(** Two's complement wrap-around of an arithmetic result. *)
Definition wrap64 (z : Z) : Z := (z + 2 ^ 63) mod 2 ^ 64 - 2 ^ 63.

(** [len(s)] of a string: its number of bytes. *)
Definition len (s : string) : Z := Z.of_nat (String.length s).

(** The message of the panic of a slice expression out of range. *)
Definition slice_bounds : string := "slice bounds out of range".

(** The slice expression [s[:high]] on a string: it panics unless
    [0 <= high <= len(s)]. *)
Definition str_to (s : string) (high : Z) : outcome string :=
  if (0 <=? high) && (high <=? len s)
  then Returns (substring 0 (Z.to_nat high) s)
  else Panics "slice bounds out of range".

(** [strings.Join]. *)
Fixpoint Join (elems : list string) (sep : string) : string :=
  match elems with
  | [] => ""
  | [e] => e
  | e :: rest => e +:+ sep +:+ Join rest sep
  end.

End Go.

Import Go.

(** ** Status normalisation: [humanStatus] *)

Module Status.

(** [humanStatus] is a [switch] on the raw status: the cases are tried in
    the order of the source.  The second component is what the default case
    writes to standard output. *)
Definition humanStatus (original : string) : string * option string :=
  if String.eqb original "" then ("new", None)
  else if String.eqb original "CREATE_IN_PROGRESS" then ("creating", None)
  else if String.eqb original "CREATE_COMPLETE" then ("running", None)
  else if String.eqb original "DELETE_FAILED" then ("running", None)
  else if String.eqb original "DELETE_IN_PROGRESS" then ("deleting", None)
  else if String.eqb original "ROLLBACK_IN_PROGRESS" then ("rollback", None)
  else if String.eqb original "ROLLBACK_COMPLETE" then ("failed", None)
  else if String.eqb original "UPDATE_IN_PROGRESS" then ("updating", None)
  else if String.eqb original "UPDATE_COMPLETE_CLEANUP_IN_PROGRESS" then ("updating", None)
  else if String.eqb original "UPDATE_COMPLETE" then ("running", None)
  else if String.eqb original "UPDATE_ROLLBACK_IN_PROGRESS" then ("rollback", None)
  else if String.eqb original "UPDATE_ROLLBACK_COMPLETE_CLEANUP_IN_PROGRESS" then ("rollback", None)
  else if String.eqb original "UPDATE_ROLLBACK_COMPLETE" then ("running", None)
  else if String.eqb original "UPDATE_ROLLBACK_FAILED" then ("failed", None)
  else ("unknown", Some ("unknown status: " +:+ original +:+ String "010"%char "")).

(** The table of the specification, in the specification's order. *)
Definition spec_status_table : list (string * string) :=
  [ ("", "new");
    ("CREATE_IN_PROGRESS", "creating");
    ("CREATE_COMPLETE", "running");
    ("UPDATE_IN_PROGRESS", "updating");
    ("UPDATE_COMPLETE_CLEANUP_IN_PROGRESS", "updating");
    ("UPDATE_COMPLETE", "running");
    ("UPDATE_ROLLBACK_COMPLETE", "running");
    ("DELETE_IN_PROGRESS", "deleting");
    ("DELETE_FAILED", "running");
    ("ROLLBACK_IN_PROGRESS", "rollback");
    ("UPDATE_ROLLBACK_IN_PROGRESS", "rollback");
    ("UPDATE_ROLLBACK_COMPLETE_CLEANUP_IN_PROGRESS", "rollback");
    ("ROLLBACK_COMPLETE", "failed");
    ("UPDATE_ROLLBACK_FAILED", "failed") ].

Fixpoint table_lookup (raw : string) (t : list (string * string)) : option string :=
  match t with
  | [] => None
  | (k, v) :: rest => if String.eqb raw k then Some v else table_lookup raw rest
  end.

(** The specification's [Normalize]: the table entry, [unknown] outside it. *)
Definition spec_normalize (raw : string) : string :=
  match table_lookup raw spec_status_table with
  | Some v => v
  | None => "unknown"
  end.

End Status.

(** ** Bounded retry: [retry] *)

Module Retry.

(** What a run of [retry] does to the outside: invocations of [fn] with
    their result, and calls of [time.Sleep] with their duration in
    nanoseconds. *)
Inductive event : Type :=
| Call (err : option error)
| Sleep (d : Z).

Definition is_call (e : event) : bool :=
  match e with Call _ => true | Sleep _ => false end.

Definition sleeps (tr : list event) : list Z :=
  omap (fun e => match e with Sleep d => Some d | Call _ => None end) tr.

Definition calls (tr : list event) : nat := length (filter is_call tr).

Section retry.
(** The state [fn] closes over. *)
Context {St : Type}.

(** The raw value of the k-th draw of the process-wide random source. *)
Variable rng : nat -> Z.

Record world : Type := World {
  user : St;
  draws : nat;
  trace : list event
}.

(** [rand.Intn(n)]: panics for [n <= 0], otherwise a value of [[0, n)]. *)
Definition Intn (n : Z) (k : nat) : outcome Z :=
  if n <=? 0 then Panics "invalid argument to Intn"
  else Returns (rng k mod n).

(** The [for] loop of [retry], entered with counter [i].  [None]: the
    loop is still running after [fuel] iterations. *)
Fixpoint retry_loop (fuel : nat) (times interval : Z)
    (fn : St -> option error * St) (i : Z) (w : world)
    : option (outcome (option error) * world) :=
  match fuel with
  | O => None
  | S fuel' =>
      let '(err, s') := fn (user w) in
      let w1 := World s' (draws w) (trace w ++ [Call err]) in
      match err with
      | None => Some (Returns None, w1)
      | Some e =>
          (* add 20% jitter *)
          match Intn (Z.quot interval 20) (draws w1) with
          | Panics m => Some (Panics m, w1)
          | Returns j =>
              let w2 := World s' (S (draws w1))
                          (trace w1 ++ [Sleep (wrap64 (interval + j))]) in
              let i' := wrap64 (i + 1) in
              if i' >? times then Some (Returns (Some e), w2)
              else retry_loop fuel' times interval fn i' w2
          end
      end
  end.

Definition retry (fuel : nat) (times interval : Z)
    (fn : St -> option error * St) (w : world) :=
  retry_loop fuel times interval fn 0 w.

(** The state of [fn] after [k] invocations. *)
Fixpoint after (fn : St -> option error * St) (k : nat) (s : St) : St :=
  match k with
  | O => s
  | S k' => after fn k' (snd (fn s))
  end.

Definition always_fails (fn : St -> option error * St) : Prop :=
  forall s, fst (fn s) <> None.
End retry.

End Retry.

(** ** The read-through cache ([pkg/cache]) *)

Module cache.

(** Keys are compared structurally, through a canonical serialisation: a nil
    key, a string (a string and a pointer to it serialise alike), a list of
    string pointers, or the fields of an input structure. *)
Inductive key : Type :=
| KNil
| KString (s : string)
| KStrings (l : list (option string))
| KStruct (fields : list (list (option string))).

Global Instance key_eq_dec : EqDecision key.
Proof. solve_decision. Defined.

Global Instance key_countable : Countable key.
Proof.
  refine (inj_countable'
    (fun k => match k with
              | KNil => inl None
              | KString s => inl (Some s)
              | KStrings l => inr (inl l)
              | KStruct f => inr (inr f)
              end)
    (fun x => match x with
              | inl None => KNil
              | inl (Some s) => KString s
              | inr (inl l) => KStrings l
              | inr (inr f) => KStruct f
              end) _).
  by intros [].
Defined.

Definition key_of_ptr (s : option string) : key :=
  match s with
  | None => KNil
  | Some s => KString s
  end.

Section cache.
(** The cached values are [interface{}] in the code. *)
Context {V : Type}.

(** Modelled from the spec: an entry of the cache of [pkg/cache], which is
    not part of the sources at hand: (operation, key, value, expiry), the
    operation and the key being the key of the map below. *)
Record item : Type := Item {
  ivalue : V;
  expires : Z
}.

(** Modelled from the spec: the state of [pkg/cache], its entries and its
    global bypass flag. *)
Record t : Type := Cache {
  entries : gmap (string * key) item;
  bypass : bool
}.

(** Modelled from the spec: [cache.Get] of [pkg/cache].  A read after the
    expiry of the entry is a miss; with the bypass flag set every read is a
    forced miss. *)
Definition Get (c : t) (now : Z) (collection : string) (k : key) : option V :=
  if bypass c then None
  else
    match entries c !! (collection, k) with
    | Some it => if expires it <? now then None else Some (ivalue it)
    | None => None
    end.

(** Modelled from the spec: [cache.Set] of [pkg/cache] ([Set] is reserved
    in Rocq).  The entry expires [ttl] after [now]; with the bypass flag set
    the call does nothing. *)
Definition Set' (c : t) (now : Z) (collection : string) (k : key) (v : V)
    (ttl : Z) : option error * t :=
  if bypass c then (None, c)
  else (None, Cache (<[(collection, k) := Item v (now + ttl)]> (entries c)) (bypass c)).

(** Modelled from the spec: [cache.Clear] of [pkg/cache], which removes the
    entry of one (operation, key); the nil key is the key of the
    description of all stacks. *)
Definition Clear (c : t) (collection : string) (k : key) : option error * t :=
  (None, Cache (delete (collection, k) (entries c)) (bypass c)).
End cache.
Global Arguments item V : clear implicits.
Global Arguments t V : clear implicits.

End cache.

(** ** The provider helpers ([package aws]) *)

Module aws.

(** *** Data of the provider's SDK, as far as the helpers read it *)

Record CfParameter : Type := {
  ParameterKey : option string;
  ParameterValue : option string;
  UsePreviousValue : option bool
}.

Record Tag : Type := {
  Key : option string;
  Value : option string
}.

Record Stack : Type := {
  StackName : option string;
  StackStatus : option string;
  StackParameters : list CfParameter;
  StackTags : list Tag
}.

Record UpdateStackInput : Type := {
  ReqCapabilities : list string;
  ReqClientRequestToken : option string;
  ReqNotificationARNs : list string;
  ReqParameters : list CfParameter;
  ReqStackName : option string;
  ReqTags : list Tag;
  ReqTemplateURL : option string;
  ReqUsePreviousTemplate : option bool
}.

Record FormationParameter : Type := {
  Description : string;
  NoEcho : bool;
  Type_ : string
}.

Record Formation : Type := {
  FormationParameters : gmap string FormationParameter
}.

Record Object : Type := { Url : string }.

Record URL : Type := { Scheme : string; Path : string }.

Record DescribeContainerInstancesInput : Type := {
  CIICluster : option string;
  CIIContainerInstances : list (option string)
}.

Record DescribeContainerInstancesOutput : Type := {
  ContainerInstances : list string
}.

Record DescribeTasksInput : Type := {
  DTICluster : option string;
  DTITasks : list (option string)
}.

Record Task : Type := { TaskDefinitionArn : option string }.

Record DescribeTasksOutput : Type := {
  Tasks : list Task;
  Failures : list string
}.

Record ContainerDefinition : Type := {
  DockerLabels : gmap string (option string)
}.

Record TaskDefinition : Type := {
  ContainerDefinitions : list ContainerDefinition
}.

Record DescribeTaskDefinitionOutput : Type := {
  TaskDefinition_ : option TaskDefinition
}.

(** The dynamic types stored in the cache; a type assertion on a cached
    value succeeds on its own constructor only. *)
Inductive value : Type :=
| VStacks (stacks : list Stack)
| VString (s : string)
| VContainerInstances (o : DescribeContainerInstancesOutput)
| VTasks (o : DescribeTasksOutput)
| VTaskDefinition (o : DescribeTaskDefinitionOutput).

Definition as_stacks (v : option value) : option (list Stack) :=
  match v with Some (VStacks l) => Some l | _ => None end.
Definition as_string (v : option value) : option string :=
  match v with Some (VString s) => Some s | _ => None end.
Definition as_container_instances (v : option value) :=
  match v with Some (VContainerInstances o) => Some o | _ => None end.
Definition as_tasks (v : option value) :=
  match v with Some (VTasks o) => Some o | _ => None end.
Definition as_task_definition (v : option value) :=
  match v with Some (VTaskDefinition o) => Some o | _ => None end.

Record Provider : Type := {
  Cluster : string;
  CloudformationTopic : string;
  Region : string;
  SettingsBucket : string;
  SkipCache : bool;
  (** the value of [p.IsTest()] *)
  IsTest : bool
}.

(** Requests that reach the provider's API, in the order they are made. *)
Inductive call : Type :=
| CallDescribeStacks (name : option string)
| CallObjectStore (app key data : string)
| CallUpdateStack (req : UpdateStackInput)
| CallDescribeContainerInstances (input : DescribeContainerInstancesInput)
| CallDescribeTasks (input : DescribeTasksInput)
| CallDescribeTaskDefinition (arn : option string).

(** Time constants of [package time], in nanoseconds. *)
Definition Second : Z := 1000000000.
Definition Hour : Z := 3600 * Second.

Section provider.
(** The state of everything outside the process: the provider's account,
    the object store, the clock. *)
Context {R : Type}.

(** The collaborators the helpers call; none of them is part of the
    sources at hand.  The parsers of the Go library are functions of
    their input. *)
Record api : Type := {
  Now : R -> Z;
  DescribeStacksPages : option string -> R -> (list (list Stack) * option error) * R;
  UpdateStack : UpdateStackInput -> R -> option error * R;
  ObjectStore : string -> string -> string -> R -> res Object * R;
  DescribeContainerInstances :
    DescribeContainerInstancesInput -> R -> res DescribeContainerInstancesOutput * R;
  DescribeTasks : DescribeTasksInput -> R -> res DescribeTasksOutput * R;
  DescribeTaskDefinition : option string -> R -> res DescribeTaskDefinitionOutput * R;
  url_Parse : string -> res URL;
  json_Unmarshal : string -> res Formation
}.

Variable A : api.

Record world : Type := World {
  wcache : cache.t value;
  remote : R;
  log : list call
}.

(** Computations of the helpers: they read and write the world and may
    panic. *)
Definition M (X : Type) : Type := world -> outcome X * world.

Definition ret {X} (x : X) : M X := fun w => (Returns x, w).
Definition panic {X} (msg : string) : M X := fun w => (Panics msg, w).
Definition mbind {X Y} (m : M X) (k : X -> M Y) : M Y :=
  fun w => match m w with
           | (Returns x, w') => k x w'
           | (Panics msg, w') => (Panics msg, w')
           end.
End provider.
Global Arguments api R : clear implicits.
Global Arguments world R : clear implicits.
Global Arguments M R X : clear implicits.

Notation "'let!' x ':=' m 'in' k" := (mbind m (fun x => k))
  (at level 10, x name, m at level 100, k at level 200).

Definition nil_dereference : string :=
  "invalid memory address or nil pointer dereference".
Definition index_out_of_range : string := "index out of range".

Section helpers.
Context {R : Type} (A : api R).

(** The calls into [pkg/cache] read the clock of the outside world. *)
Definition cache_Get (collection : string) (k : cache.key) : M R (option value) :=
  fun w => (Returns (cache.Get (wcache w) (Now A (remote w)) collection k), w).

Definition cache_Set (collection : string) (k : cache.key) (v : value) (ttl : Z)
    : M R (option error) :=
  fun w =>
    let '(err, c) := cache.Set' (wcache w) (Now A (remote w)) collection k v ttl in
    (Returns err, World c (remote w) (log w)).

Definition cache_Clear (collection : string) (k : cache.key) : M R (option error) :=
  fun w =>
    let '(err, c) := cache.Clear (wcache w) collection k in
    (Returns err, World c (remote w) (log w)).

(** A request to the outside: it is logged and it moves the outside state. *)
Definition call_api {X} (c : call) (f : R -> X * R) : M R X :=
  fun w =>
    let '(x, r) := f (remote w) in
    (Returns x, World (wcache w) r (log w ++ [c])).

(** [*s] for a string pointer. *)
Definition deref {X} (s : option X) : M R X :=
  match s with
  | Some x => ret x
  | None => panic nil_dereference
  end.

(** *** Description helpers *)

Definition describeContainerInstances (p : Provider)
    (input : DescribeContainerInstancesInput)
    : M R (res DescribeContainerInstancesOutput) :=
  let k := cache.KStruct [[CIICluster input]; CIIContainerInstances input] in
  let! cached := cache_Get "describeContainerInstances" k in
  match as_container_instances cached with
  | Some res => ret (Ok res)
  | None =>
      let! r := call_api (CallDescribeContainerInstances input)
                  (DescribeContainerInstances A input) in
      match r with
      | Err err => ret (Err err)
      | Ok res =>
          if negb (SkipCache p) then
            let! serr := cache_Set "describeContainerInstances" k
                           (VContainerInstances res) (5 * Second) in
            match serr with
            | Some err => ret (Err err)
            | None => ret (Ok res)
            end
          else ret (Ok res)
      end
  end.

Definition describeStacks (p : Provider) (StackName : option string)
    : M R (res (list Stack)) :=
  let! cached := cache_Get "describeStacks" (cache.key_of_ptr StackName) in
  match as_stacks cached with
  | Some stacks => ret (Ok stacks)
  | None =>
      let! out := call_api (CallDescribeStacks StackName)
                    (DescribeStacksPages A StackName) in
      let '(pages, err) := out in
      (* the page callback appends every stack of every page *)
      let stacks := concat pages in
      match err with
      | Some err => ret (Err err)
      | None =>
          if negb (SkipCache p) then
            let! serr := cache_Set "describeStacks" (cache.key_of_ptr StackName)
                           (VStacks stacks) (5 * Second) in
            match serr with
            | Some err => ret (Err err)
            | None => ret (Ok stacks)
            end
          else ret (Ok stacks)
      end
  end.

Definition describeStack (p : Provider) (name : string) : M R (res Stack) :=
  let! r := describeStacks p (Some name) in
  match r with
  | Err (AwsError code msg) =>
      if String.eqb code "ValidationError"
      then ret (Err (Errorf ("stack not found: " +:+ name)))
      else ret (Err (AwsError code msg))
  | Err err => ret (Err err)
  | Ok stacks =>
      match stacks with
      | [stack] => ret (Ok stack)
      | _ => ret (Err (Errorf ("could not load stack: " +:+ name)))
      end
  end.

Definition describeTaskDefinition (p : Provider) (TaskDefinition : option string)
    : M R (res DescribeTaskDefinitionOutput) :=
  let k := cache.KStruct [[TaskDefinition]] in
  let! cached := cache_Get "describeTaskDefinition" k in
  match as_task_definition cached with
  | Some td => ret (Ok td)
  | None =>
      let! r := call_api (CallDescribeTaskDefinition TaskDefinition)
                  (DescribeTaskDefinition A TaskDefinition) in
      match r with
      | Err (AwsError code msg) =>
          if String.eqb code "ValidationError"
          then let! arn := deref TaskDefinition in
               ret (Err (Errorf ("task definition not found: " +:+ arn)))
          else ret (Err (AwsError code msg))
      | Err err => ret (Err err)
      | Ok res =>
          if negb (SkipCache p) then
            let! serr := cache_Set "describeTaskDefinition" k
                           (VTaskDefinition res) (24 * Hour) in
            match serr with
            | Some err => ret (Err err)
            | None => ret (Ok res)
            end
          else ret (Ok res)
      end
  end.

Definition describeTasks (p : Provider) (input : DescribeTasksInput)
    : M R (res DescribeTasksOutput) :=
  let k := cache.KStruct [[DTICluster input]; DTITasks input] in
  let! cached := cache_Get "describeTasks" k in
  match as_tasks cached with
  | Some res => ret (Ok res)
  | None =>
      let! r := call_api (CallDescribeTasks input) (DescribeTasks A input) in
      match r with
      | Err err => ret (Err err)
      | Ok res =>
          if negb (SkipCache p) && (length (Failures res) =? 0)%nat then
            let! serr := cache_Set "describeTasks" k (VTasks res) (10 * Second) in
            match serr with
            | Some err => ret (Err err)
            | None => ret (Ok res)
            end
          else ret (Ok res)
      end
  end.

(** *** Release lookups *)

Definition taskDefinitionRelease (p : Provider) (arn : string) : M R (res string) :=
  let! cached := cache_Get "taskDefinitionRelease" (cache.KString arn) in
  match as_string cached with
  | Some release => ret (Ok release)
  | None =>
      let! r := describeTaskDefinition p (Some arn) in
      match r with
      | Err err => ret (Err err)
      | Ok td =>
          let! def := deref (TaskDefinition_ td) in
          (* [len(...) < 0] never holds *)
          match ContainerDefinitions def with
          | [] => panic index_out_of_range
          | c :: _ =>
              match DockerLabels c !! "convox.release" with
              | Some (Some release) =>
                  let! serr := cache_Set "taskDefinitionRelease" (cache.KString arn)
                                 (VString release) (24 * Hour) in
                  match serr with
                  | Some err => ret (Err err)
                  | None => ret (Ok release)
                  end
              | _ =>
                  ret (Err (Errorf
                    ("no convox.release label for task definition: " +:+ arn)))
              end
          end
      end
  end.

Definition taskRelease (p : Provider) (id : string) : M R (res string) :=
  let! cached := cache_Get "taskRelease" (cache.KString id) in
  match as_string cached with
  | Some release => ret (Ok release)
  | None =>
      let! r := describeTasks p
                  {| DTICluster := Some (Cluster p); DTITasks := [Some id] |} in
      match r with
      | Err err => ret (Err err)
      | Ok t =>
          match Tasks t with
          | [] => ret (Err (Errorf ("task not found: " +:+ id)))
          | task :: _ =>
              let! arn := deref (TaskDefinitionArn task) in
              let! r := taskDefinitionRelease p arn in
              match r with
              | Err err => ret (Err err)
              | Ok release =>
                  let! serr := cache_Set "taskRelease" (cache.KString id)
                                 (VString release) (24 * Hour) in
                  match serr with
                  | Some err => ret (Err err)
                  | None => ret (Ok release)
                  end
              end
          end
      end
  end.
(** *** Formation model *)

Definition parseFormation (data : string) : res Formation := json_Unmarshal A data.

(** The result is a [map[string]bool] whose entries are all [true]: the
    set of its keys. *)
Definition formationParameters (data : string) : res (gset string) :=
  match parseFormation data with
  | Err err => Err err
  | Ok f => Ok (dom (FormationParameters f))
  end.

Definition objectURL (p : Provider) (ou : string) : res string :=
  match url_Parse A ou with
  | Err err => Err err
  | Ok u =>
      if negb (String.eqb (Scheme u) "object")
      then Err (Errorf "only supports object:// urls")
      else Ok ("https://s3." +:+ Region p +:+ ".amazonaws.com/"
               +:+ SettingsBucket p +:+ Path u)
  end.

(** *** [updateStack] *)

(** [sort.Strings]. *)
Definition sort_Strings (l : list string) : list string :=
  merge_sort String.le l.

(** The loop over [stack.Parameters] that fills [pexisting]. *)
Fixpoint existingParameters (ps : list CfParameter) (pexisting : gset string)
    : outcome (gset string) :=
  match ps with
  | [] => Returns pexisting
  | q :: rest =>
      match ParameterKey q with
      | None => Panics nil_dereference
      | Some k => existingParameters rest ({[k]} ∪ pexisting)
      end
  end.

(** The two kinds of entries of a request: an explicit value, and the
    marker to keep the value the stack has. *)
Definition explicitValue (param value : string) : CfParameter :=
  {| ParameterKey := Some param;
     ParameterValue := Some value;
     UsePreviousValue := None |}.

Definition usePrevious (param : string) : CfParameter :=
  {| ParameterKey := Some param;
     ParameterValue := None;
     UsePreviousValue := Some true |}.

(** One round of the loop over the sorted parameter names. *)
Definition submitParameter (changes : gmap string string) (pexisting : gset string)
    (parameters : list CfParameter) (param : string) : list CfParameter :=
  match changes !! param with
  | Some value => parameters ++ [explicitValue param value]
  | None =>
      if decide (param ∈ pexisting) then parameters ++ [usePrevious param]
      else parameters
  end.

(** What a round appends for a parameter, if anything. *)
Definition submission (changes : gmap string string) (pexisting : gset string)
    (param : string) : option CfParameter :=
  match changes !! param with
  | Some value => Some (explicitValue param value)
  | None => if decide (param ∈ pexisting) then Some (usePrevious param) else None
  end.

Definition suppliedTag (tags : gmap string string) (key : string) : Tag :=
  {| Key := Some key; Value := Some (default "" (tags !! key)) |}.

(** One round of the loop over the sorted tag keys. *)
Definition appendTag (tags : gmap string string) (acc : list Tag) (key : string)
    : list Tag :=
  acc ++ [suppliedTag tags key].

(** How many tags of a list carry a key. *)
Definition tag_count (key : string) (ts : list Tag) : nat :=
  length (List.filter (fun t => bool_decide (Key t = Some key)) ts).

Definition with_ClientRequestToken (req : UpdateStackInput) (id : string) :=
  {| ReqCapabilities := ReqCapabilities req; ReqClientRequestToken := Some id;
     ReqNotificationARNs := ReqNotificationARNs req;
     ReqParameters := ReqParameters req; ReqStackName := ReqStackName req;
     ReqTags := ReqTags req; ReqTemplateURL := ReqTemplateURL req;
     ReqUsePreviousTemplate := ReqUsePreviousTemplate req |}.

Definition with_TemplateURL (req : UpdateStackInput) (tu : string) :=
  {| ReqCapabilities := ReqCapabilities req;
     ReqClientRequestToken := ReqClientRequestToken req;
     ReqNotificationARNs := ReqNotificationARNs req;
     ReqParameters := ReqParameters req; ReqStackName := ReqStackName req;
     ReqTags := ReqTags req; ReqTemplateURL := Some tu;
     ReqUsePreviousTemplate := ReqUsePreviousTemplate req |}.

Definition with_UsePreviousTemplate (req : UpdateStackInput) (b : bool) :=
  {| ReqCapabilities := ReqCapabilities req;
     ReqClientRequestToken := ReqClientRequestToken req;
     ReqNotificationARNs := ReqNotificationARNs req;
     ReqParameters := ReqParameters req; ReqStackName := ReqStackName req;
     ReqTags := ReqTags req; ReqTemplateURL := ReqTemplateURL req;
     ReqUsePreviousTemplate := Some b |}.

Definition with_Parameters (req : UpdateStackInput) (ps : list CfParameter) :=
  {| ReqCapabilities := ReqCapabilities req;
     ReqClientRequestToken := ReqClientRequestToken req;
     ReqNotificationARNs := ReqNotificationARNs req;
     ReqParameters := ps; ReqStackName := ReqStackName req;
     ReqTags := ReqTags req; ReqTemplateURL := ReqTemplateURL req;
     ReqUsePreviousTemplate := ReqUsePreviousTemplate req |}.

Definition with_Tags (req : UpdateStackInput) (ts : list Tag) :=
  {| ReqCapabilities := ReqCapabilities req;
     ReqClientRequestToken := ReqClientRequestToken req;
     ReqNotificationARNs := ReqNotificationARNs req;
     ReqParameters := ReqParameters req; ReqStackName := ReqStackName req;
     ReqTags := ts; ReqTemplateURL := ReqTemplateURL req;
     ReqUsePreviousTemplate := ReqUsePreviousTemplate req |}.

(** The branch on [template]: the request with its template reference, and
    the target parameter set [params]; an error ends [updateStack]. *)
Definition templateParameters (p : Provider) (template : option string)
    (req : UpdateStackInput) (pexisting : gset string)
    : M R (res (UpdateStackInput * gset string)) :=
  match template with
  | Some data =>
      let key := if IsTest p then "test-key" else "" in
      let! r := call_api (CallObjectStore "" key data) (ObjectStore A "" key data) in
      match r with
      | Err err => ret (Err err)
      | Ok ou =>
          match objectURL p (Url ou) with
          | Err err => ret (Err err)
          | Ok tu =>
              let req := with_TemplateURL req tu in
              match formationParameters data with
              | Err err => ret (Err err)
              | Ok fp => ret (Ok (req, fp))
              end
          end
      end
  | None => ret (Ok (with_UsePreviousTemplate req true, pexisting))
  end.

(** The request as [updateStack] first builds it. *)
Definition newRequest (p : Provider) (name id : string) : UpdateStackInput :=
  let req := {| ReqCapabilities := ["CAPABILITY_IAM"];
                ReqClientRequestToken := None;
                ReqNotificationARNs := [CloudformationTopic p];
                ReqParameters := [];
                ReqStackName := Some name;
                ReqTags := [];
                ReqTemplateURL := None;
                ReqUsePreviousTemplate := None |} in
  if negb (String.eqb id "") then with_ClientRequestToken req id else req.

(** The parameters and the tags of the request, once the live stack and
    the target parameter set [params] are known. *)
Definition fillRequest (changes tags : gmap string string) (stack : Stack)
    (pexisting params : gset string) (req : UpdateStackInput) : UpdateStackInput :=
  (* sort params for easier testing *)
  let sorted := sort_Strings (elements params) in
  let req := with_Parameters req
               (foldl (submitParameter changes pexisting) (ReqParameters req) sorted) in
  let req := with_Tags req (StackTags stack) in
  let tks := sort_Strings (elements (dom tags)) in
  with_Tags req (foldl (appendTag tags) (ReqTags req) tks).

Definition updateStack (p : Provider) (name : string) (template : option string)
    (changes : gmap string string) (tags : gmap string string) (id : string)
    : M R (option error) :=
  let! _ := cache_Clear "describeStacks" cache.KNil in
  let! _ := cache_Clear "describeStacks" (cache.KString name) in
  let req := newRequest p name id in
  let! r := describeStack p name in
  match r with
  | Err err => ret (Some err)
  | Ok stack =>
      let! pexisting := (fun w => (existingParameters (StackParameters stack) ∅, w)) in
      let! r := templateParameters p template req pexisting in
      match r with
      | Err err => ret (Some err)
      | Ok (req, params) =>
          let req := fillRequest changes tags stack pexisting params req in
          let! err := call_api (CallUpdateStack req) (UpdateStack A req) in
          let! _ := cache_Clear "describeStacks" cache.KNil in
          let! _ := cache_Clear "describeStacks" (cache.KString name) in
          ret err
      end
  end.

(** The cache once the entries of the stack are cleared. *)
Definition cleared (name : string) (c : cache.t value) : cache.t value :=
  snd (cache.Clear (snd (cache.Clear c "describeStacks" cache.KNil))
         "describeStacks" (cache.KString name)).
End helpers.

End aws.

(** ** The conditions of the application template ([formation/app.json.tmpl]) *)

Module Template.

(** The operands of [Fn::Equals] the template uses. *)
Inductive operand : Type :=
| Ref (parameter : string)
| Lit (s : string).

(** Condition functions of the template language. *)
Inductive cond : Type :=
| FnEquals (a b : operand)
| FnAnd (a b : cond)
| FnOr (a b : cond)
| FnNot (a : cond)
| Condition (name : string).

(** The fixed entries of the ["Conditions"] section, in the order of the
    template. *)
Definition fixed_conditions : list (string * cond) :=
  [ ("BlankIamPolicy", FnEquals (Ref "IamPolicy") (Lit ""));
    ("BlankLogBucket", FnEquals (Ref "LogBucket") (Lit ""));
    ("BlankLogRetention", FnEquals (Ref "LogRetention") (Lit ""));
    ("BlankResourcePassword", FnEquals (Ref "ResourcePassword") (Lit ""));
    ("CircuitBreaker", FnEquals (Ref "CircuitBreaker") (Lit "Yes"));
    ("EC2Services", FnNot (Condition "FargateServicesEither"));
    ("EC2Timers", FnNot (Condition "FargateTimersEither"));
    ("FargateServicesEither",
       FnOr (Condition "FargateServicesBase") (Condition "FargateServicesSpot"));
    ("FargateServicesBase", FnEquals (Ref "FargateServices") (Lit "Yes"));
    ("FargateServicesSpot", FnEquals (Ref "FargateServices") (Lit "Spot"));
    ("FargateTimersEither",
       FnOr (Condition "FargateTimersBase") (Condition "FargateTimersSpot"));
    ("FargateTimersBase", FnEquals (Ref "FargateTimers") (Lit "Yes"));
    ("FargateTimersSpot", FnEquals (Ref "FargateTimers") (Lit "Spot"));
    ("InternalDomains", FnEquals (Ref "InternalDomains") (Lit "Yes"));
    ("Isolate",
       FnAnd (Condition "Private") (FnEquals (Ref "Isolate") (Lit "Yes")));
    ("IsolateServices",
       FnOr (Condition "FargateServicesEither") (Condition "Isolate"));
    ("Private", FnEquals (Ref "Private") (Lit "Yes"));
    ("RackUrl", FnEquals (Ref "RackUrl") (Lit "Yes")) ].

(** The section starts with the entries the fragment [service-conditions]
    renders for the services of the manifest; their names are
    [Service<Name>Fargate] and [Service<Name>FargateSpot]. *)
Definition Conditions (service_conditions : list (string * cond))
    : list (string * cond) :=
  service_conditions ++ fixed_conditions.

Definition service_condition_names (service_conditions : list (string * cond)) : Prop :=
  Forall (fun e => String.prefix "Service" (fst e) = true) service_conditions.

Fixpoint find_condition (name : string) (cs : list (string * cond)) : option cond :=
  match cs with
  | [] => None
  | (n, c) :: rest => if String.eqb n name then Some c else find_condition name rest
  end.

Definition operand_value (parameters : string -> string) (o : operand) : string :=
  match o with
  | Ref p => parameters p
  | Lit s => s
  end.

(** The value of a condition under the values of the stack parameters.
    References to named conditions are followed less than [fuel] deep;
    [None]: an undefined name, or the depth is exhausted. *)
Fixpoint eval (fuel : nat) (cs : list (string * cond))
    (parameters : string -> string) (c : cond) {struct fuel} : option bool :=
  match fuel with
  | O => None
  | S fuel' =>
      (fix go (c : cond) : option bool :=
         match c with
         | FnEquals a b =>
             Some (String.eqb (operand_value parameters a)
                              (operand_value parameters b))
         | FnAnd a b =>
             match go a, go b with
             | Some x, Some y => Some (x && y)
             | _, _ => None
             end
         | FnOr a b =>
             match go a, go b with
             | Some x, Some y => Some (x || y)
             | _, _ => None
             end
         | FnNot a => negb <$> go a
         | Condition name =>
             match find_condition name cs with
             | Some c' => eval fuel' cs parameters c'
             | None => None
             end
         end) c
  end.

(** A deployment toggle has a given value. *)
Definition toggle (parameters : string -> string) (name value : string) : bool :=
  String.eqb (parameters name) value.

(** A named condition of the document. *)
Definition holds (fuel : nat) (cs : list (string * cond))
    (parameters : string -> string) (name : string) : option bool :=
  eval fuel cs parameters (Condition name).

(** The value the fragment [service-resources] passes to a service stack as
    its [Isolate] parameter: [{ "Fn::If": [ "IsolateServices", "Yes", "No" ] }]. *)
Definition service_Isolate (fuel : nat) (cs : list (string * cond))
    (parameters : string -> string) : option string :=
  (fun b : bool => if b then "Yes" else "No") <$> holds fuel cs parameters "IsolateServices".

(** The values of the toggles on a private rack with isolation requested
    and serverless spot capacity. *)
Definition isolated_private_parameters (name : string) : string :=
  if String.eqb name "FargateServices" then "Spot"
  else if String.eqb name "Private" then "Yes"
  else if String.eqb name "Isolate" then "Yes"
  else "No".

(** The values of the toggles on a rack that is not private, with
    isolation requested and no serverless capacity. *)
Definition public_isolate_parameters (name : string) : string :=
  if String.eqb name "Isolate" then "Yes" else "No".

End Template.

(** ** [crypto/sha256] and [encoding/base32], as [LongName] uses them *)

Module sha256.

Definition bytes_of_string (s : string) : list Z :=
  map (fun a => Z.of_N (N_of_ascii a)) (list_ascii_of_string s).

(** 32-bit words in [Z], every operation reduced modulo [2^32]. *)
Definition add32 (a b : Z) : Z := (a + b) mod 2 ^ 32.
Definition rotr (n x : Z) : Z :=
  Z.lor (Z.shiftr x n) (Z.shiftl x (32 - n) mod 2 ^ 32).
Definition not32 (x : Z) : Z := Z.lxor x 4294967295.

Definition Ch (x y z : Z) : Z := Z.lxor (Z.land x y) (Z.land (not32 x) z).
Definition Maj (x y z : Z) : Z :=
  Z.lxor (Z.lxor (Z.land x y) (Z.land x z)) (Z.land y z).
Definition Sigma0 (x : Z) : Z := Z.lxor (Z.lxor (rotr 2 x) (rotr 13 x)) (rotr 22 x).
Definition Sigma1 (x : Z) : Z := Z.lxor (Z.lxor (rotr 6 x) (rotr 11 x)) (rotr 25 x).
Definition sigma0 (x : Z) : Z := Z.lxor (Z.lxor (rotr 7 x) (rotr 18 x)) (Z.shiftr x 3).
Definition sigma1 (x : Z) : Z := Z.lxor (Z.lxor (rotr 17 x) (rotr 19 x)) (Z.shiftr x 10).

(** The round constants: the first 32 bits of the fractional parts of the
    cube roots of the first 64 primes. *)
Definition K : list Z :=
  [
    1116352408; 1899447441; 3049323471; 3921009573;
    961987163; 1508970993; 2453635748; 2870763221;
    3624381080; 310598401; 607225278; 1426881987;
    1925078388; 2162078206; 2614888103; 3248222580;
    3835390401; 4022224774; 264347078; 604807628;
    770255983; 1249150122; 1555081692; 1996064986;
    2554220882; 2821834349; 2952996808; 3210313671;
    3336571891; 3584528711; 113926993; 338241895;
    666307205; 773529912; 1294757372; 1396182291;
    1695183700; 1986661051; 2177026350; 2456956037;
    2730485921; 2820302411; 3259730800; 3345764771;
    3516065817; 3600352804; 4094571909; 275423344;
    430227734; 506948616; 659060556; 883997877;
    958139571; 1322822218; 1537002063; 1747873779;
    1955562222; 2024104815; 2227730452; 2361852424;
    2428436474; 2756734187; 3204031479; 3329325298 ].

(** The eight working words. *)
Record digest : Type := Digest {
  h0 : Z; h1 : Z; h2 : Z; h3 : Z; h4 : Z; h5 : Z; h6 : Z; h7 : Z
}.

(** The initial digest: the first 32 bits of the fractional parts of the
    square roots of the first 8 primes. *)
Definition init : digest :=
  Digest 1779033703 3144134277 1013904242 2773480762
         1359893119 2600822924 528734635 1541459225.

(** Big-endian words of a block. *)
Fixpoint words (bs : list Z) : list Z :=
  match bs with
  | a :: b :: c :: d :: rest =>
      Z.lor (Z.lor (Z.lor (Z.shiftl a 24) (Z.shiftl b 16)) (Z.shiftl c 8)) d
      :: words rest
  | _ => []
  end.

(** The message schedule, newest word first: [n] more words after [w]. *)
Fixpoint schedule (n : nat) (w : list Z) : list Z :=
  match n with
  | O => w
  | S n' =>
      let x := add32 (add32 (sigma1 (nth 1 w 0)) (nth 6 w 0))
                     (add32 (sigma0 (nth 14 w 0)) (nth 15 w 0)) in
      schedule n' (x :: w)
  end.

Definition round (d : digest) (kw : Z * Z) : digest :=
  let t1 := add32 (add32 (add32 (h7 d) (Sigma1 (h4 d)))
                         (add32 (Ch (h4 d) (h5 d) (h6 d)) (fst kw))) (snd kw) in
  let t2 := add32 (Sigma0 (h0 d)) (Maj (h0 d) (h1 d) (h2 d)) in
  Digest (add32 t1 t2) (h0 d) (h1 d) (h2 d) (add32 (h3 d) t1) (h4 d) (h5 d) (h6 d).

Definition block (d : digest) (bs : list Z) : digest :=
  let w := rev (schedule 48 (rev (words bs))) in
  let r := fold_left round (combine K w) d in
  Digest (add32 (h0 d) (h0 r)) (add32 (h1 d) (h1 r)) (add32 (h2 d) (h2 r))
         (add32 (h3 d) (h3 r)) (add32 (h4 d) (h4 r)) (add32 (h5 d) (h5 r))
         (add32 (h6 d) (h6 r)) (add32 (h7 d) (h7 r)).

Fixpoint blocks (n : nat) (d : digest) (bs : list Z) : digest :=
  match n with
  | O => d
  | S n' => blocks n' (block d (firstn 64 bs)) (skipn 64 bs)
  end.

Definition be_bytes (n : nat) (x : Z) : list Z :=
  map (fun i => Z.shiftr x (8 * Z.of_nat i) mod 256) (rev (seq 0 n)).

(** The message, the byte [0x80], zero bytes up to 56 modulo 64, and the
    length in bits as 8 bytes. *)
Definition pad (msg : list Z) : list Z :=
  let l := Z.of_nat (length msg) in
  msg ++ [128] ++ repeat 0 (Z.to_nat ((55 - l) mod 64)) ++ be_bytes 8 (8 * l).

(** [sha256.Sum256]: the 32 bytes of the digest. *)
Definition Sum256 (data : list Z) : list Z :=
  let p := pad data in
  let d := blocks (length p / 64) init p in
  be_bytes 4 (h0 d) ++ be_bytes 4 (h1 d) ++ be_bytes 4 (h2 d) ++ be_bytes 4 (h3 d)
  ++ be_bytes 4 (h4 d) ++ be_bytes 4 (h5 d) ++ be_bytes 4 (h6 d) ++ be_bytes 4 (h7 d).

End sha256.

Module base32.

(** The alphabet of [base32.StdEncoding]. *)
Definition encodeStd : string := "ABCDEFGHIJKLMNOPQRSTUVWXYZ234567".

Definition digit (q : Z) : ascii :=
  match String.get (Z.to_nat q) encodeStd with
  | Some c => c
  | None => "="%char
  end.

(** The eight 5-bit groups of up to five bytes, the missing bytes as zero. *)
Definition quintets (b0 b1 b2 b3 b4 : Z) : list Z :=
  let v := Z.lor (Z.lor (Z.lor (Z.lor (Z.shiftl b0 32) (Z.shiftl b1 24))
                               (Z.shiftl b2 16)) (Z.shiftl b3 8)) b4 in
  map (fun i => Z.land (Z.shiftr v (5 * Z.of_nat i)) 31) (rev (seq 0 8)).

(** One group of the output: [data] characters of the alphabet, then the
    padding character. *)
Definition group (data : nat) (b0 b1 b2 b3 b4 : Z) : list ascii :=
  map digit (firstn data (quintets b0 b1 b2 b3 b4)) ++ repeat "="%char (8 - data).

Fixpoint encode (src : list Z) : list ascii :=
  match src with
  | [] => []
  | [b0] => group 2 b0 0 0 0 0
  | [b0; b1] => group 4 b0 b1 0 0 0
  | [b0; b1; b2] => group 5 b0 b1 b2 0 0
  | [b0; b1; b2; b3] => group 7 b0 b1 b2 b3 0
  | b0 :: b1 :: b2 :: b3 :: b4 :: rest => group 8 b0 b1 b2 b3 b4 ++ encode rest
  end.

(** [StdEncoding.EncodeToString]. *)
Definition EncodeToString (src : list Z) : string :=
  string_of_list_ascii (encode src).

End base32.

(** ** [package strings] and [unicode/utf8], as the cron helpers use them *)

Module strings.

Definition byte_of (a : ascii) : Z := Z.of_N (N_of_ascii a).

(** [utf8.RuneError]. *)
Definition RuneError : Z := 65533.

Definition continuation (lo hi : Z) (b : Z) : bool := (lo <=? b) && (b <=? hi).

(** [utf8.DecodeRuneInString] on the bytes from a position on: the rune and
    the number of bytes it takes; an invalid or short encoding is
    [RuneError] of width 1. *)
Definition DecodeRune (bs : list Z) : Z * nat :=
  match bs with
  | [] => (RuneError, O)
  | b0 :: rest =>
      if b0 <? 128 then (b0, 1%nat)
      else if (194 <=? b0) && (b0 <=? 223) then
        match rest with
        | b1 :: _ =>
            if continuation 128 191 b1
            then (Z.lor (Z.shiftl (Z.land b0 31) 6) (Z.land b1 63), 2%nat)
            else (RuneError, 1%nat)
        | _ => (RuneError, 1%nat)
        end
      else if (224 <=? b0) && (b0 <=? 239) then
        let lo := if b0 =? 224 then 160 else 128 in
        let hi := if b0 =? 237 then 159 else 191 in
        match rest with
        | b1 :: b2 :: _ =>
            if continuation lo hi b1 && continuation 128 191 b2
            then (Z.lor (Z.lor (Z.shiftl (Z.land b0 15) 12)
                               (Z.shiftl (Z.land b1 63) 6)) (Z.land b2 63), 3%nat)
            else (RuneError, 1%nat)
        | _ => (RuneError, 1%nat)
        end
      else if (240 <=? b0) && (b0 <=? 244) then
        let lo := if b0 =? 240 then 144 else 128 in
        let hi := if b0 =? 244 then 143 else 191 in
        match rest with
        | b1 :: b2 :: b3 :: _ =>
            if continuation lo hi b1 && continuation 128 191 b2
               && continuation 128 191 b3
            then (Z.lor (Z.lor (Z.lor (Z.shiftl (Z.land b0 7) 18)
                                      (Z.shiftl (Z.land b1 63) 12))
                               (Z.shiftl (Z.land b2 63) 6)) (Z.land b3 63), 4%nat)
            else (RuneError, 1%nat)
        | _ => (RuneError, 1%nat)
        end
      else (RuneError, 1%nat)
  end.

(** [unicode.IsSpace]. *)
Definition IsSpace (r : Z) : bool :=
  if r <=? 255 then
    ((9 <=? r) && (r <=? 13)) || (r =? 32) || (r =? 133) || (r =? 160)
  else
    (r =? 5760) || ((8192 <=? r) && (r <=? 8202)) || (r =? 8232) || (r =? 8233)
    || (r =? 8239) || (r =? 8287) || (r =? 12288).

Definition flush (cur : option string) : list string :=
  match cur with
  | Some f => [String.rev f]
  | None => []
  end.

Definition push (a : ascii) (cur : option string) : option string :=
  match cur with
  | Some f => Some (String a f)
  | None => Some (String a "")
  end.

(** The scan of [Fields]: [skip] bytes still belong to the rune decoded
    last, which was white space or not ([space]); [cur] is the field being
    read, last byte first. *)
Fixpoint fields_go (s : string) (skip : nat) (space : bool) (cur : option string)
    : list string :=
  match s with
  | EmptyString => flush cur
  | String a rest =>
      match skip with
      | S skip' =>
          if space then fields_go rest skip' space cur
          else fields_go rest skip' space (push a cur)
      | O =>
          let '(r, size) :=
            DecodeRune (map byte_of (list_ascii_of_string (String a rest))) in
          if IsSpace r
          then flush cur ++ fields_go rest (Nat.pred size) true None
          else fields_go rest (Nat.pred size) false (push a cur)
      end
  end.

(** [strings.Fields]: the maximal runs of runes that are not white space.
    The slice it returns has as many elements as its capacity. *)
Definition Fields (s : string) : list string := fields_go s O false None.

(** [strings.Split] with a separator of one byte. *)
Fixpoint split_go (sep : ascii) (s : string) (cur : string) : list string :=
  match s with
  | EmptyString => [String.rev cur]
  | String a rest =>
      if Ascii.eqb a sep then String.rev cur :: split_go sep rest ""
      else split_go sep rest (String a cur)
  end.

Definition Split (s : string) (sep : ascii) : list string := split_go sep s "".

(** A slice expression [s[low:high]] on a slice whose capacity is its
    length. *)
Definition slice {X} (s : list X) (low high : nat) : outcome (list X) :=
  if (high <=? length s)%nat && (low <=? high)%nat
  then Returns (firstn (high - low) (skipn low s))
  else Panics "slice bounds out of range".

End strings.

(** ** Cron jobs: the manifest's validation and the jobs derived from labels *)

Module Cron.

Definition is_letter (a : ascii) : bool :=
  let b := strings.byte_of a in
  ((65 <=? b) && (b <=? 90)) || ((97 <=? b) && (b <=? 122)).

Definition is_label_char (a : ascii) : bool :=
  let b := strings.byte_of a in
  (b =? 45) || is_letter a || ((48 <=? b) && (b <=? 57)).

(** The regular expression [\A[a-zA-Z][-a-zA-Z0-9]{3,29}\z]. *)
Definition regexValidCronLabel (name : string) : bool :=
  match name with
  | EmptyString => false
  | String a rest =>
      is_letter a
      && forallb is_label_char (list_ascii_of_string rest)
      && (3 <=? String.length rest)%nat && (String.length rest <=? 29)%nat
  end.

Section cron.
(** The service and the application of the manifest packages and of
    [structs]; of a service the helpers read its name and its labels. *)
Context {Service App : Type}.
Variable ServiceName : Service -> string.
Variable LabelsByPrefix : Service -> string -> gmap string string.
Variable AppName : App -> string.

Record Manifest : Type := {
  Version : string;
  Services : gmap string Service
}.

Record CronJob : Type := {
  Name : string;
  Schedule : string;
  Command : string;
  Service_ : option Service;
  App_ : option App
}.

(** The order in which a [range] loop visits a map is not fixed by the
    language: any enumeration of the entries. *)
Record iteration : Type := {
  over_services : gmap string Service -> list (string * Service);
  over_labels : gmap string string -> list (string * string)
}.

Definition enumerates (it : iteration) : Prop :=
  (forall m, over_services it m ≡ₚ map_to_list m)
  /\ (forall m, over_labels it m ≡ₚ map_to_list m).

(** *** [Manifest.Validate] *)

Definition validate_label (k : string) : option error :=
  let parts := strings.Split k "."%char in
  if negb (length parts =? 3)%nat then
    Some (Errorf "Cron task is not valid (must be in format convox.cron.myjob)")
  else
    let name := nth 2 parts "" in
    if negb (regexValidCronLabel name) then
      Some (Errorf ("Cron task " +:+ name +:+ " is not valid (cron names can contain only alphanumeric characters and dashes and must be between 4 and 30 characters)"))
    else None.

Fixpoint validate_labels (labels : list (string * string)) : option error :=
  match labels with
  | [] => None
  | (k, _) :: rest =>
      match validate_label k with
      | Some err => Some err
      | None => validate_labels rest
      end
  end.

Fixpoint validate_services (it : iteration) (entries : list (string * Service))
    : option error :=
  match entries with
  | [] => None
  | (_, entry) :: rest =>
      match validate_labels (over_labels it (LabelsByPrefix entry "convox.cron")) with
      | Some err => Some err
      | None => validate_services it rest
      end
  end.

Definition Validate (it : iteration) (m : Manifest) : option error :=
  validate_services it (over_services it (Services m)).

(** *** Jobs from labels *)

Definition NewCronJobFromLabel (key value : string) : outcome CronJob :=
  let keySlice := strings.Split key "."%char in
  match last keySlice with
  | None => Panics aws.index_out_of_range
  | Some name =>
      let tokens := strings.Fields value in
      Go.bind (strings.slice tokens 0 5) (fun schedule =>
      Go.bind (strings.slice tokens 5 (length tokens)) (fun command =>
        Returns {| Name := name;
                   Schedule := "cron(" +:+ Join schedule " " +:+ " *)";
                   Command := Join command " ";
                   Service_ := None;
                   App_ := None |}))
  end.

Fixpoint cronjobs_of_labels (a : option App) (entry : Service)
    (labels : list (string * string)) (cronjobs : list CronJob)
    : outcome (list CronJob) :=
  match labels with
  | [] => Returns cronjobs
  | (key, value) :: rest =>
      Go.bind (NewCronJobFromLabel key value) (fun cronjob =>
        let cronjob := {| Name := Name cronjob; Schedule := Schedule cronjob;
                          Command := Command cronjob;
                          Service_ := Some entry; App_ := a |} in
        cronjobs_of_labels a entry rest (cronjobs ++ [cronjob]))
  end.

Fixpoint cronjobs_of_services (it : iteration) (a : option App)
    (entries : list (string * Service)) (cronjobs : list CronJob)
    : outcome (list CronJob) :=
  match entries with
  | [] => Returns cronjobs
  | (_, entry) :: rest =>
      Go.bind (cronjobs_of_labels a entry
                 (over_labels it (LabelsByPrefix entry "convox.cron")) cronjobs)
              (fun cronjobs => cronjobs_of_services it a rest cronjobs)
  end.

Definition appCronJobs (it : iteration) (a : option App) (m : option Manifest)
    : outcome (list CronJob) :=
  match m with
  | None => Returns []
  | Some m => cronjobs_of_services it a (over_services it (Services m)) []
  end.

(** *** Names of a job *)

(** The identifier before the hash is attached:
    [fmt.Sprintf("%s-%s-%s-%s", os.Getenv("RACK"), cr.App.Name, cr.Process(), cr.Name)]. *)
Definition natural_name (rack : string) (a : App) (s : Service) (name : string)
    : string :=
  rack +:+ "-" +:+ AppName a +:+ "-" +:+ ServiceName s +:+ "-" +:+ name.

(** [LongName], under the value [rack] of the environment variable [RACK]. *)
Definition LongName (rack : string) (cr : CronJob) : outcome string :=
  match App_ cr with
  | None => Panics aws.nil_dereference
  | Some a =>
      match Service_ cr with
      | None => Panics aws.nil_dereference
      | Some s =>
          let prefix := natural_name rack a s (Name cr) in
          let hash := sha256.Sum256 (sha256.bytes_of_string prefix) in
          Go.bind (str_to (base32.EncodeToString hash) 7) (fun h =>
            let suffix := "-" +:+ h in
            (* $prefix-$suffix-schedule needs to be <= 64 characters *)
            if len prefix >? 55 - len suffix then
              Go.bind (str_to prefix (55 - len suffix)) (fun prefix =>
                Returns (prefix +:+ suffix))
            else Returns (prefix +:+ suffix))
      end
  end.
End cron.

End Cron.

(** ** A scenario: one application stack of a rack

    Concrete collaborators on which the helpers are run: the provider
    describes one live stack with the parameters [A] and [B], the compiled
    document declares [A], [B] and [C], and the outside state is the clock. *)

Module Scenario.
Import aws.

Definition live_stack : Stack :=
  {| StackName := Some "rack-app";
     StackStatus := Some "UPDATE_COMPLETE";
     StackParameters :=
       [ {| ParameterKey := Some "A"; ParameterValue := Some "1";
            UsePreviousValue := None |};
         {| ParameterKey := Some "B"; ParameterValue := Some "2";
            UsePreviousValue := None |} ];
     StackTags :=
       [ {| Key := Some "Name"; Value := Some "app" |};
         {| Key := Some "Release"; Value := Some "R1" |} ] |}.

(** A description of the stack taken before its last update. *)
Definition stale_stack : Stack :=
  {| StackName := Some "rack-app";
     StackStatus := Some "CREATE_COMPLETE";
     StackParameters :=
       [ {| ParameterKey := Some "A"; ParameterValue := Some "0";
            UsePreviousValue := None |} ];
     StackTags := [] |}.

Definition declared : FormationParameter :=
  {| Description := ""; NoEcho := false; Type_ := "String" |}.

Definition formation : Formation :=
  {| FormationParameters :=
       <["A" := declared]> (<["B" := declared]> (<["C" := declared]> ∅)) |}.

Definition task_definition : DescribeTaskDefinitionOutput :=
  {| TaskDefinition_ :=
       Some {| ContainerDefinitions :=
                 [ {| DockerLabels := <["convox.release" := Some "R1"]> ∅ |} ] |} |}.

(** The provider accepts or rejects the update ([rejection]); the object
    store takes the document or fails ([stored]). *)
Definition provider_api (stored : bool) (rejection : option error) : api Z :=
  {| Now := fun r => r;
     DescribeStacksPages := fun _ r => (([[live_stack]], None), r);
     UpdateStack := fun _ r => (rejection, r + 1);
     ObjectStore := fun _ _ _ r =>
       (if stored then Ok {| Url := "object:///templates/app" |}
        else Err (Errorf "could not store the template"), r);
     DescribeContainerInstances := fun _ r =>
       (Ok {| ContainerInstances := ["instance-1"] |}, r);
     DescribeTasks := fun _ r =>
       (Ok {| Tasks := [ {| TaskDefinitionArn := Some "arn:task-definition" |} ];
              Failures := [] |}, r);
     DescribeTaskDefinition := fun _ r => (Ok task_definition, r);
     url_Parse := fun _ => Ok {| Scheme := "object"; Path := "/templates/app" |};
     json_Unmarshal := fun _ => Ok formation |}.

Definition provider (skip : bool) : Provider :=
  {| Cluster := "cluster";
     CloudformationTopic := "arn:topic";
     Region := "us-east-1";
     SettingsBucket := "settings";
     SkipCache := skip;
     IsTest := false |}.

(** Nothing cached, nothing requested yet, the clock at 0. *)
Definition cold : world Z :=
  World (cache.Cache ∅ false) 0 [].

(** The stale description of the stack is cached and has not expired. *)
Definition warm : world Z :=
  World (cache.Cache
           (<[("describeStacks", cache.KString "rack-app")
              := cache.Item (VStacks [stale_stack]) (5 * Second)]> ∅) false)
        0 [].

Definition changes : gmap string string := <["A" := "9"]> ∅.

Definition tags : gmap string string :=
  <["Release" := "R2"]> (<["System" := "convox"]> ∅).

(** The request [updateStack] sends for [changes] and [tags] with a new
    document. *)
Definition request : UpdateStackInput :=
  {| ReqCapabilities := ["CAPABILITY_IAM"];
     ReqClientRequestToken := Some "token";
     ReqNotificationARNs := ["arn:topic"];
     ReqParameters := [explicitValue "A" "9"; usePrevious "B"];
     ReqStackName := Some "rack-app";
     ReqTags :=
       [ {| Key := Some "Name"; Value := Some "app" |};
         {| Key := Some "Release"; Value := Some "R1" |};
         {| Key := Some "Release"; Value := Some "R2" |};
         {| Key := Some "System"; Value := Some "convox" |} ];
     ReqTemplateURL := Some "https://s3.us-east-1.amazonaws.com/settings/templates/app";
     ReqUsePreviousTemplate := None |}.

(** The requests of that run, and the world it leaves when the provider
    accepts the update. *)
Definition requests : list call :=
  [ CallDescribeStacks (Some "rack-app");
    CallObjectStore "" "" "{}";
    CallUpdateStack request ].

Definition updated : world Z :=
  World (cache.Cache ∅ false) 1 requests.

(** A function that fails at every invocation, with an error that tells
    the invocations apart, and a source of random numbers. *)
Definition attempt (n : nat) : option error * nat :=
  (Some (Errorf (string_of_list_ascii (repeat "I"%char (S n)))), S n).

Definition raw (k : nat) : Z := 1999999 + Z.of_nat k.

Definition start : Retry.world (St := nat) := Retry.World 0%nat 0%nat [].

Definition Millisecond : Z := 1000000.

(** A service of a manifest: its name and its labels; an application: its
    name. *)
Definition service : Type := string * gmap string string.

Definition labels_by_prefix (s : service) (prefix : string) : gmap string string :=
  filter (fun kv => String.prefix prefix (fst kv) = true) (snd s).

(** The schedule of the job has four fields. *)
Definition web : service :=
  ("web-service-with-a-long-name",
   <["convox.cron.myjob" := "30 18 ? *"]> (<["convox.port.443.protocol" := "tls"]> ∅)).

Definition manifest : Cron.Manifest (Service := service) :=
  {| Cron.Version := "2";
     Cron.Services := <["web" := web]> ∅ |}.

Definition in_map_order : Cron.iteration (Service := service) :=
  {| Cron.over_services := map_to_list;
     Cron.over_labels := map_to_list |}.

Definition job : Cron.CronJob (Service := service) (App := string) :=
  {| Cron.Name := "myjob";
     Cron.Schedule := "cron(30 18 ? * MON-FRI *)";
     Cron.Command := "bin/myjob";
     Cron.Service_ := Some web;
     Cron.App_ := Some "my-application-long" |}.


End Scenario.

(** ** Jobs of an application *)

Module CronJobs.
Section attach.
Context {Service App : Type}.

(** The two assignments [cj.Service = &s] and [cj.App = a] of
    [appCronJobs]. *)
Definition attach (a : option App) (entry : Service)
    (cj : Cron.CronJob (Service := Service) (App := App))
    : Cron.CronJob (Service := Service) (App := App) :=
  {| Cron.Name := Cron.Name cj; Cron.Schedule := Cron.Schedule cj;
     Cron.Command := Cron.Command cj;
     Cron.Service_ := Some entry; Cron.App_ := a |}.
End attach.
End CronJobs.

(** ** Further functions of the Go library *)

Module Text.

(** [c] is one of the bytes of [s]. *)
Definition has (c : ascii) (s : string) : Prop := c ∈ list_ascii_of_string s.

(** An index expression [l[i]]. *)
Definition elem {X} (l : list X) (i : Z) : outcome X :=
  if i <? 0 then Panics aws.index_out_of_range
  else match l !! Z.to_nat i with
       | Some x => Returns x
       | None => Panics aws.index_out_of_range
       end.

(** The text before and after the first occurrence of the byte [sep]. *)
Fixpoint cut (sep : ascii) (s : string) : option (string * string) :=
  match s with
  | EmptyString => None
  | String a rest =>
      if Ascii.eqb a sep then Some ("", rest)
      else match cut sep rest with
           | Some (before, after) => Some (String a before, after)
           | None => None
           end
  end.

(** [strings.SplitN] with a separator of one byte and a count that is
    not negative: at most [n] parts, the last one the remainder. *)
Fixpoint SplitN (s : string) (sep : ascii) (n : nat) : list string :=
  match n with
  | O => []
  | S O => [s]
  | S n' =>
      match cut sep s with
      | Some (before, after) => before :: SplitN after sep n'
      | None => [s]
      end
  end.

(** [strings.Index] for a byte: the first position, or -1. *)
Fixpoint Index (s : string) (c : ascii) : Z :=
  match s with
  | EmptyString => -1
  | String a rest =>
      if Ascii.eqb a c then 0
      else let i := Index rest c in if i <? 0 then -1 else i + 1
  end.

(** [strings.Replace(s, old, new, -1)] for two bytes. *)
Fixpoint Replace (s : string) (old new : ascii) : string :=
  match s with
  | EmptyString => EmptyString
  | String a rest =>
      String (if Ascii.eqb a old then new else a) (Replace rest old new)
  end.

(** A slice expression [s[low:high]] on a string. *)
Definition str_slice (s : string) (low high : Z) : outcome string :=
  if (0 <=? low) && (low <=? high) && (high <=? len s)
  then Returns (substring (Z.to_nat low) (Z.to_nat (high - low)) s)
  else Panics slice_bounds.

Definition is_ascii (s : string) : bool :=
  forallb (fun a => strings.byte_of a <? 128) (list_ascii_of_string s).

Definition upper (a : ascii) : ascii :=
  let b := strings.byte_of a in
  if (97 <=? b) && (b <=? 122) then ascii_of_N (Z.to_N (b - 32)) else a.

Fixpoint map_bytes (f : ascii -> ascii) (s : string) : string :=
  match s with
  | EmptyString => EmptyString
  | String a rest => String (f a) (map_bytes f rest)
  end.

(** [strings.ToUpper]: on a string of ASCII bytes the letters are raised;
    what it makes of other strings is left to [other] (the answer on
    invalid UTF-8 differs between releases of the library). *)
Definition ToUpper (other : string -> string) (s : string) : string :=
  if is_ascii s then map_bytes upper s else other s.

End Text.

(** ** Helpers on names and identifiers ([helpers.go]) *)

Module Naming.
Import Text.

Definition certificateFriendlyId (arn : string) : outcome string :=
  let ap := strings.Split arn ":"%char in
  if (length ap <? 6)%nat then Returns ""
  else
    Go.bind (elem ap 2) (fun service =>
      if String.eqb service "acm" then
        Go.bind (elem ap 5) (fun resource =>
          let np := strings.Split resource "-"%char in
          Go.bind (elem np (Z.of_nat (length np) - 1)) (fun id =>
            Returns ("acm-" +:+ id)))
      else if String.eqb service "iam" then
        Go.bind (elem ap 5) (fun resource =>
          let np := SplitN resource "/"%char 2 in
          if (length np <? 2)%nat then Returns ""
          else elem np 1)
      else Returns "").

Fixpoint coalesces (ss : list string) : string :=
  match ss with
  | [] => ""
  | s :: rest => if negb (String.eqb s "") then s else coalesces rest
  end.

(** [lastline], with [strings.TrimSpace] as [TrimSpace]. *)
Definition lastline (TrimSpace : string -> string) (data : string) : outcome string :=
  let lines := strings.Split (TrimSpace data) "010"%char in
  elem lines (Z.of_nat (length lines) - 1).

(** [volumeTo]; [quote] is the verb [%q] of package fmt. *)
Definition volumeTo (quote : string -> string) (s : string) : outcome string :=
  let parts := SplitN s ":"%char 2 in
  match length parts with
  | 1%nat => Returns s
  | 2%nat => elem parts 1
  | _ => Returns ("invalid volume " +:+ quote s)
  end.

Section random.
(** The raw value of the k-th draw of the process-wide random source. *)
Variable rng : nat -> Z.

(** The loop [for i := range b { b[i] = alphabet[rand.Intn(len(alphabet))] }]
    over a slice of [n] runes, entered after [k] draws. *)
Fixpoint fill (alphabet : list ascii) (n : nat) (k : nat)
    : outcome (list ascii * nat) :=
  match n with
  | O => Returns ([], k)
  | S n' =>
      Go.bind (Retry.Intn rng (Z.of_nat (length alphabet)) k) (fun j =>
      Go.bind (elem alphabet j) (fun r =>
      Go.bind (fill alphabet n' (S k)) (fun '(b, k') =>
        Returns (r :: b, k'))))
  end.

(** [make([]rune, size)]: the length of the new slice. *)
Definition make (size : Z) : outcome nat :=
  if size <? 0 then Panics "makeslice: len out of range"
  else Returns (Z.to_nat size).

Definition idAlphabet : list ascii :=
  list_ascii_of_string "ABCDEFGHIJKLMNOPQRSTUVWXYZ".

Definition generateId (prefix : string) (size : Z) (k : nat)
    : outcome (string * nat) :=
  Go.bind (make size) (fun n =>
  Go.bind (fill idAlphabet n k) (fun '(b, k') =>
    Returns (prefix +:+ string_of_list_ascii b, k'))).

Definition randomAlphabet : list ascii :=
  list_ascii_of_string "ABCDEFGHIJKLMNOPQRSTUVWXYZabcdefghijklmnopqrstuvwxyz".

Definition randomString (size : Z) (k : nat) : outcome (string * nat) :=
  Go.bind (make size) (fun n =>
  Go.bind (fill randomAlphabet n k) (fun '(b, k') =>
    Returns (string_of_list_ascii b, k'))).
End random.

(** One pass over a name: the separators [-] and [_] are dropped, and the
    first byte and every byte after a separator are raised. *)
Fixpoint camel (up : bool) (s : string) : string :=
  match s with
  | EmptyString => EmptyString
  | String c rest =>
      if Ascii.eqb c "-" || Ascii.eqb c "_" then camel true rest
      else String (if up then upper c else c) (camel false rest)
  end.

Section upper_name.
Variable other : string -> string.

(** The [for] loop of [upperName].  [None]: still running after [fuel]
    iterations. *)
Fixpoint upperName_loop (fuel : nat) (us : string) : option (outcome string) :=
  match fuel with
  | O => None
  | S fuel' =>
      let i := Index us "-"%char in
      if i =? -1 then Some (Returns us)
      else
        match str_slice us 0 i with
        | Panics m => Some (Panics m)
        | Returns s =>
            let s1 :=
              if len us >? i + 1
              then Go.bind (str_slice us (i + 1) (i + 2)) (fun c =>
                     Returns (s +:+ ToUpper other c))
              else Returns s in
            match s1 with
            | Panics m => Some (Panics m)
            | Returns s =>
                let s2 :=
                  if len us >? i + 2
                  then Go.bind (str_slice us (i + 2) (len us)) (fun rest =>
                         Returns (s +:+ rest))
                  else Returns s in
                match s2 with
                | Panics m => Some (Panics m)
                | Returns s => upperName_loop fuel' s
                end
            end
        end
  end.

Definition upperName (fuel : nat) (name : string) : option (outcome string) :=
  if String.eqb name "" then Some (Returns "")
  else
    (* replace underscores with dashes *)
    let name := Replace name "_"%char "-"%char in
    (* myapp -> Myapp; my-app -> MyApp *)
    match str_slice name 0 1, str_slice name 1 (len name) with
    | Returns first, Returns rest =>
        upperName_loop fuel (ToUpper other first +:+ rest)
    | Panics m, _ => Some (Panics m)
    | _, Panics m => Some (Panics m)
    end.
End upper_name.

End Naming.

(** ** Values of a stack ([helpers.go]) *)

Module StackValues.
Import aws.

(** The values the parameters of key [k] carry, in the order of the
    stack's list. *)
Definition values_of (k : string) (ps : list CfParameter) : list string :=
  omap (fun parameter =>
          if decide (ParameterKey parameter = Some k)
          then ParameterValue parameter else None) ps.

(** The loop of [stackParameters]. *)
Fixpoint parameters_loop (ps : list CfParameter) (parameters : gmap string string)
    : outcome (gmap string string) :=
  match ps with
  | [] => Returns parameters
  | parameter :: rest =>
      match ParameterKey parameter, ParameterValue parameter with
      | Some k, Some v => parameters_loop rest (<[k := v]> parameters)
      | _, _ => Panics nil_dereference
      end
  end.

Definition stackParameters (stack : option Stack) : outcome (gmap string string) :=
  match stack with
  | None => Panics nil_dereference
  | Some stack => parameters_loop (StackParameters stack) ∅
  end.

(** The values the tags of key [k] carry, in the order of the stack's
    list. *)
Definition tag_values_of (k : string) (ts : list Tag) : list string :=
  omap (fun tag => if decide (Key tag = Some k) then Value tag else None) ts.

(** The loop of [stackTags]. *)
Fixpoint tags_loop (ts : list Tag) (tags : gmap string string)
    : outcome (gmap string string) :=
  match ts with
  | [] => Returns tags
  | tag :: rest =>
      match Key tag, Value tag with
      | Some k, Some v => tags_loop rest (<[k := v]> tags)
      | _, _ => Panics nil_dereference
      end
  end.

Definition stackTags (stack : option Stack) : outcome (gmap string string) :=
  match stack with
  | None => Panics nil_dereference
  | Some stack => tags_loop (StackTags stack) ∅
  end.

(** The loop of [Provider.stackParameter]: [None] when it falls through. *)
Fixpoint find_parameter (ps : list CfParameter) (param : string)
    : outcome (option string) :=
  match ps with
  | [] => Returns None
  | p :: rest =>
      match ParameterKey p with
      | None => Panics nil_dereference
      | Some k =>
          if String.eqb k param then
            match ParameterValue p with
            | Some v => Returns (Some v)
            | None => Panics nil_dereference
            end
          else find_parameter rest param
      end
  end.

Section provider.
Context {R : Type} (A : api R).

Definition stackParameter (p : Provider) (stack param : string) : M R (res string) :=
  let! r := describeStack A p stack in
  match r with
  | Err err => ret (Err err)
  | Ok st =>
      match find_parameter (StackParameters st) param with
      | Panics msg => panic msg
      | Returns (Some v) => ret (Ok v)
      | Returns None => ret (Err (Errorf ("parameter not found: " +:+ param)))
      end
  end.
End provider.

End StackValues.

(** ** Batched deletion ([Provider.dynamoBatchDeleteItems]) *)

Module Dynamo.

(** What the helper does to the outside: write requests to a table and
    lines on the standard output. *)
Inductive event {WR : Type} : Type :=
| BatchWrite (table : string) (items : list WR)
| Println (line : string).
Global Arguments event WR : clear implicits.

(** The item lists of the write requests of a trace. *)
Definition batches {WR} (tr : list (event WR)) : list (list WR) :=
  omap (fun e => match e with
                 | BatchWrite _ items => Some items
                 | Println _ => None
                 end) tr.

(** A slice expression [s[low:high]] on a slice whose capacity is its
    length. *)
Definition slice {X} (s : list X) (low high : Z) : outcome (list X) :=
  if (0 <=? low) && (low <=? high) && (high <=? Z.of_nat (length s))
  then Returns (take (Z.to_nat (high - low)) (drop (Z.to_nat low) s))
  else Panics slice_bounds.

Definition no_builds : string :=
  "ns=api fn=dynamoBatchDeleteItems level=info msg="
  +:+ String "034" "no builds to delete" +:+ String "034" "".

Section batch.
Context {WR St : Type}.
(** [dynamodb.BatchWriteItem] on a table and the state of the service. *)
Variable BatchWriteItem : string -> list WR -> St -> option error * St.

Record world : Type := World {
  remote : St;
  trace : list (event WR)
}.

(** The [for] loop over the chunks, entered with index [i].  [None]: the
    loop is still running after [fuel] iterations. *)
Fixpoint chunks_loop (fuel : nat) (wrs : list WR) (tableName : string)
    (maxLen : Z) (i : Z) (w : world) : option (outcome (option error) * world) :=
  match fuel with
  | O => None
  | S fuel' =>
      if i <? Z.of_nat (length wrs) then
        let high := wrap64 (i + maxLen) in
        let high := if high >? Z.of_nat (length wrs)
                    then Z.of_nat (length wrs) else high in
        match slice wrs i high with
        | Panics msg => Some (Panics msg, w)
        | Returns items =>
            let '(err, r) := BatchWriteItem tableName items (remote w) in
            let w' := World r (trace w ++ [BatchWrite tableName items]) in
            match err with
            | Some e => Some (Returns (Some e), w')
            | None => chunks_loop fuel' wrs tableName maxLen (wrap64 (i + maxLen)) w'
            end
        end
      else Some (Returns None, w)
  end.

Definition dynamoBatchDeleteItems (fuel : nat) (wrs : list WR) (tableName : string)
    (w : world) : option (outcome (option error) * world) :=
  if Z.of_nat (length wrs) >? 0 then
    if Z.of_nat (length wrs) <=? 25 then
      let '(err, r) := BatchWriteItem tableName wrs (remote w) in
      Some (Returns err, World r (trace w ++ [BatchWrite tableName wrs]))
    else
      (* if more than 25 items to delete, we have to make multiple calls *)
      let maxLen := 25 in
      chunks_loop fuel wrs tableName maxLen 0 w
  else
    Some (Returns None, World (remote w) (trace w ++ [Println no_builds])).

(** What the service answers to chunks sent one after the other from the
    state [s], and the state it is left in. *)
Fixpoint answers (chunks : list (list WR)) (tableName : string) (s : St)
    : list (option error) * St :=
  match chunks with
  | [] => ([], s)
  | items :: rest =>
      let '(err, s') := BatchWriteItem tableName items s in
      let '(errs, s'') := answers rest tableName s' in
      (err :: errs, s'')
  end.
End batch.

End Dynamo.

(** ** Writing log events ([Provider.putLogEvents]) *)

Module Logs.

Record PutLogEventsInput {Ev : Type} : Type := {
  LogEvents : list Ev;
  LogGroupName : option string;
  LogStreamName : option string;
  SequenceToken : option string
}.
Global Arguments PutLogEventsInput Ev : clear implicits.

Record LogStream : Type := {
  UploadSequenceToken : option string
}.

(** [awsError]: the code of an error of the provider, the empty string
    for any other error. *)
Definition awsError (err : error) : string :=
  match err with
  | AwsError code _ => code
  | Errorf _ => ""
  end.

Section logs.
Context {Ev St : Type}.

(** The three requests, on the state of the service.  [PutLogEvents]
    answers with the [NextSequenceToken] of its output. *)
Record api : Type := {
  PutLogEvents : PutLogEventsInput Ev -> St -> res (option string) * St;
  CreateLogStream : option string -> option string -> St -> option error * St;
  DescribeLogStreams :
    option string -> option string -> St -> res (list (option LogStream)) * St
}.

Inductive call : Type :=
| CallPutLogEvents (req : PutLogEventsInput Ev)
| CallCreateLogStream (group stream : option string)
| CallDescribeLogStreams (group prefix : option string).

Definition is_put (c : call) : bool :=
  match c with CallPutLogEvents _ => true | _ => false end.

(** The number of [PutLogEvents] requests among some calls. *)
Definition puts (cs : list call) : nat := length (List.filter is_put cs).

Record world : Type := World {
  remote : St;
  log : list call
}.

Variable A : api.

(** The run of the loop: what is returned, the request as the caller
    finds it afterwards (it is passed by pointer), and the world. *)
Definition run : Type := outcome (res string) * PutLogEventsInput Ev * world.

Definition with_token (req : PutLogEventsInput Ev) (token : option string)
    : PutLogEventsInput Ev :=
  {| LogEvents := LogEvents req; LogGroupName := LogGroupName req;
     LogStreamName := LogStreamName req; SequenceToken := token |}.

(** The [for] loop of [putLogEvents].  [None]: still running after [fuel]
    iterations. *)
Fixpoint putLogEvents_loop (fuel : nat) (req : PutLogEventsInput Ev)
    (attempts : Z) (w : world) : option run :=
  match fuel with
  | O => None
  | S fuel' =>
      let '(r, st) := PutLogEvents A req (remote w) in
      let w1 := World st (log w ++ [CallPutLogEvents req]) in
      match r with
      | Ok token =>
          match token with
          | Some t => Some (Returns (Ok t), req, w1)
          | None => Some (Panics aws.nil_dereference, req, w1)
          end
      | Err err =>
          let attempts := wrap64 (attempts + 1) in
          if attempts >? 3 then Some (Returns (Err err), req, w1)
          else if String.eqb (awsError err) "ResourceNotFoundException" then
            let '(e, st2) :=
              CreateLogStream A (LogGroupName req) (LogStreamName req) (remote w1) in
            let w2 := World st2 (log w1 ++ [CallCreateLogStream (LogGroupName req)
                                                                (LogStreamName req)]) in
            match e with
            | Some e => Some (Returns (Err e), req, w2)
            | None => putLogEvents_loop fuel' req attempts w2
            end
          else if String.eqb (awsError err) "InvalidSequenceTokenException" then
            let '(sres, st2) :=
              DescribeLogStreams A (LogGroupName req) (LogStreamName req) (remote w1) in
            let w2 := World st2 (log w1 ++ [CallDescribeLogStreams (LogGroupName req)
                                                                   (LogStreamName req)]) in
            match sres with
            | Err e => Some (Returns (Err e), req, w2)
            | Ok streams =>
                if negb (length streams =? 1)%nat then
                  match LogGroupName req, LogStreamName req with
                  | Some group, Some stream =>
                      Some (Returns (Err (Errorf ("could not describe log stream: "
                                                  +:+ group +:+ "/" +:+ stream
                                                  +:+ String "010" ""))), req, w2)
                  | _, _ => Some (Panics aws.nil_dereference, req, w2)
                  end
                else
                  match streams with
                  | Some stream :: _ =>
                      putLogEvents_loop fuel'
                        (with_token req (UploadSequenceToken stream)) attempts w2
                  | None :: _ => Some (Panics aws.nil_dereference, req, w2)
                  | [] => Some (Panics aws.index_out_of_range, req, w2)
                  end
            end
          else Some (Returns (Err err), req, w1)
      end
  end.

Definition putLogEvents (fuel : nat) (req : PutLogEventsInput Ev) (w : world)
    : option run :=
  putLogEvents_loop fuel req 0 w.
End logs.
Global Arguments api Ev St : clear implicits.
Global Arguments call Ev : clear implicits.
Global Arguments world Ev St : clear implicits.

End Logs.

(** ** The order in which services run ([Manifest.runOrder]) *)

Module RunOrder.
Section run_order.
(** Of a service the sort reads its name and its links. *)
Context {Service : Type}.
Variable Name : Service -> string.
Variable Links : Service -> list string.

(** [services[i], services[j] = services[j], services[i]]. *)
Definition swap (services : list Service) (i j : nat) : outcome (list Service) :=
  match services !! i, services !! j with
  | Some si, Some sj => Returns (<[j := si]> (<[i := sj]> services))
  | _, _ => Panics aws.index_out_of_range
  end.

(** The loop over the links of [services[i]]: swap if [j] is a
    dependency of [i], and leave the loop. *)
Fixpoint links_loop (names : list string) (services : list Service) (i j : nat)
    : outcome (list Service) :=
  match names with
  | [] => Returns services
  | name :: rest =>
      match services !! j with
      | None => Panics aws.index_out_of_range
      | Some sj =>
          if String.eqb name (Name sj) then swap services i j
          else links_loop rest services i j
      end
  end.

(** The loop over [j]; the indices still to visit are [js].  The length
    of the slice does not change in the loops. *)
Fixpoint inner_loop (js : list nat) (services : list Service) (i : nat)
    : outcome (list Service) :=
  match js with
  | [] => Returns services
  | j :: rest =>
      match services !! i with
      | None => Panics aws.index_out_of_range
      | Some si =>
          Go.bind (links_loop (Links si) services i j) (fun services =>
            inner_loop rest services i)
      end
  end.

(** The loop over [i]. *)
Fixpoint outer_loop (indices : list nat) (services : list Service)
    : outcome (list Service) :=
  match indices with
  | [] => Returns services
  | i :: rest =>
      Go.bind (inner_loop (seq (S i) (length services - S i)) services i)
              (fun services => outer_loop rest services)
  end.

(** [runOrder] on the services in the order in which the [range] over
    the map of the manifest visited them. *)
Definition runOrder (visited : list (string * Service)) : outcome (list Service) :=
  let services := visited.*2 in
  (* classic bubble sort *)
  outer_loop (seq 0 (length services - 1)) services.

(** No service links to a service of the list. *)
Definition unlinked (services : list Service) : Prop :=
  forall s s', s ∈ services -> s' ∈ services -> Name s' ∉ Links s.
End run_order.
End RunOrder.

(** ** Further cases: concrete runs of the helpers *)

Module Cases.
Import aws Scenario.

(** A change for a parameter that the live stack does not have. *)
Definition changes_unknown : gmap string string := <["Z" := "1"]> changes.

(** The request [updateStack] sends for [changes_unknown] and [tags]
    without a new document and without a token. *)
Definition request_previous : UpdateStackInput :=
  {| ReqCapabilities := ["CAPABILITY_IAM"];
     ReqClientRequestToken := None;
     ReqNotificationARNs := ["arn:topic"];
     ReqParameters := [explicitValue "A" "9"; usePrevious "B"];
     ReqStackName := Some "rack-app";
     ReqTags :=
       [ {| Key := Some "Name"; Value := Some "app" |};
         {| Key := Some "Release"; Value := Some "R1" |};
         {| Key := Some "Release"; Value := Some "R2" |};
         {| Key := Some "System"; Value := Some "convox" |} ];
     ReqTemplateURL := None;
     ReqUsePreviousTemplate := Some true |}.

Definition requests_previous : list call :=
  [ CallDescribeStacks (Some "rack-app"); CallUpdateStack request_previous ].

Definition updated_previous : world Z :=
  World (cache.Cache ∅ false) 1 requests_previous.

Definition tasks_input : DescribeTasksInput :=
  {| DTICluster := Some "cluster"; DTITasks := [Some "task-1"] |}.

Definition tasks_output : DescribeTasksOutput :=
  {| Tasks := [ {| TaskDefinitionArn := Some "arn:task-definition" |} ];
     Failures := [] |}.

(** A function that fails twice and then succeeds. *)
Definition flaky (n : nat) : option error * nat :=
  (if (n <? 2)%nat then Some (Errorf "busy") else None, S n).

(** Where [retry] leaves the world after two failures and a success of
    [flaky], with an interval of 100 ms. *)
Definition settled : Retry.world (St := nat) :=
  Retry.World 3%nat 2%nat
    [ Retry.Call (Some (Errorf "busy")); Retry.Sleep 101999999;
      Retry.Call (Some (Errorf "busy")); Retry.Sleep 102000000;
      Retry.Call None ].

(** A service whose job has a schedule of five fields and a command. *)
Definition worker : service :=
  ("worker",
   <["convox.cron.myjob" := "30 18 ? * MON-FRI bin/myjob"]>
     (<["convox.port.443.protocol" := "tls"]> ∅)).

Definition nightly : Cron.Manifest (Service := service) :=
  {| Cron.Version := "2";
     Cron.Services := <["worker" := worker]> ∅ |}.

(** Services of a manifest for the run order: name and links. *)
Definition linked : Type := string * list string.

Definition database : linked := ("database", []).
Definition cache_service : linked := ("cache", ["metrics"]).

Definition independent : gmap string linked :=
  <["database" := database]> (<["cache" := cache_service]> ∅).

(** A source of random numbers for the identifiers. *)
Definition dice (k : nat) : Z := 7 * Z.of_nat k + 3.

(** A table service that counts the requests it has served and rejects
    what comes after the first fifty. *)
Definition throttled : string -> list nat -> nat -> option error * nat :=
  fun _ items served =>
    (if (50 <=? served)%nat then Some (Errorf "throttled") else None,
     (served + length items)%nat).

(** A log service that first rejects the sequence token and then takes
    the events. *)
Definition log_service : Logs.api nat nat :=
  {| Logs.PutLogEvents := fun req attempts =>
       (match Logs.SequenceToken req with
        | Some token => Ok (Some (token +:+ "+1"))
        | None => Err (AwsError "InvalidSequenceTokenException" "no token")
        end, S attempts);
     Logs.CreateLogStream := fun _ _ attempts => (None, attempts);
     Logs.DescribeLogStreams := fun _ _ attempts =>
       (Ok [Some {| Logs.UploadSequenceToken := Some "t7" |}], attempts) |}.

Definition events : Logs.PutLogEventsInput nat :=
  {| Logs.LogEvents := [1%nat; 2%nat];
     Logs.LogGroupName := Some "group";
     Logs.LogStreamName := Some "stream";
     Logs.SequenceToken := None |}.

(** A double quote, and a string literal of JSON. *)
Definition quote : string := String "034" "".








End Cases.

(** * Properties *)

Import Status.

(** ** Status normalisation *)

(** C8: [humanStatus] is total and agrees on every string with the table of
    the specification: the listed raw statuses give the listed canonical
    value, and every other string gives [unknown]. *)
Theorem humanStatus_agrees_with_table (raw : string) :
  fst (humanStatus raw) =
    match table_lookup raw spec_status_table with
    | Some canonical => canonical
    | None => "unknown"
    end.
Proof.
  unfold humanStatus, spec_status_table, table_lookup.
  repeat
    match goal with
    | |- context [String.eqb raw ?k] =>
        destruct (String.eqb_spec raw k) as [-> | ?]; [reflexivity |]
    end.
  reflexivity.
Qed.

(** The entries of the table, one by one. *)
Example humanStatus_listed :
  map (fun raw => fst (humanStatus raw))
    [ ""; "CREATE_IN_PROGRESS"; "CREATE_COMPLETE"; "UPDATE_IN_PROGRESS";
      "UPDATE_COMPLETE_CLEANUP_IN_PROGRESS"; "UPDATE_COMPLETE";
      "UPDATE_ROLLBACK_COMPLETE"; "DELETE_IN_PROGRESS"; "DELETE_FAILED";
      "ROLLBACK_IN_PROGRESS"; "UPDATE_ROLLBACK_IN_PROGRESS";
      "UPDATE_ROLLBACK_COMPLETE_CLEANUP_IN_PROGRESS"; "ROLLBACK_COMPLETE";
      "UPDATE_ROLLBACK_FAILED"; "REVIEW_IN_PROGRESS"; "create_complete" ]
  = [ "new"; "creating"; "running"; "updating"; "updating"; "running"; "running";
      "deleting"; "running"; "rollback"; "rollback"; "rollback"; "failed"; "failed";
      "unknown"; "unknown" ].
Proof. reflexivity. Qed.

(** Outside the table the default case also reports the raw status on the
    standard output, and nothing else is printed. *)
Lemma humanStatus_unknown_logged (raw : string) :
  table_lookup raw spec_status_table = None ->
  humanStatus raw
  = ("unknown", Some ("unknown status: " +:+ raw +:+ String "010"%char "")).
Proof.
  unfold humanStatus, spec_status_table, table_lookup.
  repeat
    match goal with
    | |- context [String.eqb raw ?k] =>
        destruct (String.eqb_spec raw k) as [-> | ?]; [discriminate |]
    end.
  reflexivity.
Qed.

(** ** Conditions of the application template *)

Section conditions.
Import Template.

Lemma eval_S fuel cs ps c :
  eval (S fuel) cs ps c =
    match c with
    | FnEquals a b => Some (String.eqb (operand_value ps a) (operand_value ps b))
    | FnAnd a b =>
        match eval (S fuel) cs ps a, eval (S fuel) cs ps b with
        | Some x, Some y => Some (x && y)
        | _, _ => None
        end
    | FnOr a b =>
        match eval (S fuel) cs ps a, eval (S fuel) cs ps b with
        | Some x, Some y => Some (x || y)
        | _, _ => None
        end
    | FnNot a => negb <$> eval (S fuel) cs ps a
    | Condition name =>
        match find_condition name cs with
        | Some c' => eval fuel cs ps c'
        | None => None
        end
    end.
Proof. destruct c; reflexivity. Qed.

(** A name that does not start with [Service] is looked up among the
    fixed conditions. *)
Lemma find_condition_fixed sc name :
  service_condition_names sc ->
  String.prefix "Service" name = false ->
  find_condition name (Conditions sc) = find_condition name fixed_conditions.
Proof.
  unfold Conditions, service_condition_names.
  induction 1 as [| [n c] sc Hn _ IH]; intros Hname; [reflexivity |].
  simpl in *. destruct (String.eqb_spec n name) as [-> | _].
  - congruence.
  - auto.
Qed.

Lemma eval_toggle fuel cs ps name value :
  eval (S fuel) cs ps (FnEquals (Ref name) (Lit value)) = Some (toggle ps name value).
Proof. reflexivity. Qed.

(** The serverless-capacity condition is the toggle being [Yes] or [Spot]. *)
Lemma holds_FargateServicesEither fuel sc ps :
  service_condition_names sc ->
  holds (3 + fuel) (Conditions sc) ps "FargateServicesEither"
  = Some (toggle ps "FargateServices" "Yes" || toggle ps "FargateServices" "Spot").
Proof.
  intros Hsc. unfold holds.
  replace (3 + fuel)%nat with (S (S (S fuel))) by lia.
  rewrite eval_S, find_condition_fixed by (assumption || reflexivity).
  cbn [find_condition fixed_conditions String.eqb Ascii.eqb Bool.eqb].
  rewrite eval_S.
  rewrite (eval_S _ _ _ (Condition "FargateServicesBase")).
  rewrite (eval_S _ _ _ (Condition "FargateServicesSpot")).
  rewrite !find_condition_fixed by (assumption || reflexivity).
  cbn [find_condition fixed_conditions String.eqb Ascii.eqb Bool.eqb].
  rewrite !eval_toggle. reflexivity.
Qed.

(** The condition [Isolate] needs the rack to be private as well. *)
Lemma holds_Isolate fuel sc ps :
  service_condition_names sc ->
  holds (3 + fuel) (Conditions sc) ps "Isolate"
  = Some (toggle ps "Private" "Yes" && toggle ps "Isolate" "Yes").
Proof.
  intros Hsc. unfold holds.
  replace (3 + fuel)%nat with (S (S (S fuel))) by lia.
  rewrite eval_S, find_condition_fixed by (assumption || reflexivity).
  cbn [find_condition fixed_conditions String.eqb Ascii.eqb Bool.eqb].
  rewrite eval_S.
  rewrite (eval_S _ _ _ (Condition "Private")).
  rewrite !find_condition_fixed by (assumption || reflexivity).
  cbn [find_condition fixed_conditions String.eqb Ascii.eqb Bool.eqb].
  rewrite eval_S, !eval_toggle. reflexivity.
Qed.

(** C6, as the template has it: a service's network is isolated exactly
    when serverless capacity is selected ([FargateServices] is [Yes] or
    [Spot]), or isolation is requested on a private rack ([Private] and
    [Isolate] are both [Yes]), whatever the other toggles and the
    services of the manifest are. *)
Theorem IsolateServices_formula fuel sc ps :
  service_condition_names sc ->
  (4 <= fuel)%nat ->
  holds fuel (Conditions sc) ps "IsolateServices"
  = Some ((toggle ps "FargateServices" "Yes" || toggle ps "FargateServices" "Spot")
          || (toggle ps "Private" "Yes" && toggle ps "Isolate" "Yes"))
  /\ service_Isolate fuel (Conditions sc) ps
    = Some (if (toggle ps "FargateServices" "Yes" || toggle ps "FargateServices" "Spot")
               || (toggle ps "Private" "Yes" && toggle ps "Isolate" "Yes")
            then "Yes" else "No").
Proof.
  intros Hsc Hfuel.
  assert (H : holds fuel (Conditions sc) ps "IsolateServices"
    = Some ((toggle ps "FargateServices" "Yes" || toggle ps "FargateServices" "Spot")
            || (toggle ps "Private" "Yes" && toggle ps "Isolate" "Yes"))).
  { destruct fuel as [| fuel]; [lia |].
    replace fuel with (3 + (fuel - 3))%nat by lia.
    unfold holds. rewrite eval_S, find_condition_fixed by (assumption || reflexivity).
    cbn [find_condition fixed_conditions String.eqb Ascii.eqb Bool.eqb].
    replace (3 + (fuel - 3))%nat with (S (2 + (fuel - 3))) at 1 by lia.
    rewrite eval_S.
    replace (S (2 + (fuel - 3))) with (3 + (fuel - 3))%nat by lia.
    pose proof (holds_FargateServicesEither (fuel - 3) sc ps Hsc) as H1.
    pose proof (holds_Isolate (fuel - 3) sc ps Hsc) as H2.
    unfold holds in H1, H2. rewrite H1, H2. reflexivity. }
  split; [exact H |].
  unfold service_Isolate. rewrite H. reflexivity.
Qed.

Lemma IsolateServices_formula_witness :
  holds 4 (Conditions [("ServiceWebFargate", Condition "FargateServicesBase")])
    isolated_private_parameters "IsolateServices" = Some true.
Proof.
  refine (proj1 (IsolateServices_formula 4
    [("ServiceWebFargate", Condition "FargateServicesBase")]
    isolated_private_parameters _ _)).
  - repeat constructor.
  - lia.
Defined.

(** C6 as stated fails: isolation is requested ([Isolate] is [Yes]), and
    yet the network of the services is not isolated, because the rack is
    not private. *)
Lemma IsolateServices_not_isolate_or_serverless :
  toggle public_isolate_parameters "Isolate" "Yes" = true
  /\ holds 4 (Conditions []) public_isolate_parameters "IsolateServices" = Some false
  /\ ~ (forall fuel ps,
         (4 <= fuel)%nat ->
         holds fuel (Conditions []) ps "IsolateServices"
         = Some (toggle ps "Isolate" "Yes"
                 || (toggle ps "FargateServices" "Yes"
                     || toggle ps "FargateServices" "Spot"))).
Proof.
  split; [reflexivity |]. split; [reflexivity |].
  intros H. specialize (H 4%nat public_isolate_parameters (le_n 4)).
  discriminate H.
Qed.
End conditions.

(** ** Bounded retry *)

Section retry_facts.
Import Retry.
Context {St : Type} (rng : nat -> Z).
Implicit Types (fn : St -> option error * St) (w : world (St := St)).

Lemma wrap64_id z : in_int64 z -> wrap64 z = z.
Proof.
  unfold in_int64, wrap64, MinInt64, MaxInt64. intros H.
  rewrite Z.mod_small; lia.
Qed.

Lemma sleeps_app tr1 tr2 : sleeps (tr1 ++ tr2) = sleeps tr1 ++ sleeps tr2.
Proof. unfold sleeps. apply omap_app. Qed.

Lemma calls_app tr1 tr2 : calls (tr1 ++ tr2) = (calls tr1 + calls tr2)%nat.
Proof. unfold calls. rewrite filter_app, length_app. reflexivity. Qed.

Lemma calls_Call err : calls [Call err] = 1%nat.
Proof. reflexivity. Qed.

Lemma calls_Sleep d : calls [Sleep d] = 0%nat.
Proof. reflexivity. Qed.

(** The jitter the code draws lies below a twentieth of the interval. *)
Lemma Intn_range n k j :
  Intn rng n k = Returns j -> 0 <= j < n.
Proof.
  unfold Intn. destruct (Z.leb_spec n 0); [discriminate |].
  intros [= <-]. apply Z.mod_pos_bound. lia.
Qed.

Lemma Intn_panics n k :
  n <= 0 -> Intn rng n k = Panics "invalid argument to Intn".
Proof. unfold Intn. intros H. destruct (Z.leb_spec n 0); [reflexivity | lia]. Qed.

(** C4, as the code has it: every sleep of [retry] lasts the interval plus
    a jitter below [interval/20], a twentieth of the interval, not a fifth
    (the comment in the source announces 20%). *)
Theorem retry_sleeps_within_a_twentieth fuel times interval fn i w out w' :
  20 <= interval ->
  interval + Z.quot interval 20 <= MaxInt64 ->
  retry_loop rng fuel times interval fn i w = Some (out, w') ->
  exists ds,
    sleeps (trace w') = sleeps (trace w) ++ ds
    /\ Forall (fun d => interval <= d < interval + Z.quot interval 20) ds.
Proof.
  intros Hlo Hhi. revert i w.
  induction fuel as [| fuel IH]; intros i w Hrun; [discriminate |].
  simpl in Hrun. destruct (fn (user w)) as [err s'].
  destruct err as [e |].
  - destruct (Intn rng (Z.quot interval 20) (draws w)) as [j | m] eqn:Hj; simpl in Hrun.
    + apply Intn_range in Hj.
      assert (Hd : wrap64 (interval + j) = interval + j).
      { apply wrap64_id. unfold in_int64, MinInt64, MaxInt64 in *. lia. }
      rewrite Hd in Hrun.
      destruct (wrap64 (i + 1) >? times).
      * injection Hrun as <- <-. simpl.
        exists [interval + j]. rewrite !sleeps_app. simpl.
        rewrite app_nil_r. split; [reflexivity |].
        constructor; [lia | constructor].
      * apply IH in Hrun as (ds & Heq & Hds). simpl in Heq.
        rewrite !sleeps_app in Heq. simpl in Heq. rewrite app_nil_r in Heq.
        exists ((interval + j) :: ds). split.
        -- rewrite Heq, <- app_assoc. reflexivity.
        -- constructor; [lia | exact Hds].
    + injection Hrun as <- <-. simpl. exists []. rewrite sleeps_app. simpl.
      rewrite !app_nil_r. split; [reflexivity | constructor].
  - injection Hrun as <- <-. simpl. exists []. rewrite sleeps_app. simpl.
    rewrite !app_nil_r. split; [reflexivity | constructor].
Qed.

(** C7, where the code departs from it: with an interval below 20ns the
    bound of the jitter [interval/20] is not positive, [rand.Intn] panics,
    and [retry] ends after the first failed invocation, whatever [times]
    is. *)
Theorem retry_short_interval_panics fuel times interval fn w e :
  interval < 20 ->
  fst (fn (user w)) = Some e ->
  retry rng (S fuel) times interval fn w
  = Some (Panics "invalid argument to Intn",
          World (snd (fn (user w))) (draws w) (trace w ++ [Call (Some e)])).
Proof.
  intros Hint Hfail. unfold retry. simpl.
  destruct (fn (user w)) as [err s']. simpl in Hfail. subst err.
  rewrite Intn_panics; [reflexivity |].
  destruct (Z.le_gt_cases 0 interval).
  - rewrite Z.quot_small; lia.
  - pose proof (Z.quot_le_mono interval 0 20 ltac:(lia) ltac:(lia)) as Hq.
    rewrite Z.quot_0_l in Hq by lia. exact Hq.
Qed.

(** The loop ends: below the largest counter, [fuel] iterations are enough
    once they exceed what [times] still allows, whatever [fn] does. *)
Lemma retry_loop_terminates fn times interval :
  times < MaxInt64 ->
  forall fuel i w,
    MinInt64 <= i < MaxInt64 ->
    (Z.to_nat (times - i) < fuel)%nat ->
    retry_loop rng fuel times interval fn i w <> None.
Proof.
  intros Htimes. induction fuel as [| fuel IH]; intros i w Hi Hfuel; [lia |].
  simpl. destruct (fn (user w)) as [[e |] s']; [| discriminate].
  destruct (Intn rng (Z.quot interval 20) (draws w)) as [j | m]; [| discriminate].
  rewrite (wrap64_id (i + 1)) by (unfold in_int64, MinInt64, MaxInt64 in *; lia).
  destruct (Z.gtb_spec (i + 1) times); [discriminate |].
  apply IH; lia.
Qed.

(** With an interval of at least 20ns, a function that always fails is
    invoked once more than the counter still allows, and the error of the
    last invocation is returned. *)
Lemma retry_loop_always_fails fn times interval :
  always_fails fn ->
  20 <= interval ->
  times < MaxInt64 ->
  forall (n : nat) fuel i w,
    MinInt64 <= i <= times ->
    n = Z.to_nat (times - i) ->
    (n < fuel)%nat ->
    exists w',
      retry_loop rng fuel times interval fn i w
      = Some (Returns (fst (fn (after fn n (user w)))), w')
      /\ user w' = after fn (S n) (user w)
      /\ calls (trace w') = (calls (trace w) + S n)%nat
      /\ length (sleeps (trace w')) = (length (sleeps (trace w)) + S n)%nat.
Proof.
  intros Hfail Hint Htimes.
  induction n as [| n IH]; intros fuel i w Hi Hn Hfuel;
    (destruct fuel as [| fuel]; [lia |]); simpl.
  - destruct (fn (user w)) as [err s'] eqn:Hfn.
    pose proof (Hfail (user w)) as Hne. rewrite Hfn in Hne. simpl in Hne.
    destruct err as [e |]; [| congruence].
    unfold Intn. destruct (Z.leb_spec (Z.quot interval 20) 0) as [Hq | Hq].
    { pose proof (Z.quot_le_mono 20 interval 20 ltac:(lia) ltac:(lia)) as H.
      rewrite Z.quot_same in H; lia. }
    rewrite (wrap64_id (i + 1)) by (unfold in_int64, MinInt64, MaxInt64 in *; lia).
    destruct (Z.gtb_spec (i + 1) times); [| lia].
    eexists. split; [reflexivity |]. simpl.
    rewrite !calls_app, !sleeps_app, !length_app, calls_Call, calls_Sleep. simpl.
    repeat split; (reflexivity || lia).
  - destruct (fn (user w)) as [err s'] eqn:Hfn.
    pose proof (Hfail (user w)) as Hne. rewrite Hfn in Hne. simpl in Hne.
    destruct err as [e |]; [| congruence].
    unfold Intn. destruct (Z.leb_spec (Z.quot interval 20) 0) as [Hq | Hq].
    { pose proof (Z.quot_le_mono 20 interval 20 ltac:(lia) ltac:(lia)) as H.
      rewrite Z.quot_same in H; lia. }
    rewrite (wrap64_id (i + 1)) by (unfold in_int64, MinInt64, MaxInt64 in *; lia).
    destruct (Z.gtb_spec (i + 1) times); [lia |].
    match goal with
    | |- context [retry_loop rng fuel times interval fn (i + 1) ?w2] =>
        destruct (IH fuel (i + 1) w2) as (w' & Hrun & Hu & Hc & Hs);
          [lia | lia | lia |]
    end.
    exists w'. simpl in *. rewrite Hrun.
    rewrite !calls_app, !sleeps_app, !length_app, calls_Call, calls_Sleep in *.
    simpl in *. repeat split; [congruence | lia | lia].
Qed.

(** The retry bound for intervals of at least 20ns: [times + 1]
    invocations, and the error of the last one. *)
Lemma retry_always_fails fn times interval w :
  always_fails fn ->
  20 <= interval ->
  0 <= times < MaxInt64 ->
  exists w',
    retry rng (S (Z.to_nat times)) times interval fn w
    = Some (Returns (fst (fn (after fn (Z.to_nat times) (user w)))), w')
    /\ user w' = after fn (S (Z.to_nat times)) (user w)
    /\ calls (trace w') = (calls (trace w) + S (Z.to_nat times))%nat.
Proof.
  intros Hfail Hint Htimes. unfold retry.
  destruct (retry_loop_always_fails fn times interval Hfail Hint ltac:(lia)
              (Z.to_nat times) (S (Z.to_nat times)) 0 w)
    as (w' & Hrun & Hu & Hc & _).
  - unfold MinInt64. lia.
  - f_equal. lia.
  - lia.
  - exists w'. auto.
Qed.
End retry_facts.

(** ** The read-through cache *)

Section cache_facts.
Context {V : Type}.
Implicit Types (c : cache.t V) (k : cache.key).

Lemma Get_None_of_entry c now collection k :
  cache.entries c !! (collection, k) = None ->
  cache.Get c now collection k = None.
Proof. unfold cache.Get. intros ->. destruct (cache.bypass c); reflexivity. Qed.

(** A read right after [Clear] is a miss. *)
Lemma Get_Clear c now collection k :
  cache.Get (snd (cache.Clear c collection k)) now collection k = None.
Proof. apply Get_None_of_entry. simpl. apply lookup_delete_eq. Qed.

Lemma entries_Clear_Clear c collection k1 k2 k :
  k = k1 \/ k = k2 ->
  cache.entries (snd (cache.Clear (snd (cache.Clear c collection k1)) collection k2))
    !! (collection, k) = None.
Proof.
  simpl. intros [-> | ->].
  - destruct (decide (k1 = k2)) as [-> | Hne].
    + apply lookup_delete_eq.
    + rewrite lookup_delete_ne by congruence. apply lookup_delete_eq.
  - apply lookup_delete_eq.
Qed.

(** A value stored is read back until it expires, unless the cache is
    bypassed. *)
Lemma Get_Set c now now' collection k v ttl :
  cache.bypass c = false ->
  now' <= now + ttl ->
  cache.Get (snd (cache.Set' c now collection k v ttl)) now' collection k = Some v.
Proof.
  intros Hb Hnow. unfold cache.Set', cache.Get. rewrite Hb. simpl.
  rewrite lookup_insert_eq. simpl.
  destruct (Z.ltb_spec (now + ttl) now'); [lia | reflexivity].
Qed.


(** With the bypass flag of the cache itself set, reads miss and writes do
    nothing. *)
Lemma Get_bypass c now collection k :
  cache.bypass c = true -> cache.Get c now collection k = None.
Proof. unfold cache.Get. intros ->. reflexivity. Qed.

Lemma Set_bypass c now collection k v ttl :
  cache.bypass c = true -> cache.Set' c now collection k v ttl = (None, c).
Proof. unfold cache.Set'. intros ->. reflexivity. Qed.
End cache_facts.

(** ** The description helpers and the flag [SkipCache] *)

Section skip_cache.
Import aws.
Context {R : Type} (A : api R).
Implicit Types (p : Provider) (w : world R).

Ltac run :=
  unfold describeStacks, describeContainerInstances, describeTasks,
    describeTaskDefinition, mbind, ret, panic, call_api, cache_Get,
    cache_Set, cache_Clear, deref in *.

(** A hit is returned as it is, without a request to the provider. *)
Lemma describeStacks_hit p name w stacks :
  cache.Get (wcache w) (Now A (remote w)) "describeStacks" (cache.key_of_ptr name)
    = Some (VStacks stacks) ->
  describeStacks A p name w = (Returns (Ok stacks), w).
Proof. intros H. run. rewrite H. reflexivity. Qed.

Lemma describeContainerInstances_hit p input w res :
  cache.Get (wcache w) (Now A (remote w)) "describeContainerInstances"
    (cache.KStruct [[CIICluster input]; CIIContainerInstances input])
    = Some (VContainerInstances res) ->
  describeContainerInstances A p input w = (Returns (Ok res), w).
Proof. intros H. run. rewrite H. reflexivity. Qed.

Lemma describeTasks_hit p input w res :
  cache.Get (wcache w) (Now A (remote w)) "describeTasks"
    (cache.KStruct [[DTICluster input]; DTITasks input])
    = Some (VTasks res) ->
  describeTasks A p input w = (Returns (Ok res), w).
Proof. intros H. run. rewrite H. reflexivity. Qed.

Lemma describeTaskDefinition_hit p arn w res :
  cache.Get (wcache w) (Now A (remote w)) "describeTaskDefinition"
    (cache.KStruct [[arn]])
    = Some (VTaskDefinition res) ->
  describeTaskDefinition A p arn w = (Returns (Ok res), w).
Proof. intros H. run. rewrite H. reflexivity. Qed.

Lemma describeStacks_skip p name w :
  SkipCache p = true ->
  wcache (snd (describeStacks A p name w)) = wcache w.
Proof.
  intros Hs. run. rewrite Hs.
  destruct (as_stacks _); [reflexivity |].
  destruct (DescribeStacksPages A name (remote w)) as [[pages [e |]] r];
    reflexivity.
Qed.

Lemma describeContainerInstances_skip p input w :
  SkipCache p = true ->
  wcache (snd (describeContainerInstances A p input w)) = wcache w.
Proof.
  intros Hs. run. rewrite Hs.
  destruct (as_container_instances _); [reflexivity |].
  destruct (DescribeContainerInstances A input (remote w)) as [[res | e] r];
    reflexivity.
Qed.

Lemma describeTasks_skip p input w :
  SkipCache p = true ->
  wcache (snd (describeTasks A p input w)) = wcache w.
Proof.
  intros Hs. run. rewrite Hs.
  destruct (as_tasks _); [reflexivity |].
  destruct (DescribeTasks A input (remote w)) as [[res | e] r]; reflexivity.
Qed.

Lemma describeTaskDefinition_skip p arn w :
  SkipCache p = true ->
  wcache (snd (describeTaskDefinition A p arn w)) = wcache w.
Proof.
  intros Hs. run. rewrite Hs.
  destruct (as_task_definition _); [reflexivity |].
  destruct (DescribeTaskDefinition A arn (remote w)) as [[res | [m | code m]] r];
    try reflexivity.
  destruct (String.eqb code "ValidationError"); [| reflexivity].
  destruct arn; reflexivity.
Qed.

(** C3, as the code has it: with [SkipCache] set the four description
    helpers store nothing in the cache; the reads of all four are not
    gated by the flag, so that a value cached earlier and not yet expired
    is still returned, without a request to the provider. *)
Theorem SkipCache_skips_only_the_writes p w :
  SkipCache p = true ->
  (forall name, wcache (snd (describeStacks A p name w)) = wcache w)
  /\ (forall input, wcache (snd (describeContainerInstances A p input w)) = wcache w)
  /\ (forall input, wcache (snd (describeTasks A p input w)) = wcache w)
  /\ (forall arn, wcache (snd (describeTaskDefinition A p arn w)) = wcache w)
  /\ (forall name stacks,
        cache.Get (wcache w) (Now A (remote w)) "describeStacks"
          (cache.key_of_ptr name) = Some (VStacks stacks) ->
        describeStacks A p name w = (Returns (Ok stacks), w))
  /\ (forall input res,
        cache.Get (wcache w) (Now A (remote w)) "describeContainerInstances"
          (cache.KStruct [[CIICluster input]; CIIContainerInstances input])
          = Some (VContainerInstances res) ->
        describeContainerInstances A p input w = (Returns (Ok res), w))
  /\ (forall input res,
        cache.Get (wcache w) (Now A (remote w)) "describeTasks"
          (cache.KStruct [[DTICluster input]; DTITasks input])
          = Some (VTasks res) ->
        describeTasks A p input w = (Returns (Ok res), w))
  /\ (forall arn res,
        cache.Get (wcache w) (Now A (remote w)) "describeTaskDefinition"
          (cache.KStruct [[arn]])
          = Some (VTaskDefinition res) ->
        describeTaskDefinition A p arn w = (Returns (Ok res), w)).
Proof.
  intros Hs. repeat split; intros.
  - apply describeStacks_skip, Hs.
  - apply describeContainerInstances_skip, Hs.
  - apply describeTasks_skip, Hs.
  - apply describeTaskDefinition_skip, Hs.
  - apply describeStacks_hit. assumption.
  - apply describeContainerInstances_hit. assumption.
  - apply describeTasks_hit. assumption.
  - apply describeTaskDefinition_hit. assumption.
Qed.
End skip_cache.

(** ** [updateStack] *)

Section update_stack.
Import aws.
Context {R : Type} (A : api R).
Implicit Types (p : Provider) (w : world R) (req : UpdateStackInput).

Ltac run :=
  unfold describeStack, describeStacks, mbind, ret, panic, call_api, cache_Get,
    cache_Set, cache_Clear, deref in *.

(** On a miss [describeStacks] asks the provider once, and stores what it
    got unless the request failed or [SkipCache] is set. *)
Lemma describeStacks_miss p name w :
  cache.Get (wcache w) (Now A (remote w)) "describeStacks" (cache.key_of_ptr name) = None ->
  describeStacks A p name w =
    let '((pages, err), r) := DescribeStacksPages A name (remote w) in
    let lg := log w ++ [CallDescribeStacks name] in
    match err with
    | Some e => (Returns (Err e), World (wcache w) r lg)
    | None =>
        (Returns (Ok (concat pages)),
         World (if SkipCache p then wcache w
                else snd (cache.Set' (wcache w) (Now A r) "describeStacks"
                            (cache.key_of_ptr name) (VStacks (concat pages)) (5 * Second)))
               r lg)
    end.
Proof.
  intros Hmiss. run. rewrite Hmiss. simpl.
  destruct (DescribeStacksPages A name (remote w)) as [[pages [e |]] r]; simpl;
    [reflexivity |].
  destruct (SkipCache p); simpl; [reflexivity |].
  unfold cache.Set'. destruct (cache.bypass (wcache w)); reflexivity.
Qed.

(** What [describeStack] leaves behind on a miss: one request, and either
    the cache as it was or the fresh description in it. *)
Lemma describeStack_miss p name w r w1 :
  cache.Get (wcache w) (Now A (remote w)) "describeStacks" (cache.KString name) = None ->
  describeStack A p name w = (r, w1) ->
  let out := DescribeStacksPages A (Some name) (remote w) in
  log w1 = log w ++ [CallDescribeStacks (Some name)]
  /\ remote w1 = snd out
  /\ (exists res, r = Returns res)
  /\ (forall stack, r = Returns (Ok stack) ->
        snd (fst out) = None /\ concat (fst (fst out)) = [stack])
  /\ (wcache w1 = wcache w
      \/ snd (fst out) = None /\ SkipCache p = false
         /\ wcache w1 = snd (cache.Set' (wcache w) (Now A (snd out)) "describeStacks"
                               (cache.KString name)
                               (VStacks (concat (fst (fst out)))) (5 * Second))).
Proof.
  intros Hmiss Hrun. unfold describeStack, mbind in Hrun.
  rewrite (describeStacks_miss p (Some name) w Hmiss) in Hrun.
  destruct (DescribeStacksPages A (Some name) (remote w)) as [[pages err] r'].
  simpl. destruct err as [e |].
  - assert (Hw : w1 = World (wcache w) r' (log w ++ [CallDescribeStacks (Some name)])
                 /\ exists res, r = Returns res /\ forall stack, res <> Ok stack).
    { destruct e as [m | code m]; simpl in Hrun.
      - injection Hrun as <- <-. split; [reflexivity |]. eexists. split; [reflexivity |]. discriminate.
      - unfold ret in Hrun. destruct (String.eqb code "ValidationError");
          injection Hrun as <- <-; (split; [reflexivity |]); eexists;
          (split; [reflexivity |]); discriminate. }
    destruct Hw as (-> & res & -> & Hres). simpl.
    split; [reflexivity |]. split; [reflexivity |]. split; [eauto |].
    split; [| left; reflexivity].
    intros stack [= ->]. destruct (Hres stack eq_refl).
  - simpl in Hrun. unfold ret in Hrun.
    assert (Hw : w1 = World (if SkipCache p then wcache w
                             else snd (cache.Set' (wcache w) (Now A r') "describeStacks"
                                         (cache.KString name) (VStacks (concat pages))
                                         (5 * Second)))
                            r' (log w ++ [CallDescribeStacks (Some name)])
                 /\ exists res, r = Returns res
                    /\ forall stack, res = Ok stack -> concat pages = [stack]).
    { destruct (concat pages) as [| s [| s2 rest]]; injection Hrun as <- <-;
        (split; [reflexivity |]); eexists; (split; [reflexivity |]);
        intros stack; try discriminate.
      intros [= ->]. reflexivity. }
    destruct Hw as (-> & res & -> & Hres). simpl.
    split; [reflexivity |]. split; [reflexivity |]. split; [eauto |].
    split.
    + intros stack [= ->]. auto.
    + destruct (SkipCache p); [left; reflexivity | right; auto].
Qed.

Lemma cleared_entries name c k :
  k = cache.KNil \/ k = cache.KString name ->
  cache.entries (cleared name c) !! ("describeStacks", k) = None.
Proof. apply entries_Clear_Clear. Qed.

Lemma cleared_Get name c now k :
  k = cache.KNil \/ k = cache.KString name ->
  cache.Get (cleared name c) now "describeStacks" k = None.
Proof. intros H. apply Get_None_of_entry, cleared_entries, H. Qed.

(** The description [updateStack] asks for, right after the clearing, is
    always a miss. *)
Lemma describeStack_cleared p name w r w1 :
  describeStack A p name (World (cleared name (wcache w)) (remote w) (log w)) = (r, w1) ->
  let out := DescribeStacksPages A (Some name) (remote w) in
  log w1 = log w ++ [CallDescribeStacks (Some name)]
  /\ remote w1 = snd out
  /\ (exists res, r = Returns res)
  /\ (forall stack, r = Returns (Ok stack) ->
        snd (fst out) = None /\ concat (fst (fst out)) = [stack])
  /\ (wcache w1 = cleared name (wcache w)
      \/ snd (fst out) = None /\ SkipCache p = false
         /\ wcache w1 = snd (cache.Set' (cleared name (wcache w)) (Now A (snd out))
                               "describeStacks" (cache.KString name)
                               (VStacks (concat (fst (fst out)))) (5 * Second))).
Proof.
  intros Hd.
  apply (describeStack_miss p name
           (World (cleared name (wcache w)) (remote w) (log w)) r w1); [| exact Hd].
  simpl. apply cleared_Get. right. reflexivity.
Qed.

(** The branch on the template touches neither the cache nor the
    parameters and tags of the request, sends no update, and fixes the
    target parameter set. *)
Lemma templateParameters_spec p template req pexisting w r w2 :
  templateParameters A p template req pexisting w = (r, w2) ->
  wcache w2 = wcache w
  /\ (exists l, log w2 = log w ++ l /\ forall rq, ~ In (CallUpdateStack rq) l)
  /\ (exists res, r = Returns res)
  /\ (forall req' params, r = Returns (Ok (req', params)) ->
        ReqParameters req' = ReqParameters req
        /\ ReqTags req' = ReqTags req
        /\ match template with
           | Some data => formationParameters A data = Ok params
           | None => params = pexisting
           end).
Proof.
  unfold templateParameters. destruct template as [data |]; run.
  - destruct (ObjectStore A "" _ data (remote w)) as [[ou | e] r'] eqn:Hstore; simpl.
    + destruct (objectURL A p (Url ou)) as [tu | e]; simpl.
      * destruct (formationParameters A data) as [fp | e] eqn:Hfp; simpl;
          intros [= <- <-]; simpl;
          (split; [reflexivity |]);
          (split; [eexists; split; [reflexivity |];
                   intros rq [[=] | []] |]);
          (split; [eauto |]); intros req' params [= <- <-]; auto.
      * intros [= <- <-]; simpl.
        split; [reflexivity |].
        split; [eexists; split; [reflexivity |]; intros rq [[=] | []] |].
        split; [eauto |]. discriminate.
    + intros [= <- <-]; simpl.
      split; [reflexivity |].
      split; [eexists; split; [reflexivity |]; intros rq [[=] | []] |].
      split; [eauto |]. discriminate.
  - intros [= <- <-]. split; [reflexivity |].
    split; [exists []; rewrite app_nil_r; split; [reflexivity | intros rq []] |].
    split; [eauto |]. intros req' params [= <- <-]. auto.
Qed.

(** [updateStack] with its sequencing written out. *)
Lemma updateStack_unfold p name template changes tags id w :
  updateStack A p name template changes tags id w =
    match describeStack A p name (World (cleared name (wcache w)) (remote w) (log w)) with
    | (Returns (Ok stack), w1) =>
        match existingParameters (StackParameters stack) ∅ with
        | Returns pexisting =>
            match templateParameters A p template (newRequest p name id) pexisting w1 with
            | (Returns (Ok (req1, params)), w2) =>
                let req := fillRequest changes tags stack pexisting params req1 in
                let '(err, r3) := UpdateStack A req (remote w2) in
                (Returns err,
                 World (cleared name (wcache w2)) r3 (log w2 ++ [CallUpdateStack req]))
            | (Returns (Err e), w2) => (Returns (Some e), w2)
            | (Panics msg, w2) => (Panics msg, w2)
            end
        | Panics msg => (Panics msg, w1)
        end
    | (Returns (Err e), w1) => (Returns (Some e), w1)
    | (Panics msg, w1) => (Panics msg, w1)
    end.
Proof.
  unfold updateStack, mbind, cache_Clear, call_api, ret, cleared. simpl.
  destruct (describeStack A p name _) as [[[stack | e] | msg] w1]; try reflexivity.
  destruct (existingParameters (StackParameters stack) ∅) as [pexisting | msg];
    try reflexivity.
  destruct (templateParameters A p template (newRequest p name id) pexisting w1)
    as [[[[req1 params] | e] | msg] w2]; try reflexivity.
  destruct (UpdateStack A _ (remote w2)) as [err r3]. reflexivity.
Qed.

(** The two ways [updateStack] ends: the update is sent to the provider
    and the entries of the stack are cleared again, or it returns before,
    with the world as the description and the externalisation left it. *)
Lemma updateStack_run p name template changes tags id w out w' :
  updateStack A p name template changes tags id w = (out, w') ->
  exists r w1,
    describeStack A p name (World (cleared name (wcache w)) (remote w) (log w)) = (r, w1)
    /\ ((exists stack pexisting req1 params w2,
           r = Returns (Ok stack)
           /\ existingParameters (StackParameters stack) ∅ = Returns pexisting
           /\ templateParameters A p template (newRequest p name id) pexisting w1
              = (Returns (Ok (req1, params)), w2)
           /\ out = Returns (fst (UpdateStack A
                        (fillRequest changes tags stack pexisting params req1)
                        (remote w2)))
           /\ w' = World (cleared name (wcache w2))
                     (snd (UpdateStack A
                        (fillRequest changes tags stack pexisting params req1)
                        (remote w2)))
                     (log w2 ++ [CallUpdateStack
                        (fillRequest changes tags stack pexisting params req1)]))
        \/ (wcache w' = wcache w1
            /\ out <> Returns None
            /\ exists l, log w' = log w1 ++ l
                         /\ forall rq, ~ In (CallUpdateStack rq) l)).
Proof.
  rewrite updateStack_unfold.
  destruct (describeStack A p name _) as [r w1] eqn:Hd.
  intros Hrun. exists r, w1. split; [reflexivity |].
  destruct r as [[stack | e] | msg].
  - destruct (existingParameters (StackParameters stack) ∅) as [pexisting | msg] eqn:Hex.
    + destruct (templateParameters A p template (newRequest p name id) pexisting w1)
        as [r2 w2] eqn:Ht.
      pose proof (templateParameters_spec _ _ _ _ _ _ _ Ht) as (Hc & (l & Hl & Hno) & _ & _).
      destruct r2 as [[[req1 params] | e] | msg].
      * left. exists stack, pexisting, req1, params, w2.
        cbv zeta in Hrun.
        destruct (UpdateStack A _ (remote w2)) as [err r3] eqn:Hu.
        injection Hrun as <- <-.
        repeat split; (reflexivity || assumption).
      * right. injection Hrun as <- <-.
        split; [assumption |]. split; [discriminate | eauto].
      * right. injection Hrun as <- <-.
        split; [assumption |]. split; [discriminate | eauto].
    + right. injection Hrun as <- <-.
      split; [reflexivity |]. split; [discriminate |].
      exists []. rewrite app_nil_r. split; [reflexivity | intros rq []].
  - right. injection Hrun as <- <-.
    split; [reflexivity |]. split; [discriminate |].
    exists []. rewrite app_nil_r. split; [reflexivity | intros rq []].
  - right. injection Hrun as <- <-.
    split; [reflexivity |]. split; [discriminate |].
    exists []. rewrite app_nil_r. split; [reflexivity | intros rq []].
Qed.
(** When an update reaches the provider, it is the one request
    [updateStack] filled in from the live stack, and the entries of the
    stack are cleared once more afterwards. *)
Lemma updateStack_submitted p name template changes tags id w out w' calls req :
  updateStack A p name template changes tags id w = (out, w') ->
  log w' = log w ++ calls ->
  In (CallUpdateStack req) calls ->
  exists stack pexisting req1 params w1 w2,
    describeStack A p name (World (cleared name (wcache w)) (remote w) (log w))
      = (Returns (Ok stack), w1)
    /\ existingParameters (StackParameters stack) ∅ = Returns pexisting
    /\ templateParameters A p template (newRequest p name id) pexisting w1
       = (Returns (Ok (req1, params)), w2)
    /\ req = fillRequest changes tags stack pexisting params req1
    /\ out = Returns (fst (UpdateStack A req (remote w2)))
    /\ wcache w' = cleared name (wcache w2).
Proof.
  intros Hrun Hlog Hin.
  destruct (updateStack_run _ _ _ _ _ _ _ _ _ Hrun) as (r & w1 & Hd & Hcase).
  pose proof (describeStack_cleared _ _ _ _ _ Hd) as (Hlog1 & _).
  destruct Hcase as [(stack & pexisting & req1 & params & w2 & -> & Hex & Ht & -> & ->)
                    | (_ & _ & l & Hl & Hno)].
  - pose proof (templateParameters_spec _ _ _ _ _ _ _ Ht) as (_ & (l & Hl & Hno) & _).
    simpl in Hlog. rewrite Hl, Hlog1, <- !app_assoc in Hlog.
    apply app_inv_head in Hlog. subst calls.
    simpl in Hin. destruct Hin as [[=] | Hin].
    apply in_app_or in Hin as [Hin | [[= <-] | []]]; [destruct (Hno _ Hin) |].
    exists stack, pexisting, req1, params, w1, w2.
    repeat split; (reflexivity || assumption).
  - rewrite Hl, Hlog1, <- !app_assoc in Hlog.
    apply app_inv_head in Hlog. subst calls.
    simpl in Hin. destruct Hin as [[=] | Hin]. destruct (Hno _ Hin).
Qed.

(** *** The parameters of the request *)

Lemma foldl_submitParameter changes pexisting l acc :
  foldl (submitParameter changes pexisting) acc l
  = acc ++ omap (submission changes pexisting) l.
Proof.
  revert acc. induction l as [| k l IH]; intros acc; simpl.
  - rewrite app_nil_r. reflexivity.
  - rewrite IH. unfold submitParameter, submission.
    destruct (changes !! k); [rewrite <- app_assoc; reflexivity |].
    destruct (decide (k ∈ pexisting)); [rewrite <- app_assoc |]; reflexivity.
Qed.

Lemma foldl_appendTag tags l acc :
  foldl (appendTag tags) acc l = acc ++ (suppliedTag tags <$> l).
Proof.
  revert acc. induction l as [| k l IH]; intros acc; simpl.
  - rewrite app_nil_r. reflexivity.
  - rewrite IH. unfold appendTag. rewrite <- app_assoc. reflexivity.
Qed.

Lemma sort_Strings_perm l : sort_Strings l ≡ₚ l.
Proof. apply merge_sort_Permutation. Qed.

Lemma sort_Strings_sorted l : Sorted String.le (sort_Strings l).
Proof. apply (Sorted_merge_sort String.le). Qed.

Lemma elem_of_sorted_elements (P : gset string) k :
  k ∈ sort_Strings (elements P) <-> k ∈ P.
Proof. rewrite sort_Strings_perm. apply elem_of_elements. Qed.

Lemma NoDup_sorted_elements (P : gset string) : NoDup (sort_Strings (elements P)).
Proof. rewrite sort_Strings_perm. apply NoDup_elements. Qed.

Lemma submission_key changes pexisting k q :
  submission changes pexisting k = Some q -> ParameterKey q = Some k.
Proof.
  unfold submission. destruct (changes !! k); [intros [= <-]; reflexivity |].
  destruct (decide (k ∈ pexisting)); [intros [= <-]; reflexivity | discriminate].
Qed.

Lemma fillRequest_parameters changes tags stack pexisting params req1 :
  ReqParameters req1 = [] ->
  ReqParameters (fillRequest changes tags stack pexisting params req1)
  = omap (submission changes pexisting) (sort_Strings (elements params)).
Proof.
  intros H. unfold fillRequest. simpl. rewrite foldl_submitParameter, H. reflexivity.
Qed.

Lemma fillRequest_tags changes tags stack pexisting params req1 :
  ReqTags (fillRequest changes tags stack pexisting params req1)
  = StackTags stack ++ (suppliedTag tags <$> sort_Strings (elements (dom tags))).
Proof. unfold fillRequest. simpl. apply foldl_appendTag. Qed.

Lemma existingParameters_spec ps acc pexisting :
  existingParameters ps acc = Returns pexisting ->
  forall k, k ∈ pexisting <->
            k ∈ acc \/ exists q, q ∈ ps /\ ParameterKey q = Some k.
Proof.
  revert acc. induction ps as [| q ps IH]; intros acc; simpl.
  - intros [= <-] k. split; [auto |]. intros [H | (q & Hq & _)]; [exact H |].
    inversion Hq.
  - destruct (ParameterKey q) as [k0 |] eqn:Hk; [| discriminate].
    intros Hrun k. rewrite (IH _ Hrun k). rewrite elem_of_union, elem_of_singleton.
    split.
    + intros [[-> | H] | (q' & Hq' & Hk')]; eauto.
      * right. exists q. split; [left | exact Hk].
      * right. exists q'. split; [right; exact Hq' | exact Hk'].
    + intros [H | (q' & Hq' & Hk')]; [auto |].
      apply elem_of_cons in Hq' as [-> | Hq'].
      * left. left. congruence.
      * right. eauto.
Qed.

Lemma newRequest_parameters p name id : ReqParameters (newRequest p name id) = [].
Proof. unfold newRequest. destruct (negb _); reflexivity. Qed.


(** *** The tags of the request *)

Lemma tag_count_app k l1 l2 :
  tag_count k (l1 ++ l2) = (tag_count k l1 + tag_count k l2)%nat.
Proof.
  unfold tag_count. induction l1 as [| t l1 IH]; simpl; [reflexivity |].
  destruct (bool_decide (Key t = Some k)); simpl; rewrite IH; reflexivity.
Qed.

Lemma tag_count_supplied_absent tags k l :
  k ∉ l -> tag_count k (suppliedTag tags <$> l) = 0%nat.
Proof.
  unfold tag_count. induction l as [| k' l IH]; simpl; [reflexivity |].
  intros Hk. apply not_elem_of_cons in Hk as [Hne Hk].
  rewrite bool_decide_eq_false_2 by congruence. auto.
Qed.

Lemma tag_count_supplied tags k l :
  NoDup l -> k ∈ l -> tag_count k (suppliedTag tags <$> l) = 1%nat.
Proof.
  induction 1 as [| k' l Hk' Hl IH]; intros Hin; [inversion Hin |].
  apply elem_of_cons in Hin as [-> | Hin].
  - change (suppliedTag tags <$> k' :: l)
      with ([suppliedTag tags k'] ++ (suppliedTag tags <$> l)).
    rewrite tag_count_app, (tag_count_supplied_absent tags k' l Hk').
    unfold tag_count. simpl. rewrite bool_decide_eq_true_2; reflexivity.
  - change (suppliedTag tags <$> k' :: l)
      with ([suppliedTag tags k'] ++ (suppliedTag tags <$> l)).
    rewrite tag_count_app, (IH Hin).
    unfold tag_count. simpl. rewrite bool_decide_eq_false_2; [reflexivity |].
    intros [= ->]. contradiction.
Qed.

(** C5, as the code has it: the tags of the request are the tags of the
    live stack, all of them and unchanged, followed by one tag for each
    supplied key, in sorted order of the keys and with the supplied value.
    Nothing is overwritten: a supplied key is listed once more than on the
    live stack. *)
Theorem updateStack_appends_tags
    p name template changes tags id w out w' calls req :
  updateStack A p name template changes tags id w = (out, w') ->
  log w' = log w ++ calls ->
  In (CallUpdateStack req) calls ->
  exists stack : Stack,
    concat (fst (fst (DescribeStacksPages A (Some name) (remote w)))) = [stack]
    /\ ReqTags req
       = StackTags stack ++ (suppliedTag tags <$> sort_Strings (elements (dom tags)))
    /\ Sorted String.le (sort_Strings (elements (dom tags)))
    /\ (forall k v, tags !! k = Some v ->
          {| Key := Some k; Value := Some v |} ∈ ReqTags req
          /\ tag_count k (ReqTags req) = S (tag_count k (StackTags stack)))
    /\ (forall k, tags !! k = None ->
          tag_count k (ReqTags req) = tag_count k (StackTags stack)).
Proof.
  intros Hrun Hlog Hin.
  destruct (updateStack_submitted _ _ _ _ _ _ _ _ _ _ _ Hrun Hlog Hin)
    as (stack & pexisting & req1 & params & w1 & w2 & Hd & Hex & Ht & -> & _ & _).
  pose proof (describeStack_cleared _ _ _ _ _ Hd) as (_ & _ & _ & Hlive & _).
  destruct (Hlive stack eq_refl) as [_ Hpages].
  exists stack. split; [exact Hpages |].
  rewrite fillRequest_tags. split; [reflexivity |].
  split; [apply sort_Strings_sorted |].
  split.
  - intros k v Hk.
    assert (Hin' : k ∈ sort_Strings (elements (dom tags))).
    { apply elem_of_sorted_elements, elem_of_dom. eauto. }
    split.
    + apply elem_of_app. right. apply list_elem_of_fmap. exists k.
      split; [| exact Hin']. unfold suppliedTag. rewrite Hk. reflexivity.
    + rewrite tag_count_app, (tag_count_supplied tags k _ (NoDup_sorted_elements _) Hin').
      lia.
  - intros k Hk.
    rewrite tag_count_app, tag_count_supplied_absent; [lia |].
    rewrite elem_of_sorted_elements, elem_of_dom, Hk. intros [? [=]].
Qed.

(** *** The cached description around the update *)

End update_stack.

(** ** The scenario, run *)

Section scenario.
Import aws Scenario.

(** The carry-forward example of the specification: the live stack has
    [A = 1] and [B = 2], the change is [A = 9], the document declares [A],
    [B] and [C]. *)
Example updateStack_scenario :
  updateStack (provider_api true None) (provider false) "rack-app" (Some "{}")
    changes tags "token" cold
  = (Returns None, updated).
Proof. vm_compute. reflexivity. Qed.


Lemma updateStack_appends_tags_witness :
  {| Key := Some "Release"; Value := Some "R2" |} ∈ ReqTags request
  /\ tag_count "Release" (ReqTags request) = 2%nat.
Proof.
  destruct (updateStack_appends_tags
              (provider_api true None) (provider false) "rack-app" (Some "{}")
              changes tags "token" cold (Returns None) updated requests request)
    as (stack & Hlive & _ & _ & Hsupplied & _).
  - vm_compute. reflexivity.
  - reflexivity.
  - simpl. auto.
  - simpl in Hlive. injection Hlive as <-.
    destruct (Hsupplied "Release" "R2") as [Hin Hcount]; [vm_compute; reflexivity |].
    split; [exact Hin |]. rewrite Hcount. reflexivity.
Defined.

(** C5 as stated fails: the tag [Release] is on the live stack and is
    supplied with a new value; the request lists it twice, with the old
    value first. *)
Lemma updateStack_lists_supplied_tag_twice :
  tags !! "Release" = Some "R2"
  /\ StackTags live_stack
     = [ {| Key := Some "Name"; Value := Some "app" |};
         {| Key := Some "Release"; Value := Some "R1" |} ]
  /\ log (snd (updateStack (provider_api true None) (provider false) "rack-app"
                 (Some "{}") changes tags "token" cold))
     = [ CallDescribeStacks (Some "rack-app");
         CallObjectStore "" "" "{}";
         CallUpdateStack request ]
  /\ ReqTags request
     = [ {| Key := Some "Name"; Value := Some "app" |};
         {| Key := Some "Release"; Value := Some "R1" |};
         {| Key := Some "Release"; Value := Some "R2" |};
         {| Key := Some "System"; Value := Some "convox" |} ]
  /\ tag_count "Release" (ReqTags request) <> 1%nat.
Proof.
  split; [vm_compute; reflexivity |]. split; [reflexivity |].
  split; [vm_compute; reflexivity |]. split; [reflexivity |].
  vm_compute. discriminate.
Qed.



Lemma SkipCache_skips_only_the_writes_witness :
  describeStacks (provider_api true None) (provider true) (Some "rack-app") warm
  = (Returns (Ok [stale_stack]), warm).
Proof.
  refine (proj1 (proj2 (proj2 (proj2 (proj2
            (SkipCache_skips_only_the_writes (provider_api true None)
               (provider true) warm eq_refl)))))
            (Some "rack-app") [stale_stack] _).
  vm_compute. reflexivity.
Defined.

(** C3 as stated fails: with [SkipCache] set, a description cached earlier
    is returned without a request to the provider (which would describe
    the stack differently), and the release lookup of a task stores its
    result. *)
Lemma SkipCache_neither_forces_a_miss_nor_stops_taskRelease :
  SkipCache (provider true) = true
  /\ describeStacks (provider_api true None) (provider true) (Some "rack-app") warm
     = (Returns (Ok [stale_stack]), warm)
  /\ log warm = []
  /\ fst (DescribeStacksPages (provider_api true None) (Some "rack-app") (remote warm))
     = ([[live_stack]], None)
  /\ fst (taskRelease (provider_api true None) (provider true) "task-1" cold)
     = Returns (Ok "R1")
  /\ cache.entries
       (wcache (snd (taskRelease (provider_api true None) (provider true) "task-1" cold)))
       !! ("taskRelease", cache.KString "task-1")
     = Some (cache.Item (VString "R1") (24 * Hour)).
Proof. repeat split; vm_compute; reflexivity. Qed.

(** The retry bound of the specification: three retries at 10ms. *)
Example retry_three_times :
  exists w',
    Retry.retry raw 4 3 (10 * Millisecond) attempt start
    = Some (Returns (Some (Errorf "IIII")), w')
    /\ Retry.calls (Retry.trace w') = 4%nat
    /\ Retry.sleeps (Retry.trace w') = [10499999; 10000000; 10000001; 10000002].
Proof. eexists. repeat split; vm_compute; reflexivity. Qed.

Lemma retry_sleeps_within_a_twentieth_witness :
  match Retry.retry raw 4 3 (10 * Millisecond) attempt start with
  | Some (_, w') =>
      exists ds, Retry.sleeps (Retry.trace w') = ds
                 /\ Forall (fun d => 10000000 <= d < 10500000) ds
  | None => False
  end.
Proof.
  destruct (Retry.retry raw 4 3 (10 * Millisecond) attempt start)
    as [[out w'] |] eqn:Hrun; [| vm_compute in Hrun; discriminate].
  destruct (retry_sleeps_within_a_twentieth raw 4 3 (10 * Millisecond) attempt 0
              start out w') as (ds & Heq & Hds).
  - vm_compute. discriminate.
  - vm_compute. discriminate.
  - exact Hrun.
  - exists ds. split; [exact Heq | exact Hds].
Defined.

Lemma retry_short_interval_panics_witness :
  Retry.retry raw 4 3 0 attempt start
  = Some (Panics "invalid argument to Intn",
          Retry.World 1%nat 0%nat [Retry.Call (Some (Errorf "I"))]).
Proof.
  exact (retry_short_interval_panics raw 3 3 0 attempt start (Errorf "I")
           ltac:(lia) eq_refl).
Defined.
End scenario.

(** ** Names of cron jobs *)

Section long_name.
Import Cron.
Context {Service App : Type}.
Variable ServiceName : Service -> string.
Variable AppName : App -> string.

Lemma length_append s1 s2 :
  String.length (s1 +:+ s2) = (String.length s1 + String.length s2)%nat.
Proof.
  induction s1 as [| a s1 IH]; [reflexivity |].
  change (String a s1 +:+ s2) with (String a (s1 +:+ s2)).
  simpl. rewrite IH. reflexivity.
Qed.

Lemma length_substring_0 n s :
  (n <= String.length s)%nat -> String.length (substring 0 n s) = n.
Proof.
  revert s. induction n as [| n IH]; intros s Hn.
  - destruct s; reflexivity.
  - destruct s as [| a s]; simpl in *; [lia |]. rewrite IH; lia.
Qed.

Lemma substring_0_all s : substring 0 (String.length s) s = s.
Proof. induction s as [| a s IH]; simpl; [| rewrite IH]; reflexivity. Qed.

Lemma length_string_of_list_ascii l :
  String.length (string_of_list_ascii l) = length l.
Proof. induction l as [| a l IH]; simpl; [| rewrite IH]; reflexivity. Qed.

(** A digest has 32 bytes. *)
Lemma length_Sum256 data : length (sha256.Sum256 data) = 32%nat.
Proof. unfold sha256.Sum256. rewrite !length_app. reflexivity. Qed.

(** The encoding takes 8 characters for every 5 bytes begun. *)
Lemma length_encode_aux n :
  forall src, (length src <= n)%nat ->
    length (base32.encode src) = (8 * ((length src + 4) / 5))%nat.
Proof.
  induction n as [| n IH]; intros src Hn.
  - destruct src; [reflexivity | simpl in Hn; lia].
  - destruct src as [| b0 [| b1 [| b2 [| b3 [| b4 rest]]]]]; try reflexivity.
    change (base32.encode (b0 :: b1 :: b2 :: b3 :: b4 :: rest))
      with (base32.group 8 b0 b1 b2 b3 b4 ++ base32.encode rest).
    rewrite length_app, IH by (simpl in Hn; lia).
    change (length (base32.group 8 b0 b1 b2 b3 b4)) with 8%nat.
    change (length (b0 :: b1 :: b2 :: b3 :: b4 :: rest)) with (5 + length rest)%nat.
    replace (5 + length rest + 4)%nat with (length rest + 4 + 1 * 5)%nat by lia.
    rewrite Nat.div_add by lia. lia.
Qed.

Lemma length_EncodeToString_Sum256 data :
  String.length (base32.EncodeToString (sha256.Sum256 data)) = 56%nat.
Proof.
  unfold base32.EncodeToString.
  rewrite length_string_of_list_ascii, (length_encode_aux 32) by (rewrite length_Sum256; lia).
  rewrite length_Sum256. reflexivity.
Qed.

(** [LongName] written as a function of the natural name. *)
Lemma LongName_eq rack (cr : CronJob) a s :
  App_ cr = Some a ->
  Service_ cr = Some s ->
  let natural := natural_name ServiceName AppName rack a s (Name cr) in
  let hash := substring 0 7
                (base32.EncodeToString (sha256.Sum256 (sha256.bytes_of_string natural))) in
  let prefix := if (47 <? String.length natural)%nat
                then substring 0 47 natural else natural in
  LongName ServiceName AppName rack cr = Returns (prefix +:+ "-" +:+ hash)
  /\ String.length hash = 7%nat.
Proof.
  intros Ha Hs natural hash prefix.
  assert (Hhash : String.length hash = 7%nat).
  { unfold hash. apply length_substring_0. rewrite length_EncodeToString_Sum256. lia. }
  split; [| exact Hhash].
  unfold LongName. rewrite Ha, Hs. fold natural.
  unfold str_to at 1. unfold len. rewrite length_EncodeToString_Sum256.
  change ((0 <=? 7) && (7 <=? Z.of_nat 56)) with true.
  cbn [Go.bind andb]. change (Z.to_nat 7) with 7%nat. fold hash.
  rewrite length_append, Hhash.
  change (Z.of_nat (String.length "-" + 7)) with 8.
  change (55 - 8) with 47.
  unfold prefix.
  destruct (Nat.ltb_spec 47 (String.length natural)) as [Hlong | Hshort].
  - destruct (Z.gtb_spec (Z.of_nat (String.length natural)) 47); [| lia].
    unfold str_to, len.
    destruct (Z.leb_spec 47 (Z.of_nat (String.length natural))); [| lia].
    reflexivity.
  - destruct (Z.gtb_spec (Z.of_nat (String.length natural)) 47); [lia |].
    reflexivity.
Qed.

(** C9: for a job with its application and its service, [LongName] is
    the natural name, cut to its first 47 bytes when it is longer, then
    ["-"], then the first 7 characters of the base32 form of the SHA-256
    digest of the whole natural name: at most 55 characters, so within the
    64 the target allows; jobs with the same natural name get the same
    identifier. *)
Theorem LongName_bounded rack (cr : CronJob) a s :
  App_ cr = Some a ->
  Service_ cr = Some s ->
  let natural := natural_name ServiceName AppName rack a s (Name cr) in
  let hash := substring 0 7
                (base32.EncodeToString (sha256.Sum256 (sha256.bytes_of_string natural))) in
  let prefix := if (47 <? String.length natural)%nat
                then substring 0 47 natural else natural in
  LongName ServiceName AppName rack cr = Returns (prefix +:+ "-" +:+ hash)
  /\ String.length hash = 7%nat
  /\ (String.length prefix <= 47)%nat
  /\ (String.length (prefix +:+ "-" +:+ hash) <= 55)%nat
  /\ (String.length (prefix +:+ "-" +:+ hash) <= 64)%nat
  /\ (forall rack' (cr' : CronJob) a' s',
        App_ cr' = Some a' ->
        Service_ cr' = Some s' ->
        natural_name ServiceName AppName rack' a' s' (Name cr') = natural ->
        LongName ServiceName AppName rack' cr' = LongName ServiceName AppName rack cr).
Proof.
  intros Ha Hs natural hash prefix.
  destruct (LongName_eq rack cr a s Ha Hs) as [Heq Hhash].
  fold natural hash prefix in Heq, Hhash.
  assert (Hprefix : (String.length prefix <= 47)%nat).
  { unfold prefix. destruct (Nat.ltb_spec 47 (String.length natural)); [| lia].
    rewrite length_substring_0; lia. }
  assert (Hlen : String.length (prefix +:+ "-" +:+ hash)
                 = (String.length prefix + 8)%nat).
  { rewrite !length_append, Hhash. reflexivity. }
  split; [exact Heq |]. split; [exact Hhash |]. split; [exact Hprefix |].
  split; [lia |]. split; [lia |].
  intros rack' cr' a' s' Ha' Hs' Hnat.
  destruct (LongName_eq rack' cr' a' s' Ha' Hs') as [Heq' _].
  rewrite Heq', Heq, Hnat. reflexivity.
Qed.
End long_name.

(** ** Cron labels: validation and derivation *)

Section cron_labels.
Import Cron.
Context {Service App : Type}.
Variable LabelsByPrefix : Service -> string -> gmap string string.

Lemma Split_nonempty s sep : strings.Split s sep <> [].
Proof.
  unfold strings.Split. generalize "" as cur.
  induction s as [| a s IH]; intros cur; simpl; [discriminate |].
  destruct (Ascii.eqb a sep); [discriminate | apply IH].
Qed.

(** A schedule of fewer than five fields makes the derivation panic, and
    nothing else does. *)
Lemma NewCronJobFromLabel_outcome key value :
  ((length (strings.Fields value) < 5)%nat
   /\ NewCronJobFromLabel (Service := Service) (App := App) key value
      = Panics slice_bounds)
  \/ ((5 <= length (strings.Fields value))%nat
      /\ exists cronjob,
           NewCronJobFromLabel (Service := Service) (App := App) key value
           = Returns cronjob).
Proof.
  unfold NewCronJobFromLabel.
  destruct (last (strings.Split key "."%char)) as [name |] eqn:Hlast.
  2: { apply last_None in Hlast. destruct (Split_nonempty _ _ Hlast). }
  unfold strings.slice.
  destruct (Nat.leb_spec 5 (length (strings.Fields value))) as [Hge | Hlt].
  - right. split; [exact Hge |].
    rewrite Nat.leb_refl. simpl.
    destruct (Nat.leb_spec 5 (length (strings.Fields value))); [| lia].
    simpl. eauto.
  - left. split; [exact Hlt | reflexivity].
Qed.

Lemma cronjobs_of_labels_outcome (a : option App) (entry : Service) labels :
  forall cronjobs,
    (exists result, cronjobs_of_labels a entry labels cronjobs = Returns result)
    \/ cronjobs_of_labels a entry labels cronjobs = Panics slice_bounds.
Proof.
  induction labels as [| [key value] labels IH]; intros cronjobs; simpl; [eauto |].
  destruct (NewCronJobFromLabel_outcome key value) as [[_ ->] | [_ [c ->]]]; simpl;
    [right; reflexivity | apply IH].
Qed.

Lemma cronjobs_of_labels_short (a : option App) (entry : Service) labels key value :
  (key, value) ∈ labels ->
  (length (strings.Fields value) < 5)%nat ->
  forall cronjobs, cronjobs_of_labels a entry labels cronjobs = Panics slice_bounds.
Proof.
  intros Hin Hshort.
  induction labels as [| [k v] labels IH]; intros cronjobs; [inversion Hin |].
  simpl. apply elem_of_cons in Hin as [[= <- <-] | Hin].
  - destruct (NewCronJobFromLabel_outcome key value) as [[_ ->] | [Hge _]];
      [reflexivity | lia].
  - destruct (NewCronJobFromLabel_outcome k v) as [[_ ->] | [_ [c ->]]]; simpl;
      [reflexivity | apply IH, Hin].
Qed.

Lemma cronjobs_of_services_short it (a : option App) entries sn entry key value :
  (sn, entry) ∈ entries ->
  (key, value) ∈ over_labels it (LabelsByPrefix entry "convox.cron") ->
  (length (strings.Fields value) < 5)%nat ->
  forall cronjobs,
    cronjobs_of_services LabelsByPrefix it a entries cronjobs = Panics slice_bounds.
Proof.
  intros Hin Hlabel Hshort.
  induction entries as [| [n e] entries IH]; intros cronjobs; [inversion Hin |].
  simpl. apply elem_of_cons in Hin as [[= <- <-] | Hin].
  - rewrite (cronjobs_of_labels_short a entry _ key value Hlabel Hshort). reflexivity.
  - destruct (cronjobs_of_labels_outcome a e
                (over_labels it (LabelsByPrefix e "convox.cron")) cronjobs)
      as [[result ->] | ->]; simpl; [apply IH, Hin | reflexivity].
Qed.

(** The validation reads the keys of the labels only. *)
Lemma validate_labels_keys labels1 labels2 :
  labels1.*1 = labels2.*1 -> validate_labels labels1 = validate_labels labels2.
Proof.
  revert labels2. induction labels1 as [| [k1 v1] labels1 IH];
    intros [| [k2 v2] labels2]; simpl; try discriminate; [reflexivity |].
  intros [= -> Heq]. rewrite (IH _ Heq). reflexivity.
Qed.

(** C10: a cron label whose value has fewer than five fields makes
    [NewCronJobFromLabel] panic on [tokens[0:5]]; the manifest's
    validation decides on the keys of the labels alone, so that the value
    cannot make it fail; and [appCronJobs] panics on every manifest that
    carries such a label, in whatever order the maps are visited. *)
Theorem short_cron_schedule_panics_unvalidated :
  (forall key value,
     (length (strings.Fields value) < 5)%nat ->
     NewCronJobFromLabel (Service := Service) (App := App) key value
     = Panics "slice bounds out of range")
  /\ (forall labels1 labels2,
        labels1.*1 = labels2.*1 -> validate_labels labels1 = validate_labels labels2)
  /\ (forall it (a : option App) (m : Manifest) sn entry key value,
        enumerates it ->
        Services m !! sn = Some entry ->
        LabelsByPrefix entry "convox.cron" !! key = Some value ->
        (length (strings.Fields value) < 5)%nat ->
        appCronJobs LabelsByPrefix it a (Some m) = Panics "slice bounds out of range").
Proof.
  split; [| split].
  - intros key value Hshort.
    destruct (NewCronJobFromLabel_outcome key value) as [[_ H] | [Hge _]];
      [exact H | lia].
  - apply validate_labels_keys.
  - intros it a m sn entry key value [Hs Hl] Hentry Hlabel Hshort.
    unfold appCronJobs.
    apply (cronjobs_of_services_short it a _ sn entry key value).
    + rewrite (Hs (Services m)). apply elem_of_map_to_list. exact Hentry.
    + rewrite (Hl (LabelsByPrefix entry "convox.cron")).
      apply elem_of_map_to_list. exact Hlabel.
    + exact Hshort.
Qed.
End cron_labels.

(** ** The scenario of the cron jobs, run *)

Section scenario_cron.
Import Scenario.

Lemma LongName_bounded_witness :
  Cron.LongName fst id "production-rack" job
  = Returns "production-rack-my-application-long-web-service-ULS4XHY"
  /\ (String.length "production-rack-my-application-long-web-service-ULS4XHY" <= 64)%nat.
Proof.
  pose proof (LongName_bounded fst id "production-rack" job
                "my-application-long" web eq_refl eq_refl)
    as (Heq & _ & _ & _ & H64 & _).
  split.
  - rewrite Heq. vm_compute. reflexivity.
  - vm_compute. vm_compute in H64. exact H64.
Defined.

Lemma short_cron_schedule_panics_unvalidated_witness :
  Cron.Validate labels_by_prefix in_map_order manifest = None
  /\ Cron.appCronJobs labels_by_prefix in_map_order (Some "app") (Some manifest)
     = Panics "slice bounds out of range"
  /\ Cron.NewCronJobFromLabel (Service := service) (App := string)
       "convox.cron.myjob" "30 18 ? *"
     = Panics "slice bounds out of range".
Proof.
  split; [vm_compute; reflexivity |].
  destruct (short_cron_schedule_panics_unvalidated (App := string) labels_by_prefix)
    as (Hnew & _ & Happ).
  split.
  - apply (Happ in_map_order (Some "app") manifest "web" web
             "convox.cron.myjob" "30 18 ? *").
    + split; intros m; reflexivity.
    + vm_compute. reflexivity.
    + vm_compute. reflexivity.
    + vm_compute. lia.
  - apply Hnew. vm_compute. lia.
Defined.
End scenario_cron.

(** * Further properties: the neighbouring helpers *)

(** ** Strings: splitting and joining *)

Section text_facts.

Lemma append_nil_r s : s +:+ "" = s.
Proof.
  induction s as [| a s IH]; [reflexivity |].
  change (String a s +:+ "") with (String a (s +:+ "")). rewrite IH. reflexivity.
Qed.

Lemma rev_app_append s1 s2 s3 :
  String.rev_app s1 s2 +:+ s3 = String.rev_app s1 (s2 +:+ s3).
Proof.
  revert s2. induction s1 as [| a s1 IH]; intros s2; simpl; [reflexivity |].
  rewrite IH. reflexivity.
Qed.

Lemma split_go_nonempty sep s cur : strings.split_go sep s cur <> [].
Proof.
  revert cur. induction s as [| a s IH]; intros cur; simpl; [discriminate |].
  destruct (Ascii.eqb a sep); [discriminate | apply IH].
Qed.

Lemma Join_cons e l sep : l <> [] -> Join (e :: l) sep = e +:+ sep +:+ Join l sep.
Proof. destruct l; [congruence | reflexivity]. Qed.

(** Splitting at a byte and joining with it gives the string back. *)
Lemma Join_split_go sep s cur :
  Join (strings.split_go sep s cur) (String sep "") = String.rev cur +:+ s.
Proof.
  revert cur. induction s as [| a s IH]; intros cur; simpl.
  - rewrite append_nil_r. reflexivity.
  - destruct (Ascii.eqb_spec a sep) as [-> | Hne].
    + rewrite Join_cons by apply split_go_nonempty. rewrite IH. reflexivity.
    + rewrite IH. unfold String.rev. simpl. rewrite !rev_app_append. reflexivity.
Qed.

Lemma Join_Split s sep : Join (strings.Split s sep) (String sep "") = s.
Proof. unfold strings.Split. rewrite Join_split_go. reflexivity. Qed.

Lemma string_app_assoc s1 s2 s3 : (s1 +:+ s2) +:+ s3 = s1 +:+ (s2 +:+ s3).
Proof.
  induction s1 as [| a s1 IH]; [reflexivity |].
  change (String a ((s1 +:+ s2) +:+ s3) = String a (s1 +:+ (s2 +:+ s3))).
  rewrite IH. reflexivity.
Qed.

Lemma Join_snoc l x sep : l <> [] -> Join (l ++ [x]) sep = Join l sep +:+ sep +:+ x.
Proof.
  induction l as [| e l IH]; intros Hl; [congruence |].
  destruct l as [| e' l]; [reflexivity |].
  specialize (IH ltac:(discriminate)).
  change (e +:+ sep +:+ Join ((e' :: l) ++ [x]) sep
          = (e +:+ sep +:+ Join (e' :: l) sep) +:+ sep +:+ x).
  rewrite IH, !string_app_assoc. reflexivity.
Qed.

Lemma has_nil c : ~ Text.has c "".
Proof. unfold Text.has. simpl. apply not_elem_of_nil. Qed.

Lemma has_String c a s : Text.has c (String a s) <-> c = a \/ Text.has c s.
Proof. unfold Text.has. simpl. apply elem_of_cons. Qed.

Lemma has_app c s1 s2 : Text.has c (s1 +:+ s2) <-> Text.has c s1 \/ Text.has c s2.
Proof.
  induction s1 as [| a s1 IH].
  - change ("" +:+ s2) with s2. pose proof (has_nil c). tauto.
  - change (String a s1 +:+ s2) with (String a (s1 +:+ s2)).
    rewrite !has_String, IH. tauto.
Qed.

Lemma has_rev_app c s acc :
  Text.has c (String.rev_app s acc) <-> Text.has c s \/ Text.has c acc.
Proof.
  revert acc. induction s as [| a s IH]; intros acc; simpl.
  - pose proof (has_nil c). tauto.
  - rewrite IH, !has_String. tauto.
Qed.

(** No part of a split contains the separator. *)
Lemma split_go_parts sep s cur :
  ~ Text.has sep cur ->
  Forall (fun part => ~ Text.has sep part) (strings.split_go sep s cur).
Proof.
  revert cur. induction s as [| a s IH]; intros cur Hcur; simpl.
  - constructor; [| constructor]. unfold String.rev. rewrite has_rev_app.
    pose proof (has_nil sep). tauto.
  - destruct (Ascii.eqb_spec a sep) as [-> | Hne].
    + constructor; [| apply IH, has_nil].
      unfold String.rev. rewrite has_rev_app. pose proof (has_nil sep). tauto.
    + apply IH. rewrite has_String. intros [-> | H]; [congruence | tauto].
Qed.

Lemma Split_parts s sep :
  Forall (fun part => ~ Text.has sep part) (strings.Split s sep).
Proof. apply split_go_parts, has_nil. Qed.

Lemma cut_None sep s : Text.cut sep s = None <-> ~ Text.has sep s.
Proof.
  induction s as [| a s IH]; simpl.
  - pose proof (has_nil sep). tauto.
  - rewrite has_String. destruct (Ascii.eqb_spec a sep) as [-> | Hne].
    + split; [discriminate | tauto].
    + destruct (Text.cut sep s) as [[b c] |].
      * split; [discriminate |]. intros H.
        assert (Hh : ~ Text.has sep s) by tauto.
        apply IH in Hh. discriminate.
      * split; [| reflexivity]. intros _ [-> | H]; [congruence |].
        apply IH in H; [exact H | reflexivity].
Qed.

Lemma cut_Some sep s b c :
  Text.cut sep s = Some (b, c) <-> s = b +:+ String sep c /\ ~ Text.has sep b.
Proof.
  revert b. induction s as [| a s IH]; intros b; simpl.
  - split; [discriminate |]. intros [H _]. destruct b; discriminate.
  - destruct (Ascii.eqb_spec a sep) as [-> | Hne].
    + split.
      * intros [= <- <-]. split; [reflexivity | apply has_nil].
      * intros [H Hb]. destruct b as [| b0 b].
        -- injection H as ->. reflexivity.
        -- injection H as <- _. exfalso. apply Hb, has_String. auto.
    + destruct (Text.cut sep s) as [[b' c'] |] eqn:Hcut.
      * split.
        -- intros [= <- <-]. destruct (proj1 (IH b') eq_refl) as [-> Hb].
           split; [reflexivity |]. rewrite has_String.
           intros [-> | H]; [congruence | tauto].
        -- intros [H Hb]. destruct b as [| b0 b]; [injection H; congruence |].
           injection H as -> ->. rewrite has_String in Hb.
           assert (Hc : Some (b', c') = Some (b, c)).
           { apply IH. split; [reflexivity | tauto]. }
           congruence.
      * split; [discriminate |]. intros [H Hb].
        destruct b as [| b0 b]; [injection H; congruence |].
        injection H as -> ->. rewrite has_String in Hb.
        assert (Hc : @None (string * string) = Some (b, c)).
        { apply IH. split; [reflexivity | tauto]. }
        discriminate.
Qed.

(** [l[len(l)-1]] on a slice that is not empty. *)
Lemma elem_last {X} (l : list X) x :
  last l = Some x -> Text.elem l (Z.of_nat (length l) - 1) = Returns x.
Proof.
  intros Hl. apply last_Some in Hl as [l' ->]. unfold Text.elem.
  rewrite length_app. simpl.
  destruct (Z.ltb_spec (Z.of_nat (length l' + 1) - 1) 0); [lia |].
  replace (Z.to_nat (Z.of_nat (length l' + 1) - 1)) with (length l' + 0)%nat by lia.
  rewrite lookup_app_r by lia. replace (length l' + 0 - length l')%nat with 0%nat by lia.
  reflexivity.
Qed.

Lemma elem_nat {X} (l : list X) (i : nat) x :
  l !! i = Some x -> Text.elem l (Z.of_nat i) = Returns x.
Proof.
  intros Hl. unfold Text.elem.
  destruct (Z.ltb_spec (Z.of_nat i) 0); [lia |]. rewrite Nat2Z.id, Hl. reflexivity.
Qed.
End text_facts.

(** ** More on [updateStack]: the request and the requests *)

Section update_stack_request.
Import aws.
Context {R : Type} (A : api R).
Implicit Types (p : Provider) (w : world R) (req : UpdateStackInput).

(** The branch on the template, when it succeeds: with a document, one
    request to the object store, and the address of the stored object as
    [TemplateURL]; without, the previous template and no request. *)
Lemma templateParameters_ok p template req pexisting w req' params w2 :
  templateParameters A p template req pexisting w = (Returns (Ok (req', params)), w2) ->
  match template with
  | Some data =>
      let key := if IsTest p then "test-key" else "" in
      exists ou u,
        ObjectStore A "" key data (remote w) = (Ok ou, remote w2)
        /\ url_Parse A (Url ou) = Ok u
        /\ Scheme u = "object"
        /\ req' = with_TemplateURL req
                    ("https://s3." +:+ Region p +:+ ".amazonaws.com/"
                     +:+ SettingsBucket p +:+ Path u)
        /\ log w2 = log w ++ [CallObjectStore "" key data]
  | None => req' = with_UsePreviousTemplate req true /\ w2 = w
  end.
Proof.
  unfold templateParameters. destruct template as [data |].
  - unfold mbind, call_api, ret.
    destruct (ObjectStore A "" _ data (remote w)) as [[ou | e] r'] eqn:Hstore;
      simpl; [| discriminate].
    unfold objectURL.
    destruct (url_Parse A (Url ou)) as [u | e] eqn:Hurl; simpl; [| discriminate].
    destruct (String.eqb_spec (Scheme u) "object") as [Hs | Hs]; simpl; [| discriminate].
    destruct (formationParameters A data) as [fp | e]; simpl; [| discriminate].
    intros [= <- <- <-]. simpl. exists ou, u. auto.
  - unfold ret. intros [= <- <- <-]. auto.
Qed.

Lemma newRequest_fields p name id :
  ReqStackName (newRequest p name id) = Some name
  /\ ReqCapabilities (newRequest p name id) = ["CAPABILITY_IAM"]
  /\ ReqNotificationARNs (newRequest p name id) = [CloudformationTopic p]
  /\ ReqClientRequestToken (newRequest p name id)
     = (if String.eqb id "" then None else Some id)
  /\ ReqTemplateURL (newRequest p name id) = None
  /\ ReqUsePreviousTemplate (newRequest p name id) = None.
Proof. unfold newRequest. destruct (String.eqb id ""); simpl; auto 10. Qed.

(** X1: The request names the stack, asks for the IAM capability, notifies the
    provider's topic, carries the idempotency token exactly when one is
    given, and refers either to the newly stored document or to the
    previous template, never to both. *)
Theorem updateStack_request_envelope
    p name template changes tags id w out w' calls req :
  updateStack A p name template changes tags id w = (out, w') ->
  log w' = log w ++ calls ->
  In (CallUpdateStack req) calls ->
  ReqStackName req = Some name
  /\ ReqCapabilities req = ["CAPABILITY_IAM"]
  /\ ReqNotificationARNs req = [CloudformationTopic p]
  /\ ReqClientRequestToken req = (if String.eqb id "" then None else Some id)
  /\ match template with
     | Some data =>
         ReqUsePreviousTemplate req = None
         /\ exists ou u,
              fst (ObjectStore A "" (if IsTest p then "test-key" else "") data
                     (snd (DescribeStacksPages A (Some name) (remote w)))) = Ok ou
              /\ url_Parse A (Url ou) = Ok u
              /\ Scheme u = "object"
              /\ ReqTemplateURL req
                 = Some ("https://s3." +:+ Region p +:+ ".amazonaws.com/"
                         +:+ SettingsBucket p +:+ Path u)
     | None => ReqUsePreviousTemplate req = Some true /\ ReqTemplateURL req = None
     end.
Proof.
  intros Hrun Hlog Hin.
  destruct (updateStack_submitted _ _ _ _ _ _ _ _ _ _ _ _ Hrun Hlog Hin)
    as (stack & pexisting & req1 & params & w1 & w2 & Hd & Hex & Ht & -> & _ & _).
  pose proof (describeStack_cleared _ _ _ _ _ _ Hd) as (_ & Hremote & _).
  pose proof (newRequest_fields p name id) as (Hn & Hc & Ht' & Hk & Hu & Hv).
  pose proof (templateParameters_ok _ _ _ _ _ _ _ _ Ht) as Hok.
  destruct template as [data |].
  - destruct Hok as (ou & u & Hstore & Hurl & Hs & -> & _).
    unfold fillRequest. simpl.
    split; [exact Hn |]. split; [exact Hc |]. split; [exact Ht' |].
    split; [exact Hk |]. split; [exact Hv |].
    exists ou, u. rewrite <- Hremote, Hstore. auto.
  - destruct Hok as [-> ->]. unfold fillRequest. simpl.
    split; [exact Hn |]. split; [exact Hc |]. split; [exact Ht' |].
    split; [exact Hk |]. split; [reflexivity | exact Hu].
Qed.

Lemma submission_keys changes pexisting (l : list string) :
  ParameterKey <$> omap (submission changes pexisting) l
  = Some <$> filter (fun k => is_Some (submission changes pexisting k)) l.
Proof.
  induction l as [| k l IH]; [reflexivity |]. simpl.
  destruct (submission changes pexisting k) as [q |] eqn:Hq.
  - rewrite filter_cons_True by (rewrite Hq; eauto).
    rewrite !fmap_cons. f_equal; [exact (submission_key _ _ _ _ Hq) | exact IH].
  - rewrite filter_cons_False by (rewrite Hq; intros [? [=]]). exact IH.
Qed.

Lemma StronglySorted_filter {X} (Rel : relation X) (P : X -> Prop)
    `{forall x, Decision (P x)} (l : list X) :
  StronglySorted Rel l -> StronglySorted Rel (filter P l).
Proof.
  induction 1 as [| x l Hl IH Hx]; [constructor |].
  destruct (decide (P x)).
  - rewrite filter_cons_True by assumption. constructor; [exact IH |].
    apply Forall_forall. intros y Hy. apply list_elem_of_filter in Hy as [_ Hy].
    rewrite Forall_forall in Hx. auto.
  - rewrite filter_cons_False by assumption. exact IH.
Qed.

(** X2: The parameters of the request are in the order of their names, each
    name once: the request does not depend on the order in which the maps
    are visited. *)
Theorem updateStack_parameters_sorted
    p name template changes tags id w out w' calls req :
  updateStack A p name template changes tags id w = (out, w') ->
  log w' = log w ++ calls ->
  In (CallUpdateStack req) calls ->
  exists keys,
    ParameterKey <$> ReqParameters req = Some <$> keys
    /\ StronglySorted String.le keys
    /\ NoDup keys.
Proof.
  intros Hrun Hlog Hin.
  destruct (updateStack_submitted _ _ _ _ _ _ _ _ _ _ _ _ Hrun Hlog Hin)
    as (stack & pexisting & req1 & params & w1 & w2 & Hd & Hex & Ht & -> & _ & _).
  pose proof (templateParameters_spec _ _ _ _ _ _ _ _ Ht) as (_ & _ & _ & Hreq).
  destruct (Hreq req1 params eq_refl) as (Hps & _ & _).
  rewrite newRequest_parameters in Hps.
  rewrite (fillRequest_parameters changes tags stack pexisting params req1 Hps).
  eexists. split; [apply submission_keys |]. split.
  - apply StronglySorted_filter.
    apply (StronglySorted_merge_sort String.le).
  - apply NoDup_filter, NoDup_sorted_elements.
Qed.

(** The requests of the branch on the template: one to the object store
    when there is a document, none otherwise. *)
Lemma templateParameters_log p template req pexisting w r w2 :
  templateParameters A p template req pexisting w = (r, w2) ->
  log w2 = log w ++ match template with
                    | Some data =>
                        [CallObjectStore "" (if IsTest p then "test-key" else "") data]
                    | None => []
                    end.
Proof.
  unfold templateParameters. destruct template as [data |].
  - unfold mbind, call_api, ret.
    destruct (ObjectStore A "" _ data (remote w)) as [[ou | e] r'];
      simpl; [| intros [= <- <-]; reflexivity].
    destruct (objectURL A p (Url ou)) as [tu | e]; simpl;
      [| intros [= <- <-]; reflexivity].
    destruct (formationParameters A data) as [fp | e]; simpl;
      intros [= <- <-]; reflexivity.
  - unfold ret. intros [= <- <-]. rewrite app_nil_r. reflexivity.
Qed.

(** X3: [updateStack] asks for the description of the stack once, stores the
    document at most once, and sends at most one update, in this order.
    What it returns after an update was sent is the provider's answer to
    it, error or not; it returns without error only then. *)
Theorem updateStack_requests p name template changes tags id w out w' calls :
  updateStack A p name template changes tags id w = (out, w') ->
  log w' = log w ++ calls ->
  exists store update,
    calls = CallDescribeStacks (Some name) :: store ++ update
    /\ (store = []
        \/ exists data,
             template = Some data
             /\ store = [CallObjectStore "" (if IsTest p then "test-key" else "") data])
    /\ ((update = [] /\ out <> Returns None)
        \/ exists req r,
             update = [CallUpdateStack req]
             /\ out = Returns (fst (UpdateStack A req r))
             /\ remote w' = snd (UpdateStack A req r)).
Proof.
  intros Hrun Hlog.
  destruct (updateStack_run _ _ _ _ _ _ _ _ _ _ Hrun) as (r & w1 & Hd & Hcase).
  pose proof (describeStack_cleared _ _ _ _ _ _ Hd) as (Hlog1 & _).
  destruct Hcase as [(stack & pexisting & req1 & params & w2 & -> & Hex & Ht & -> & ->)
                    | (_ & Hout & l & Hl & Hno)].
  - pose proof (templateParameters_log _ _ _ _ _ _ _ Ht) as Hl2.
    simpl in Hlog. rewrite Hl2, Hlog1, <- !app_assoc in Hlog.
    apply app_inv_head in Hlog. subst calls.
    exists (match template with
            | Some data =>
                [CallObjectStore "" (if IsTest p then "test-key" else "") data]
            | None => []
            end),
      [CallUpdateStack (fillRequest changes tags stack pexisting params req1)].
    split; [reflexivity |]. split.
    + destruct template as [data |];
        [right; exists data; split; reflexivity | left; reflexivity].
    + right. eexists _, _. split; [reflexivity |]. split; reflexivity.
  - rewrite updateStack_unfold, Hd in Hrun.
    assert (Hstore : l = [] \/ exists data, template = Some data
              /\ l = [CallObjectStore "" (if IsTest p then "test-key" else "") data]).
    { destruct r as [[stack | e] | msg];
        [| injection Hrun as <- <-; left;
           apply (app_inv_head (log w1)); rewrite <- Hl, app_nil_r; reflexivity ..].
      destruct (existingParameters (StackParameters stack) ∅) as [pexisting | msg].
      2: { injection Hrun as <- <-. left.
           apply (app_inv_head (log w1)). rewrite <- Hl, app_nil_r. reflexivity. }
      destruct (templateParameters A p template (newRequest p name id) pexisting w1)
        as [r2 w2] eqn:Ht.
      pose proof (templateParameters_log _ _ _ _ _ _ _ Ht) as Hl2.
      assert (Hw : w' = w2).
      { destruct r2 as [[[req1 params] | e] | msg].
        - cbv zeta in Hrun. destruct (UpdateStack A _ (remote w2)) as [err r3].
          injection Hrun as <- <-. simpl in Hl. rewrite Hl2, <- app_assoc in Hl.
          apply app_inv_head in Hl.
          exfalso. apply (Hno (fillRequest changes tags stack pexisting params req1)).
          rewrite <- Hl. apply in_or_app. right. left. reflexivity.
        - injection Hrun as <- <-. reflexivity.
        - injection Hrun as <- <-. reflexivity. }
      subst w2. rewrite Hl in Hl2. apply app_inv_head in Hl2. subst l.
      destruct template as [data |]; [right; exists data; split; reflexivity | left; reflexivity]. }
    rewrite Hl, Hlog1, <- app_assoc in Hlog. apply app_inv_head in Hlog. subst calls.
    exists l, []. rewrite app_nil_r. split; [reflexivity |]. split; [exact Hstore |].
    left. split; [reflexivity | exact Hout].
Qed.

(** X4: Without a new document the request names exactly the parameters of the
    live stack: none is dropped, none is added, and a change for a
    parameter the live stack does not have is ignored. *)
Theorem updateStack_previous_template_keeps_parameters
    p name changes tags id w out w' calls req :
  updateStack A p name None changes tags id w = (out, w') ->
  log w' = log w ++ calls ->
  In (CallUpdateStack req) calls ->
  exists stack : Stack,
    concat (fst (fst (DescribeStacksPages A (Some name) (remote w)))) = [stack]
    /\ (forall k,
          (exists q, q ∈ ReqParameters req /\ ParameterKey q = Some k)
          <-> (exists q, q ∈ StackParameters stack /\ ParameterKey q = Some k))
    /\ (forall k v,
          changes !! k = Some v ->
          (forall q, q ∈ StackParameters stack -> ParameterKey q <> Some k) ->
          forall q, q ∈ ReqParameters req -> ParameterKey q <> Some k).
Proof.
  intros Hrun Hlog Hin.
  destruct (updateStack_submitted _ _ _ _ _ _ _ _ _ _ _ _ Hrun Hlog Hin)
    as (stack & pexisting & req1 & params & w1 & w2 & Hd & Hex & Ht & -> & _ & _).
  pose proof (describeStack_cleared _ _ _ _ _ _ Hd) as (_ & _ & _ & Hlive & _).
  destruct (Hlive stack eq_refl) as [_ Hpages].
  pose proof (templateParameters_spec _ _ _ _ _ _ _ _ Ht) as (_ & _ & _ & Hreq).
  destruct (Hreq req1 params eq_refl) as (Hps & _ & ->).
  rewrite newRequest_parameters in Hps.
  rewrite (fillRequest_parameters changes tags stack pexisting pexisting req1 Hps).
  assert (Hpex : forall k, k ∈ pexisting <->
            exists q, q ∈ StackParameters stack /\ ParameterKey q = Some k).
  { intros k. rewrite (existingParameters_spec _ _ _ Hex k).
    split; [intros [H | H]; [| exact H] | right; assumption].
    apply not_elem_of_empty in H. contradiction. }
  assert (Hmem : forall k,
            (exists q, q ∈ omap (submission changes pexisting)
                             (sort_Strings (elements pexisting))
                       /\ ParameterKey q = Some k)
            <-> k ∈ pexisting).
  { intros k. split.
    - intros (q & Hq & Hkey). apply list_elem_of_omap in Hq as (k' & Hk' & Hq).
      apply elem_of_sorted_elements in Hk'.
      apply submission_key in Hq. congruence.
    - intros Hk.
      assert (Hs : is_Some (submission changes pexisting k)).
      { unfold submission. destruct (changes !! k); [eauto |].
        destruct (decide (k ∈ pexisting)); [eauto | contradiction]. }
      destruct Hs as [q Hq]. exists q. split; [| exact (submission_key _ _ _ _ Hq)].
      apply list_elem_of_omap. exists k. split; [| exact Hq].
      apply elem_of_sorted_elements. exact Hk. }
  exists stack. split; [exact Hpages |]. split.
  - intros k. rewrite Hmem. apply Hpex.
  - intros k v _ Habsent q Hq Hkey.
    assert (Hk : k ∈ pexisting) by (apply Hmem; eauto).
    apply Hpex in Hk as (q' & Hq' & Hkey'). exact (Habsent q' Hq' Hkey').
Qed.
End update_stack_request.

Section update_stack_cases.
Import aws.

(** The run with a new document, on the scenario. *)
Lemma updateStack_request_envelope_witness :
  ReqStackName Scenario.request = Some "rack-app"
  /\ ReqClientRequestToken Scenario.request = Some "token"
  /\ ReqUsePreviousTemplate Scenario.request = None.
Proof.
  destruct (updateStack_request_envelope
              (Scenario.provider_api true None) (Scenario.provider false) "rack-app"
              (Some "{}") Scenario.changes Scenario.tags "token" Scenario.cold
              (Returns None) Scenario.updated Scenario.requests Scenario.request)
    as (Hname & _ & _ & Htoken & Hprevious & _).
  - vm_compute. reflexivity.
  - reflexivity.
  - simpl. auto.
  - split; [exact Hname |]. split; [exact Htoken | exact Hprevious].
Defined.

Lemma updateStack_parameters_sorted_witness :
  exists keys,
    ParameterKey <$> ReqParameters Scenario.request = Some <$> keys
    /\ StronglySorted String.le keys
    /\ NoDup keys.
Proof.
  apply (updateStack_parameters_sorted
           (Scenario.provider_api true None) (Scenario.provider false) "rack-app"
           (Some "{}") Scenario.changes Scenario.tags "token" Scenario.cold
           (Returns None) Scenario.updated Scenario.requests Scenario.request).
  - vm_compute. reflexivity.
  - reflexivity.
  - simpl. auto.
Defined.

Lemma updateStack_requests_witness :
  exists store update,
    Scenario.requests = CallDescribeStacks (Some "rack-app") :: store ++ update
    /\ (store = []
        \/ exists data,
             Some "{}" = Some data /\ store = [CallObjectStore "" "" data])
    /\ ((update = [] /\ Returns None <> Returns (@None error))
        \/ exists req r,
             update = [CallUpdateStack req]
             /\ Returns None
                = Returns (fst (UpdateStack (Scenario.provider_api true None) req r))
             /\ remote Scenario.updated
                = snd (UpdateStack (Scenario.provider_api true None) req r)).
Proof.
  apply (updateStack_requests
           (Scenario.provider_api true None) (Scenario.provider false) "rack-app"
           (Some "{}") Scenario.changes Scenario.tags "token" Scenario.cold
           (Returns None) Scenario.updated Scenario.requests).
  - vm_compute. reflexivity.
  - reflexivity.
Defined.

(** The run without a document: the change for [Z], which the live stack
    does not have, is not in the request. *)
Lemma updateStack_previous_template_keeps_parameters_witness :
  exists stack : Stack,
    [Scenario.live_stack] = [stack]
    /\ forall q, q ∈ ReqParameters Cases.request_previous -> ParameterKey q <> Some "Z".
Proof.
  destruct (updateStack_previous_template_keeps_parameters
              (Scenario.provider_api true None) (Scenario.provider false) "rack-app"
              Cases.changes_unknown Scenario.tags "" Scenario.cold
              (Returns None) Cases.updated_previous Cases.requests_previous
              Cases.request_previous)
    as (stack & Hlive & _ & Hignored).
  - vm_compute. reflexivity.
  - reflexivity.
  - simpl. auto.
  - exists stack. split; [exact Hlive |].
    apply (Hignored "Z" "1"); [vm_compute; reflexivity |].
    simpl in Hlive. injection Hlive as <-.
    intros q Hq. simpl in Hq.
    repeat (apply elem_of_cons in Hq as [-> | Hq]; [discriminate |]).
    inversion Hq.
Defined.
End update_stack_cases.

(** ** More on the description helpers *)

Section describe_more.
Import aws.
Context {R : Type} (A : api R).
Implicit Types (p : Provider) (w : world R).

Lemma Get_Set_expired {V} (c : cache.t V) now now' collection k v ttl :
  now + ttl < now' ->
  cache.Get (snd (cache.Set' c now collection k v ttl)) now' collection k = None.
Proof.
  intros Hnow. destruct (cache.bypass c) eqn:Hb.
  - rewrite Set_bypass by exact Hb. apply Get_bypass. exact Hb.
  - unfold cache.Set', cache.Get. rewrite Hb. simpl.
    rewrite lookup_insert_eq. simpl.
    destruct (Z.ltb_spec (now + ttl) now'); [reflexivity | lia].
Qed.

(** X5: Read-through: a description fetched from the provider is stored for 5
    seconds.  Until then a further call returns it without a request; after
    that the provider is asked again. *)
Theorem describeStacks_read_through p name w pages r :
  SkipCache p = false ->
  cache.bypass (wcache w) = false ->
  cache.Get (wcache w) (Now A (remote w)) "describeStacks" (cache.key_of_ptr name) = None ->
  DescribeStacksPages A name (remote w) = ((pages, None), r) ->
  exists w1,
    describeStacks A p name w = (Returns (Ok (concat pages)), w1)
    /\ log w1 = log w ++ [CallDescribeStacks name]
    /\ forall w2,
         wcache w2 = wcache w1 ->
         (Now A (remote w2) <= Now A r + 5 * Second ->
            describeStacks A p name w2 = (Returns (Ok (concat pages)), w2))
         /\ (Now A r + 5 * Second < Now A (remote w2) ->
               log (snd (describeStacks A p name w2))
               = log w2 ++ [CallDescribeStacks name]).
Proof.
  intros Hskip Hbypass Hmiss Hapi.
  rewrite (describeStacks_miss A p name w Hmiss), Hapi, Hskip.
  eexists. split; [reflexivity |]. split; [reflexivity |].
  intros w2 Hc. simpl in Hc. split.
  - intros Hnow. apply describeStacks_hit. rewrite Hc.
    apply Get_Set; assumption.
  - intros Hnow.
    rewrite (describeStacks_miss A p name w2).
    + destruct (DescribeStacksPages A name (remote w2)) as [[pages2 [e |]] r2];
        reflexivity.
    + rewrite Hc. apply Get_Set_expired. exact Hnow.
Qed.

(** X6: [describeStack] on a miss: it never panics; it returns a stack exactly
    when the provider answers without error with that one stack; a
    [ValidationError] of the provider becomes [stack not found], any other
    error is handed on; and a failed request leaves the cache as it was. *)
Theorem describeStack_answers p name w :
  cache.Get (wcache w) (Now A (remote w)) "describeStacks" (cache.KString name) = None ->
  let answer := fst (DescribeStacksPages A (Some name) (remote w)) in
  (exists res, fst (describeStack A p name w) = Returns res)
  /\ (forall stack,
        fst (describeStack A p name w) = Returns (Ok stack)
        <-> snd answer = None /\ concat (fst answer) = [stack])
  /\ (forall code msg,
        snd answer = Some (AwsError code msg) ->
        fst (describeStack A p name w)
        = Returns (Err (if String.eqb code "ValidationError"
                        then Errorf ("stack not found: " +:+ name)
                        else AwsError code msg)))
  /\ (forall msg,
        snd answer = Some (Errorf msg) ->
        fst (describeStack A p name w) = Returns (Err (Errorf msg)))
  /\ (snd answer = None -> (length (concat (fst answer)) <> 1)%nat ->
        fst (describeStack A p name w)
        = Returns (Err (Errorf ("could not load stack: " +:+ name))))
  /\ (snd answer <> None -> wcache (snd (describeStack A p name w)) = wcache w).
Proof.
  intros Hmiss answer. subst answer.
  unfold describeStack, mbind.
  rewrite (describeStacks_miss A p (Some name) w Hmiss).
  destruct (DescribeStacksPages A (Some name) (remote w)) as [[pages err] r]. simpl.
  destruct err as [[msg | code msg] |]; simpl.
  - unfold ret. simpl. split; [eauto |]. split.
    { intros stack. split; [discriminate | intros [[=] _]]. }
    split; [discriminate |]. split; [intros m [= ->]; reflexivity |].
    split; [discriminate | reflexivity].
  - unfold ret. destruct (String.eqb code "ValidationError") eqn:Hcode; simpl.
    + split; [eauto |]. split.
      { intros stack. split; [discriminate | intros [[=] _]]. }
      split; [intros c m [= -> ->]; rewrite Hcode; reflexivity |].
      split; [discriminate |]. split; [discriminate | reflexivity].
    + split; [eauto |]. split.
      { intros stack. split; [discriminate | intros [[=] _]]. }
      split; [intros c m [= -> ->]; rewrite Hcode; reflexivity |].
      split; [discriminate |]. split; [discriminate | reflexivity].
  - unfold ret. destruct (concat pages) as [| s [| s2 rest]]; simpl.
    + split; [eauto |]. split.
      { intros stack. split; [discriminate | intros [_ [=]]]. }
      split; [discriminate |]. split; [discriminate |].
      split; [reflexivity | congruence].
    + split; [eauto |]. split.
      { intros stack. split; [intros [= ->]; auto | intros [_ [= ->]]; reflexivity]. }
      split; [discriminate |]. split; [discriminate |].
      split; [intros _ H; simpl in H; lia | congruence].
    + split; [eauto |]. split.
      { intros stack. split; [discriminate | intros [_ [=]]]. }
      split; [discriminate |]. split; [discriminate |].
      split; [reflexivity | congruence].
Qed.

(** X7: [describeTasks] on a miss hands the provider's answer on; it stores it
    only when the answer reports no failure and [SkipCache] is not set. *)
Theorem describeTasks_caches_clean_answers p input w res r :
  cache.Get (wcache w) (Now A (remote w)) "describeTasks"
    (cache.KStruct [[DTICluster input]; DTITasks input]) = None ->
  DescribeTasks A input (remote w) = (Ok res, r) ->
  fst (describeTasks A p input w) = Returns (Ok res)
  /\ log (snd (describeTasks A p input w)) = log w ++ [CallDescribeTasks input]
  /\ (Failures res <> [] -> wcache (snd (describeTasks A p input w)) = wcache w)
  /\ (Failures res = [] -> SkipCache p = false ->
        wcache (snd (describeTasks A p input w))
        = snd (cache.Set' (wcache w) (Now A r) "describeTasks"
                 (cache.KStruct [[DTICluster input]; DTITasks input])
                 (VTasks res) (10 * Second))).
Proof.
  intros Hmiss Hapi.
  unfold describeTasks, mbind, ret, call_api, cache_Get, cache_Set.
  rewrite Hmiss. simpl. rewrite Hapi. simpl.
  destruct (SkipCache p); simpl.
  - repeat split; try reflexivity. discriminate.
  - destruct (Failures res) as [| f fs]; simpl.
    + unfold cache.Set'. destruct (cache.bypass (wcache w)); simpl;
        repeat split; try reflexivity; congruence.
    + repeat split; try reflexivity. discriminate.
Qed.

(** X8: [taskDefinitionRelease] on a miss reads the label [convox.release] of
    the first container definition only.  The test [len(...) < 0] in front
    never holds: with no container definition the function panics on the
    index, it does not return an error. *)
Theorem taskDefinitionRelease_first_container p arn w td r :
  cache.Get (wcache w) (Now A (remote w)) "taskDefinitionRelease" (cache.KString arn) = None ->
  cache.Get (wcache w) (Now A (remote w)) "describeTaskDefinition"
    (cache.KStruct [[Some arn]]) = None ->
  DescribeTaskDefinition A (Some arn) (remote w) = (Ok td, r) ->
  fst (taskDefinitionRelease A p arn w)
  = match TaskDefinition_ td with
    | None => Panics nil_dereference
    | Some def =>
        match ContainerDefinitions def with
        | [] => Panics index_out_of_range
        | c :: _ =>
            match DockerLabels c !! "convox.release" with
            | Some (Some release) => Returns (Ok release)
            | _ => Returns (Err (Errorf
                     ("no convox.release label for task definition: " +:+ arn)))
            end
        end
    end.
Proof.
  intros Hmiss1 Hmiss2 Hapi.
  unfold taskDefinitionRelease, describeTaskDefinition, mbind, ret, panic, call_api,
    cache_Get, cache_Set, deref.
  rewrite Hmiss1. simpl. rewrite Hmiss2. simpl. rewrite Hapi. simpl.
  destruct (SkipCache p); simpl.
  - destruct (TaskDefinition_ td) as [def |]; simpl; [| reflexivity].
    destruct (ContainerDefinitions def) as [| c cs]; simpl; [reflexivity |].
    destruct (DockerLabels c !! "convox.release") as [[release |] |]; simpl;
      try reflexivity.
    unfold cache.Set'. destruct (cache.bypass (wcache w)); reflexivity.
  - assert (Hset : forall v ttl,
              fst (cache.Set' (wcache w) (Now A r) "describeTaskDefinition"
                     (cache.KStruct [[Some arn]]) v ttl) = None).
    { intros v ttl. unfold cache.Set'. destruct (cache.bypass (wcache w)); reflexivity. }
    destruct (cache.Set' (wcache w) (Now A r) "describeTaskDefinition"
                (cache.KStruct [[Some arn]]) (VTaskDefinition td) (24 * Hour))
      as [serr c'] eqn:Hs.
    pose proof (Hset (VTaskDefinition td) (24 * Hour)) as H1. rewrite Hs in H1.
    simpl in H1. subst serr. simpl.
    destruct (TaskDefinition_ td) as [def |]; simpl; [| reflexivity].
    destruct (ContainerDefinitions def) as [| c cs]; simpl; [reflexivity |].
    destruct (DockerLabels c !! "convox.release") as [[release |] |]; simpl;
      try reflexivity.
    unfold cache.Set'. destruct (cache.bypass c'); reflexivity.
Qed.
End describe_more.

Section describe_cases.
Import aws.

Lemma describeStacks_read_through_witness :
  exists w1,
    describeStacks (Scenario.provider_api true None) (Scenario.provider false)
      (Some "rack-app") Scenario.cold
    = (Returns (Ok [Scenario.live_stack]), w1)
    /\ log w1 = [CallDescribeStacks (Some "rack-app")].
Proof.
  destruct (describeStacks_read_through
              (Scenario.provider_api true None) (Scenario.provider false)
              (Some "rack-app") Scenario.cold [[Scenario.live_stack]] 0)
    as (w1 & Hrun & Hlog & _).
  - reflexivity.
  - reflexivity.
  - vm_compute. reflexivity.
  - reflexivity.
  - exists w1. split; [exact Hrun | exact Hlog].
Defined.

Lemma describeStack_answers_witness :
  exists res,
    fst (describeStack (Scenario.provider_api true None) (Scenario.provider false)
           "rack-app" Scenario.cold) = Returns res.
Proof.
  apply (describeStack_answers
           (Scenario.provider_api true None) (Scenario.provider false)
           "rack-app" Scenario.cold).
  vm_compute. reflexivity.
Defined.

Lemma describeTasks_caches_clean_answers_witness :
  fst (describeTasks (Scenario.provider_api true None) (Scenario.provider false)
         Cases.tasks_input Scenario.cold) = Returns (Ok Cases.tasks_output).
Proof.
  apply (describeTasks_caches_clean_answers
           (Scenario.provider_api true None) (Scenario.provider false)
           Cases.tasks_input Scenario.cold Cases.tasks_output 0).
  - vm_compute. reflexivity.
  - reflexivity.
Defined.

Lemma taskDefinitionRelease_first_container_witness :
  fst (taskDefinitionRelease (Scenario.provider_api true None) (Scenario.provider false)
         "arn:task-definition" Scenario.cold) = Returns (Ok "R1").
Proof.
  rewrite (taskDefinitionRelease_first_container
             (Scenario.provider_api true None) (Scenario.provider false)
             "arn:task-definition" Scenario.cold Scenario.task_definition 0).
  - vm_compute. reflexivity.
  - vm_compute. reflexivity.
  - vm_compute. reflexivity.
  - reflexivity.
Defined.
End describe_cases.

(** ** More on [retry] *)

Section retry_more.
Import Retry.
Context {St : Type} (rng : nat -> Z).
Implicit Types (fn : St -> option error * St) (w : world (St := St)).

Lemma quot_20_pos interval : 20 <= interval -> 0 < Z.quot interval 20.
Proof.
  intros H. pose proof (Z.quot_le_mono 20 interval 20 ltac:(lia) ltac:(lia)) as Hq.
  rewrite Z.quot_same in Hq; lia.
Qed.

(** The loop entered with counter [i], when [fn] fails [k] times and then
    succeeds. *)
Lemma retry_loop_first_success fn times interval :
  20 <= interval ->
  times < MaxInt64 ->
  forall (k : nat) fuel i w,
    MinInt64 <= i ->
    i + Z.of_nat k <= times ->
    (k < fuel)%nat ->
    (forall j, (j < k)%nat -> fst (fn (after fn j (user w))) <> None) ->
    fst (fn (after fn k (user w))) = None ->
    exists w',
      retry_loop rng fuel times interval fn i w = Some (Returns None, w')
      /\ user w' = after fn (S k) (user w)
      /\ calls (trace w') = (calls (trace w) + S k)%nat
      /\ length (sleeps (trace w')) = (length (sleeps (trace w)) + k)%nat.
Proof.
  intros Hint Htimes.
  induction k as [| k IH]; intros fuel i w Hi Hk Hfuel Hfails Hok;
    (destruct fuel as [| fuel]; [lia |]); simpl in *.
  - destruct (fn (user w)) as [err s'] eqn:Hfn. simpl in Hok. subst err.
    eexists. split; [reflexivity |]. simpl.
    rewrite calls_app, sleeps_app, length_app, calls_Call. simpl.
    repeat split; (reflexivity || lia).
  - pose proof (Hfails 0%nat ltac:(lia)) as Hfirst. simpl in Hfirst.
    destruct (fn (user w)) as [err s'] eqn:Hfn. simpl in *.
    destruct err as [e |]; [| congruence].
    unfold Intn. pose proof (quot_20_pos interval Hint) as Hq.
    destruct (Z.leb_spec (Z.quot interval 20) 0); [lia |].
    rewrite (wrap64_id (i + 1)) by (unfold in_int64, MinInt64, MaxInt64 in *; lia).
    destruct (Z.gtb_spec (i + 1) times); [lia |].
    match goal with
    | |- context [retry_loop rng fuel times interval fn (i + 1) ?w2] =>
        destruct (IH fuel (i + 1) w2) as (w' & Hrun & Hu & Hc & Hs)
    end.
    + lia.
    + lia.
    + lia.
    + intros j Hj. pose proof (Hfails (S j) ltac:(lia)) as H'.
      simpl in H'. rewrite Hfn in H'. exact H'.
    + exact Hok.
    + exists w'. simpl in *. rewrite Hrun.
      rewrite !calls_app, !sleeps_app, !length_app, calls_Call, calls_Sleep in *.
      simpl in *. repeat split; [congruence | lia | lia].
Qed.

(** X9: [retry] stops at the first success: when [fn] fails [k] times and then
    succeeds, with [k] retries allowed, it is invoked [k + 1] times, the
    process sleeps [k] times, and the result is nil. *)
Theorem retry_stops_at_first_success fn times interval (k : nat) w :
  20 <= interval ->
  Z.of_nat k <= times < MaxInt64 ->
  (forall j, (j < k)%nat -> fst (fn (after fn j (user w))) <> None) ->
  fst (fn (after fn k (user w))) = None ->
  exists w',
    retry rng (S k) times interval fn w = Some (Returns None, w')
    /\ user w' = after fn (S k) (user w)
    /\ calls (trace w') = (calls (trace w) + S k)%nat
    /\ length (sleeps (trace w')) = (length (sleeps (trace w)) + k)%nat.
Proof.
  intros Hint Htimes Hfails Hok. unfold retry.
  apply (retry_loop_first_success fn times interval Hint ltac:(lia) k (S k) 0 w);
    try assumption; unfold MinInt64; lia.
Qed.

(** The loop entered with counter [i]: the invocations that are left. *)
Lemma retry_loop_bound fn times interval :
  times < MaxInt64 ->
  forall fuel i w out w',
    MinInt64 <= i < MaxInt64 ->
    retry_loop rng fuel times interval fn i w = Some (out, w') ->
    (Z.of_nat (calls (trace w')) <= Z.of_nat (calls (trace w)) + Z.max (times - i) 0 + 1)
    /\ (calls (trace w) < calls (trace w'))%nat
    /\ (length (sleeps (trace w')) - length (sleeps (trace w))
        <= calls (trace w') - calls (trace w))%nat.
Proof.
  intros Htimes. induction fuel as [| fuel IH]; intros i w out w' Hi Hrun;
    [discriminate |].
  simpl in Hrun. destruct (fn (user w)) as [[e |] s'].
  - destruct (Intn rng (Z.quot interval 20) (draws w)) as [j | m].
    + rewrite (wrap64_id (i + 1)) in Hrun
        by (unfold in_int64, MinInt64, MaxInt64 in *; lia).
      destruct (Z.gtb_spec (i + 1) times).
      * injection Hrun as <- <-. simpl.
        rewrite !calls_app, !sleeps_app, !length_app, calls_Call, calls_Sleep. simpl.
        lia.
      * apply IH in Hrun; [| lia]. simpl in Hrun.
        rewrite !calls_app, !sleeps_app, !length_app, calls_Call, calls_Sleep in Hrun.
        simpl in Hrun. lia.
    + injection Hrun as <- <-. simpl.
      rewrite !calls_app, !sleeps_app, !length_app, calls_Call. simpl. lia.
  - injection Hrun as <- <-. simpl.
    rewrite !calls_app, !sleeps_app, !length_app, calls_Call. simpl. lia.
Qed.

(** X10: Whatever [fn] does, it is never invoked more than [times + 1] times
    (once, when [times] is negative), and the process sleeps once after
    every failed invocation. *)
Theorem retry_invokes_at_most_times_plus_one fn fuel times interval w out w' :
  times < MaxInt64 ->
  retry rng fuel times interval fn w = Some (out, w') ->
  (calls (trace w) < calls (trace w'))%nat
  /\ Z.of_nat (calls (trace w')) <= Z.of_nat (calls (trace w)) + Z.max times 0 + 1
  /\ (length (sleeps (trace w')) - length (sleeps (trace w))
      <= calls (trace w') - calls (trace w))%nat.
Proof.
  intros Htimes Hrun. unfold retry in Hrun.
  destruct (retry_loop_bound fn times interval Htimes fuel 0 w out w') as (H1 & H2 & H3).
  - unfold MinInt64, MaxInt64. lia.
  - exact Hrun.
  - rewrite Z.sub_0_r in H1. auto.
Qed.
End retry_more.

(** Two failures, then a success, with three retries allowed. *)
Lemma retry_stops_at_first_success_witness :
  exists w',
    Retry.retry Scenario.raw 3 3 (100 * Scenario.Millisecond) Cases.flaky Scenario.start
    = Some (Returns None, w')
    /\ Retry.calls (Retry.trace w') = 3%nat
    /\ length (Retry.sleeps (Retry.trace w')) = 2%nat.
Proof.
  destruct (retry_stops_at_first_success Scenario.raw Cases.flaky 3
              (100 * Scenario.Millisecond) 2 Scenario.start)
    as (w' & Hrun & _ & Hcalls & Hsleeps).
  - vm_compute. discriminate.
  - unfold MaxInt64. simpl. lia.
  - intros [| [| j]] Hj; [vm_compute; discriminate | vm_compute; discriminate | lia].
  - reflexivity.
  - exists w'. split; [exact Hrun |]. split; [exact Hcalls | exact Hsleeps].
Defined.

Lemma retry_invokes_at_most_times_plus_one_witness :
  (Retry.calls (Retry.trace Scenario.start)
   < Retry.calls (Retry.trace Cases.settled))%nat
  /\ Z.of_nat (Retry.calls (Retry.trace Cases.settled))
     <= Z.of_nat (Retry.calls (Retry.trace Scenario.start)) + Z.max 3 0 + 1
  /\ (length (Retry.sleeps (Retry.trace Cases.settled))
      - length (Retry.sleeps (Retry.trace Scenario.start))
      <= Retry.calls (Retry.trace Cases.settled)
         - Retry.calls (Retry.trace Scenario.start))%nat.
Proof.
  apply (retry_invokes_at_most_times_plus_one Scenario.raw Cases.flaky 3 3
           (100 * Scenario.Millisecond) Scenario.start (Returns None) Cases.settled).
  - unfold MaxInt64. lia.
  - vm_compute. reflexivity.
Defined.

(** ** More on the conditions of the template *)

Section conditions_more.
Import Template.

Lemma holds_equals fuel sc ps name parameter value :
  service_condition_names sc ->
  String.prefix "Service" name = false ->
  find_condition name fixed_conditions = Some (FnEquals (Ref parameter) (Lit value)) ->
  holds (2 + fuel) (Conditions sc) ps name = Some (toggle ps parameter value).
Proof.
  intros Hsc Hname Hfind. unfold holds.
  replace (2 + fuel)%nat with (S (S fuel)) by lia.
  rewrite eval_S, find_condition_fixed, Hfind by assumption.
  apply eval_toggle.
Qed.

(** X11: The capacity conditions partition the deployments: whatever the
    toggles are, exactly one of [EC2Services], [FargateServicesBase] and
    [FargateServicesSpot] holds, and [EC2Services] is the negation of
    [FargateServicesEither]; the same for the timers. *)
Theorem capacity_conditions_partition fuel sc ps :
  service_condition_names sc ->
  (4 <= fuel)%nat ->
  exists ec2 base spot tec2 tbase tspot : bool,
    holds fuel (Conditions sc) ps "EC2Services" = Some ec2
    /\ holds fuel (Conditions sc) ps "FargateServicesBase" = Some base
    /\ holds fuel (Conditions sc) ps "FargateServicesSpot" = Some spot
    /\ holds fuel (Conditions sc) ps "FargateServicesEither" = Some (negb ec2)
    /\ (ec2 = true /\ base = false /\ spot = false
        \/ ec2 = false /\ base = true /\ spot = false
        \/ ec2 = false /\ base = false /\ spot = true)
    /\ holds fuel (Conditions sc) ps "EC2Timers" = Some tec2
    /\ holds fuel (Conditions sc) ps "FargateTimersBase" = Some tbase
    /\ holds fuel (Conditions sc) ps "FargateTimersSpot" = Some tspot
    /\ holds fuel (Conditions sc) ps "FargateTimersEither" = Some (negb tec2)
    /\ (tec2 = true /\ tbase = false /\ tspot = false
        \/ tec2 = false /\ tbase = true /\ tspot = false
        \/ tec2 = false /\ tbase = false /\ tspot = true).
Proof.
  intros Hsc Hfuel.
  replace fuel with (2 + (2 + (fuel - 4)))%nat by lia.
  set (f := (fuel - 4)%nat).
  assert (Hbase : forall g name parameter value,
            String.prefix "Service" name = false ->
            find_condition name fixed_conditions
            = Some (FnEquals (Ref parameter) (Lit value)) ->
            holds (2 + g) (Conditions sc) ps name = Some (toggle ps parameter value))
    by (intros; apply holds_equals; assumption).
  assert (Hor : forall name a b pa va pb vb,
            String.prefix "Service" name = false ->
            String.prefix "Service" a = false ->
            String.prefix "Service" b = false ->
            find_condition name fixed_conditions = Some (FnOr (Condition a) (Condition b)) ->
            find_condition a fixed_conditions = Some (FnEquals (Ref pa) (Lit va)) ->
            find_condition b fixed_conditions = Some (FnEquals (Ref pb) (Lit vb)) ->
            forall g,
            holds (2 + (1 + g)) (Conditions sc) ps name
            = Some (toggle ps pa va || toggle ps pb vb)).
  { intros name a b pa va pb vb Hn Ha Hb Hf Hfa Hfb g. unfold holds.
    replace (2 + (1 + g))%nat with (S (S (S g))) by lia.
    rewrite eval_S, find_condition_fixed, Hf by assumption.
    rewrite eval_S, (eval_S _ _ _ (Condition a)), (eval_S _ _ _ (Condition b)).
    rewrite !find_condition_fixed, Hfa, Hfb by assumption.
    rewrite !eval_toggle. reflexivity. }
  assert (Hnot : forall name a b c pa va pb vb,
            String.prefix "Service" name = false ->
            String.prefix "Service" a = false ->
            String.prefix "Service" b = false ->
            String.prefix "Service" c = false ->
            find_condition name fixed_conditions = Some (FnNot (Condition a)) ->
            find_condition a fixed_conditions = Some (FnOr (Condition b) (Condition c)) ->
            find_condition b fixed_conditions = Some (FnEquals (Ref pa) (Lit va)) ->
            find_condition c fixed_conditions = Some (FnEquals (Ref pb) (Lit vb)) ->
            forall g,
            holds (2 + (2 + g)) (Conditions sc) ps name
            = Some (negb (toggle ps pa va || toggle ps pb vb))).
  { intros name a b c pa va pb vb Hn Ha Hb Hc Hf Hfa Hfb Hfc g.
    pose proof (Hor a b c pa va pb vb Ha Hb Hc Hfa Hfb Hfc g) as H.
    unfold holds in *.
    replace (2 + (2 + g))%nat with (S (S (2 + g))) by lia.
    rewrite eval_S, find_condition_fixed, Hf by assumption.
    rewrite eval_S.
    replace (S (2 + g)) with (2 + (1 + g))%nat by lia.
    rewrite H. reflexivity. }
  exists (negb (toggle ps "FargateServices" "Yes" || toggle ps "FargateServices" "Spot")),
    (toggle ps "FargateServices" "Yes"), (toggle ps "FargateServices" "Spot"),
    (negb (toggle ps "FargateTimers" "Yes" || toggle ps "FargateTimers" "Spot")),
    (toggle ps "FargateTimers" "Yes"), (toggle ps "FargateTimers" "Spot").
  rewrite Bool.negb_involutive, Bool.negb_involutive.
  assert (Hexcl : forall name,
            let y := toggle ps name "Yes" in
            let s := toggle ps name "Spot" in
            negb (y || s) = true /\ y = false /\ s = false
            \/ negb (y || s) = false /\ y = true /\ s = false
            \/ negb (y || s) = false /\ y = false /\ s = true).
  { intros name. unfold toggle. simpl.
    destruct (String.eqb_spec (ps name) "Yes") as [-> | _]; simpl; [auto |].
    destruct (String.eqb (ps name) "Spot"); simpl; auto. }
  split; [apply (Hnot "EC2Services" "FargateServicesEither" "FargateServicesBase"
                   "FargateServicesSpot"); reflexivity |].
  split; [apply Hbase; reflexivity |]. split; [apply Hbase; reflexivity |].
  split; [apply (Hor "FargateServicesEither" "FargateServicesBase"
                   "FargateServicesSpot" "FargateServices" "Yes" "FargateServices" "Spot");
          reflexivity |].
  split; [apply Hexcl |].
  split; [apply (Hnot "EC2Timers" "FargateTimersEither" "FargateTimersBase"
                   "FargateTimersSpot"); reflexivity |].
  split; [apply Hbase; reflexivity |]. split; [apply Hbase; reflexivity |].
  split; [apply (Hor "FargateTimersEither" "FargateTimersBase"
                   "FargateTimersSpot" "FargateTimers" "Yes" "FargateTimers" "Spot");
          reflexivity |].
  apply Hexcl.
Qed.
End conditions_more.

Lemma capacity_conditions_partition_witness :
  exists ec2 base spot : bool,
    Template.holds 4
      (Template.Conditions [("ServiceWebFargate", Template.Condition "FargateServicesBase")])
      Template.isolated_private_parameters "EC2Services" = Some ec2
    /\ (ec2 = true /\ base = false /\ spot = false
        \/ ec2 = false /\ base = true /\ spot = false
        \/ ec2 = false /\ base = false /\ spot = true).
Proof.
  destruct (capacity_conditions_partition 4
              [("ServiceWebFargate", Template.Condition "FargateServicesBase")]
              Template.isolated_private_parameters)
    as (ec2 & base & spot & _ & _ & _ & Hec2 & _ & _ & _ & Hone & _).
  - repeat constructor.
  - lia.
  - exists ec2, base, spot. split; [exact Hec2 | exact Hone].
Defined.

(** ** More on the cron labels *)

Section cron_more.
Import Cron.
Context {Service App : Type}.
Variable ServiceName : Service -> string.
Variable LabelsByPrefix : Service -> string -> gmap string string.
Variable AppName : App -> string.

Lemma regexValidCronLabel_length name :
  regexValidCronLabel name = true -> (4 <= String.length name <= 30)%nat.
Proof.
  destruct name as [| a rest]; [discriminate |].
  unfold regexValidCronLabel.
  intros H. apply andb_true_iff in H as [H H2]. apply andb_true_iff in H as [_ H1].
  apply Nat.leb_le in H1, H2. simpl. lia.
Qed.

(** What [validate_label] accepts: keys of three segments whose third is a
    valid job name. *)
Lemma validate_label_None key :
  validate_label key = None <->
  exists a b name,
    strings.Split key "."%char = [a; b; name] /\ regexValidCronLabel name = true.
Proof.
  unfold validate_label.
  destruct (strings.Split key "."%char) as [| a [| b [| name [| x rest]]]] eqn:Hs; simpl;
    try (split; [discriminate | intros (? & ? & ? & [=] & _)]).
  destruct (regexValidCronLabel name) eqn:Hn; simpl.
  - split; [eauto | reflexivity].
  - split; [discriminate | intros (? & ? & ? & [= <- <- <-] & Hv); congruence].
Qed.

Lemma validate_labels_None labels :
  validate_labels labels = None <->
  forall key value, (key, value) ∈ labels -> validate_label key = None.
Proof.
  induction labels as [| [k v] labels IH]; simpl.
  - split; [intros _ key value H; inversion H | reflexivity].
  - destruct (validate_label k) eqn:Hk.
    + split; [discriminate |]. intros H.
      rewrite (H k v) in Hk by left. discriminate.
    + rewrite IH. split.
      * intros H key value Hin. apply elem_of_cons in Hin as [[= -> ->] | Hin]; eauto.
      * intros H key value Hin. apply (H key value). right. exact Hin.
Qed.

Lemma validate_services_None it entries :
  validate_services LabelsByPrefix it entries = None <->
  forall sn entry, (sn, entry) ∈ entries ->
    validate_labels (over_labels it (LabelsByPrefix entry "convox.cron")) = None.
Proof.
  induction entries as [| [n e] entries IH]; simpl.
  - split; [intros _ sn entry H; inversion H | reflexivity].
  - destruct (validate_labels (over_labels it (LabelsByPrefix e "convox.cron"))) eqn:He.
    + split; [discriminate |]. intros H.
      rewrite (H n e) in He by left. discriminate.
    + rewrite IH. split.
      * intros H sn entry Hin. apply elem_of_cons in Hin as [[= -> ->] | Hin]; eauto.
      * intros H sn entry Hin. apply (H sn entry). right. exact Hin.
Qed.

(** X12: [Validate] accepts a manifest exactly when the key of every cron label
    of every service has three segments separated by dots, the third a
    letter followed by 3 to 29 letters, digits or dashes.  The order in
    which the maps are visited changes at most which error is reported. *)
Theorem Validate_accepts_iff it (m : Manifest) :
  enumerates it ->
  (Validate LabelsByPrefix it m = None <->
   forall sn entry key value,
     Services m !! sn = Some entry ->
     LabelsByPrefix entry "convox.cron" !! key = Some value ->
     exists a b name,
       key = a +:+ "." +:+ b +:+ "." +:+ name
       /\ strings.Split key "."%char = [a; b; name]
       /\ regexValidCronLabel name = true
       /\ (4 <= String.length name <= 30)%nat)
  /\ (forall it', enumerates it' ->
        (Validate LabelsByPrefix it m = None
         <-> Validate LabelsByPrefix it' m = None)).
Proof.
  assert (Hiff : forall it0, enumerates it0 ->
            (Validate LabelsByPrefix it0 m = None <->
             forall sn entry key value,
               Services m !! sn = Some entry ->
               LabelsByPrefix entry "convox.cron" !! key = Some value ->
               validate_label key = None)).
  { intros it0 [Hs Hl]. unfold Validate. rewrite validate_services_None. split.
    - intros H sn entry key value Hentry Hlabel.
      pose proof (H sn entry) as Hv. rewrite validate_labels_None in Hv.
      apply (Hv ltac:(rewrite Hs; apply elem_of_map_to_list; exact Hentry) key value).
      rewrite Hl. apply elem_of_map_to_list. exact Hlabel.
    - intros H sn entry Hin. rewrite Hs in Hin. apply elem_of_map_to_list in Hin.
      apply validate_labels_None. intros key value Hkv.
      rewrite Hl in Hkv. apply elem_of_map_to_list in Hkv. eauto. }
  intros Hit. split.
  - rewrite (Hiff it Hit). split.
    + intros H sn entry key value Hentry Hlabel.
      pose proof (H sn entry key value Hentry Hlabel) as Hv.
      apply validate_label_None in Hv as (a & b & name & Hsplit & Hvalid).
      exists a, b, name. split; [| split; [exact Hsplit | split; [exact Hvalid |]]].
      * rewrite <- (Join_Split key "."%char), Hsplit. reflexivity.
      * apply regexValidCronLabel_length, Hvalid.
    + intros H sn entry key value Hentry Hlabel.
      destruct (H sn entry key value Hentry Hlabel) as (a & b & name & _ & Hsplit & Hvalid & _).
      apply validate_label_None. eauto.
  - intros it' Hit'. rewrite (Hiff it Hit), (Hiff it' Hit'). reflexivity.
Qed.

(** X13: For a label whose key the validation accepts and whose value has at
    least five fields, the job derived carries the validated name, the
    first five fields as its schedule and the remaining ones as its
    command. *)
Theorem NewCronJobFromLabel_of_valid_label key value :
  validate_label key = None ->
  (5 <= length (strings.Fields value))%nat ->
  exists job : CronJob (Service := Service) (App := App),
    NewCronJobFromLabel key value = Returns job
    /\ nth 2 (strings.Split key "."%char) "" = Name job
    /\ regexValidCronLabel (Name job) = true
    /\ (4 <= String.length (Name job) <= 30)%nat
    /\ Schedule job = "cron(" +:+ Join (take 5 (strings.Fields value)) " " +:+ " *)"
    /\ Command job = Join (drop 5 (strings.Fields value)) " "
    /\ Service_ job = None /\ App_ job = None.
Proof.
  intros Hvalid Hfields.
  apply validate_label_None in Hvalid as (a & b & name & Hsplit & Hname).
  unfold NewCronJobFromLabel. rewrite Hsplit. simpl last.
  unfold strings.slice.
  destruct (Nat.leb_spec 5 (length (strings.Fields value))); [| lia].
  rewrite Nat.leb_refl. simpl.
  eexists. split; [reflexivity |]. simpl.
  split; [reflexivity |]. split; [exact Hname |].
  split; [apply regexValidCronLabel_length, Hname |].
  split; [reflexivity |]. split; [| auto].
  f_equal. apply firstn_all2. rewrite length_skipn. lia.
Qed.

Lemma cronjobs_of_labels_ok (a : option App) (entry : Service) labels :
  (forall key value, (key, value) ∈ labels -> (5 <= length (strings.Fields value))%nat) ->
  forall cronjobs,
    exists new,
      cronjobs_of_labels a entry labels cronjobs = Returns (cronjobs ++ new)
      /\ forall job, job ∈ new <->
           exists key value c,
             (key, value) ∈ labels
             /\ NewCronJobFromLabel key value = Returns c
             /\ job = CronJobs.attach a entry c.
Proof.
  induction labels as [| [k v] labels IH]; intros Hall cronjobs; simpl.
  - exists []. rewrite app_nil_r. split; [reflexivity |].
    intros job. split; [intros H; inversion H |].
    intros (? & ? & ? & H & _). inversion H.
  - destruct (NewCronJobFromLabel_outcome (Service := Service) (App := App) k v)
      as [[Hlt _] | [_ [c Hc]]].
    { pose proof (Hall k v ltac:(left)). lia. }
    rewrite Hc. simpl.
    destruct (IH ltac:(intros key value H; apply (Hall key value); right; exact H)
                (cronjobs ++ [CronJobs.attach a entry c])) as (new & Hrun & Hnew).
    exists (CronJobs.attach a entry c :: new). split.
    + unfold CronJobs.attach in *. rewrite Hrun, <- app_assoc. reflexivity.
    + intros job. rewrite elem_of_cons, Hnew. split.
      * intros [-> | (key & value & c' & Hin & Hc' & ->)].
        -- exists k, v, c. split; [left | auto].
        -- exists key, value, c'. split; [right; exact Hin | auto].
      * intros (key & value & c' & Hin & Hc' & ->).
        apply elem_of_cons in Hin as [[= -> ->] | Hin].
        -- left. congruence.
        -- right. exists key, value, c'. auto.
Qed.

Lemma cronjobs_of_services_ok it (a : option App) entries :
  (forall sn entry key value,
     (sn, entry) ∈ entries ->
     (key, value) ∈ over_labels it (LabelsByPrefix entry "convox.cron") ->
     (5 <= length (strings.Fields value))%nat) ->
  forall cronjobs,
    exists new,
      cronjobs_of_services LabelsByPrefix it a entries cronjobs = Returns (cronjobs ++ new)
      /\ forall job, job ∈ new <->
           exists sn entry key value c,
             (sn, entry) ∈ entries
             /\ (key, value) ∈ over_labels it (LabelsByPrefix entry "convox.cron")
             /\ NewCronJobFromLabel key value = Returns c
             /\ job = CronJobs.attach a entry c.
Proof.
  induction entries as [| [n e] entries IH]; intros Hall cronjobs; simpl.
  - exists []. rewrite app_nil_r. split; [reflexivity |].
    intros job. split; [intros H; inversion H |].
    intros (? & ? & ? & ? & ? & H & _). inversion H.
  - destruct (cronjobs_of_labels_ok a e
                (over_labels it (LabelsByPrefix e "convox.cron"))
                ltac:(intros key value H; apply (Hall n e key value); [left | exact H])
                cronjobs) as (new1 & Hrun1 & Hnew1).
    rewrite Hrun1. simpl.
    destruct (IH ltac:(intros sn entry key value H; apply (Hall sn entry key value);
                       right; exact H)
                (cronjobs ++ new1)) as (new2 & Hrun2 & Hnew2).
    exists (new1 ++ new2). split; [rewrite Hrun2, <- app_assoc; reflexivity |].
    intros job. rewrite elem_of_app, Hnew1, Hnew2. split.
    + intros [(key & value & c & Hin & Hc & ->)
             | (sn & entry & key & value & c & Hin & Hkv & Hc & ->)].
      * exists n, e, key, value, c. split; [left | auto].
      * exists sn, entry, key, value, c. split; [right; exact Hin | auto].
    + intros (sn & entry & key & value & c & Hin & Hkv & Hc & ->).
      apply elem_of_cons in Hin as [[= -> ->] | Hin].
      * left. exists key, value, c. auto.
      * right. exists sn, entry, key, value, c. auto.
Qed.

(** X14: When every cron label of the manifest has at least five fields,
    [appCronJobs] returns one job for every label of every service, with
    the application and the service attached, and [LongName] is defined on
    each of them when the application is not nil: an identifier of at most
    55 characters. *)
Theorem appCronJobs_jobs it (a : option App) (m : Manifest) :
  enumerates it ->
  (forall sn entry key value,
     Services m !! sn = Some entry ->
     LabelsByPrefix entry "convox.cron" !! key = Some value ->
     (5 <= length (strings.Fields value))%nat) ->
  exists jobs,
    appCronJobs LabelsByPrefix it a (Some m) = Returns jobs
    /\ (forall job, job ∈ jobs <->
          exists sn entry key value c,
            Services m !! sn = Some entry
            /\ LabelsByPrefix entry "convox.cron" !! key = Some value
            /\ NewCronJobFromLabel key value = Returns c
            /\ job = CronJobs.attach a entry c)
    /\ (forall job rack, job ∈ jobs -> a <> None ->
          exists id, LongName ServiceName AppName rack job = Returns id
                     /\ (String.length id <= 55)%nat).
Proof.
  intros [Hs Hl] Hall. unfold appCronJobs.
  assert (Hfive : forall sn entry key value,
            (sn, entry) ∈ over_services it (Services m) ->
            (key, value) ∈ over_labels it (LabelsByPrefix entry "convox.cron") ->
            (5 <= length (strings.Fields value))%nat).
  { intros sn entry key value Hin Hkv. rewrite Hs in Hin. rewrite Hl in Hkv.
    apply elem_of_map_to_list in Hin, Hkv. eauto. }
  destruct (cronjobs_of_services_ok it a (over_services it (Services m)) Hfive
              (@nil CronJob)) as (jobs & Hrun & Hjobs).
  simpl in Hrun. exists jobs. split; [exact Hrun |].
  assert (Hchar : forall job, job ∈ jobs <->
            exists sn entry key value c,
              Services m !! sn = Some entry
              /\ LabelsByPrefix entry "convox.cron" !! key = Some value
              /\ NewCronJobFromLabel key value = Returns c
              /\ job = CronJobs.attach a entry c).
  { intros job. rewrite Hjobs. split;
      intros (sn & entry & key & value & c & Hin & Hkv & Hc & ->);
      exists sn, entry, key, value, c.
    - rewrite Hs in Hin. rewrite Hl in Hkv. apply elem_of_map_to_list in Hin, Hkv. auto.
    - rewrite Hs, Hl. rewrite !elem_of_map_to_list. auto. }
  split; [exact Hchar |].
  intros job rack Hin Ha. apply Hchar in Hin as (sn & entry & key & value & c & _ & _ & _ & ->).
  destruct a as [app |]; [| congruence].
  destruct (LongName_eq ServiceName AppName rack (CronJobs.attach (Some app) entry c) app entry
              eq_refl eq_refl) as [Heq Hhash].
  eexists. split; [exact Heq |].
  rewrite !length_append, Hhash.
  match goal with
  | |- context [if ?b then _ else _] => destruct b eqn:Hb
  end.
  - apply Nat.ltb_lt in Hb. rewrite length_substring_0; [| lia].
    change (String.length "-") with 1%nat. lia.
  - apply Nat.ltb_ge in Hb. change (String.length "-") with 1%nat. lia.
Qed.
End cron_more.

Section cron_cases.
Import Cron.

Lemma in_map_order_enumerates : enumerates Scenario.in_map_order.
Proof. split; intros m; reflexivity. Defined.

Lemma nightly_labels sn entry key value :
  Services Cases.nightly !! sn = Some entry ->
  Scenario.labels_by_prefix entry "convox.cron" !! key = Some value ->
  entry = Cases.worker
  /\ key = "convox.cron.myjob" /\ value = "30 18 ? * MON-FRI bin/myjob".
Proof.
  intros Hs Hl. simpl in Hs.
  apply lookup_insert_Some in Hs as [[_ <-] | [_ Hs]]; [| rewrite lookup_empty in Hs; discriminate].
  split; [reflexivity |].
  unfold Scenario.labels_by_prefix in Hl. apply map_lookup_filter_Some in Hl as [Hl Hp].
  simpl in Hl, Hp.
  apply lookup_insert_Some in Hl as [[<- <-] | [_ Hl]]; [split; reflexivity |].
  apply lookup_insert_Some in Hl as [[<- <-] | [_ Hl]]; [discriminate |].
  rewrite lookup_empty in Hl. discriminate.
Defined.

Lemma Validate_accepts_iff_witness :
  Validate Scenario.labels_by_prefix Scenario.in_map_order Cases.nightly = None <->
  forall sn entry key value,
    Services Cases.nightly !! sn = Some entry ->
    Scenario.labels_by_prefix entry "convox.cron" !! key = Some value ->
    exists a b name,
      key = a +:+ "." +:+ b +:+ "." +:+ name
      /\ strings.Split key "."%char = [a; b; name]
      /\ regexValidCronLabel name = true
      /\ (4 <= String.length name <= 30)%nat.
Proof.
  exact (proj1 (Validate_accepts_iff Scenario.labels_by_prefix Scenario.in_map_order
                  Cases.nightly in_map_order_enumerates)).
Defined.

Lemma NewCronJobFromLabel_of_valid_label_witness :
  exists job : CronJob (Service := Scenario.service) (App := string),
    NewCronJobFromLabel "convox.cron.myjob" "30 18 ? * MON-FRI bin/myjob" = Returns job
    /\ Name job = "myjob"
    /\ Schedule job = "cron(30 18 ? * MON-FRI *)"
    /\ Command job = "bin/myjob".
Proof.
  destruct (NewCronJobFromLabel_of_valid_label (Service := Scenario.service) (App := string)
              "convox.cron.myjob" "30 18 ? * MON-FRI bin/myjob")
    as (job & Hrun & Hname & _ & _ & Hschedule & Hcommand & _).
  - reflexivity.
  - vm_compute. lia.
  - exists job. split; [exact Hrun |].
    split; [symmetry; exact Hname |]. split; [exact Hschedule | exact Hcommand].
Defined.

Lemma appCronJobs_jobs_witness :
  exists jobs,
    appCronJobs Scenario.labels_by_prefix Scenario.in_map_order
      (Some "my-application-long") (Some Cases.nightly) = Returns jobs
    /\ forall job rack,
         job ∈ jobs ->
         exists id,
           LongName fst (fun a : string => a) rack job = Returns id
           /\ (String.length id <= 55)%nat.
Proof.
  destruct (appCronJobs_jobs fst Scenario.labels_by_prefix (fun a : string => a)
              Scenario.in_map_order (Some "my-application-long") Cases.nightly
              in_map_order_enumerates)
    as (jobs & Hrun & _ & Hlong).
  - intros sn entry key value Hs Hl.
    destruct (nightly_labels sn entry key value Hs Hl) as (_ & _ & ->).
    vm_compute. lia.
  - exists jobs. split; [exact Hrun |].
    intros job rack Hin. apply Hlong; [exact Hin | discriminate].
Defined.
End cron_cases.

(** ** Names and identifiers *)

Section naming.
Import Text Naming.

(** X15: [certificateFriendlyId] never panics.  On an ARN of fewer than six
    fields it gives the empty string; for the service [acm] it gives
    [acm-] and the text after the last dash of the sixth field; for [iam]
    the text after the first slash of the sixth field, or the empty string
    when there is no slash; for any other service the empty string. *)
Theorem certificateFriendlyId_spec arn :
  exists id,
    certificateFriendlyId arn = Returns id
    /\ ((length (strings.Split arn ":"%char) < 6)%nat -> id = "")
    /\ forall a0 a1 svc a3 a4 r rest,
         strings.Split arn ":"%char = a0 :: a1 :: svc :: a3 :: a4 :: r :: rest ->
         (svc = "acm" ->
            exists l, id = "acm-" +:+ l /\ ~ has "-"%char l
                      /\ (r = l \/ exists pre, r = pre +:+ "-" +:+ l))
         /\ (svc = "iam" ->
               (~ has "/"%char r -> id = "")
               /\ forall b c, r = b +:+ "/" +:+ c -> ~ has "/"%char b -> id = c)
         /\ (svc <> "acm" -> svc <> "iam" -> id = "").
Proof.
  unfold certificateFriendlyId.
  destruct (Nat.ltb_spec (length (strings.Split arn ":"%char)) 6) as [Hlt | Hge].
  - exists "". split; [reflexivity |]. split; [reflexivity |].
    intros a0 a1 svc a3 a4 r rest Hap. rewrite Hap in Hlt. simpl in Hlt. lia.
  - destruct (strings.Split arn ":"%char)
      as [| a0 [| a1 [| svc [| a3 [| a4 [| r rest]]]]]] eqn:Hap;
      simpl in Hge; try lia.
    change (elem (a0 :: a1 :: svc :: a3 :: a4 :: r :: rest) 2) with (Returns svc).
    change (elem (a0 :: a1 :: svc :: a3 :: a4 :: r :: rest) 5) with (Returns r).
    cbn [Go.bind].
    destruct (String.eqb_spec svc "acm") as [-> | Hacm].
    + destruct (last (strings.Split r "-"%char)) as [l |] eqn:Hlast.
      2:{ apply last_None in Hlast. destruct (Split_nonempty r "-"%char Hlast). }
      rewrite (elem_last _ _ Hlast). cbn [Go.bind].
      exists ("acm-" +:+ l). split; [reflexivity |]. split; [intros Hshort; simpl in Hshort; lia |].
      intros ? ? ? ? ? ? ? [= <- <- <- <- <- <- <-].
      split; [| split; [discriminate | congruence]].
      intros _. exists l. split; [reflexivity |].
      pose proof (Split_parts r "-"%char) as Hparts.
      pose proof (Join_Split r "-"%char) as Hjoin.
      apply last_Some in Hlast as [init Hinit]. rewrite Hinit in Hparts, Hjoin.
      split.
      * apply Forall_app in Hparts as [_ Hl]. inversion Hl; assumption.
      * destruct init as [| e init]; [left; symmetry; exact Hjoin |].
        right. rewrite Join_snoc in Hjoin by discriminate. eauto.
    + destruct (String.eqb_spec svc "iam") as [-> | Hiam].
      * unfold SplitN. destruct (cut "/"%char r) as [[b c] |] eqn:Hcut.
        -- change (elem [b; c] 1) with (Returns c). simpl.
           exists c. split; [reflexivity |]. split; [intros Hshort; simpl in Hshort; lia |].
           intros ? ? ? ? ? ? ? [= <- <- <- <- <- <- <-].
           split; [congruence |]. split; [| congruence].
           intros _. split.
           ++ intros Hno. apply cut_None in Hno. congruence.
           ++ intros b' c' Hr Hb'.
              assert (Hc : cut "/"%char r = Some (b', c')) by (apply cut_Some; auto).
              congruence.
        -- simpl. exists "". split; [reflexivity |]. split; [reflexivity |].
           intros ? ? ? ? ? ? ? [= <- <- <- <- <- <- <-].
           split; [congruence |]. split; [| reflexivity].
           intros _. split; [reflexivity |].
           intros b' c' Hr Hb'.
           assert (Hc : cut "/"%char r = Some (b', c')) by (apply cut_Some; auto).
           congruence.
      * exists "". split; [reflexivity |]. split; [reflexivity |].
        intros ? ? ? ? ? ? ? [= <- <- <- <- <- <- <-].
        split; [congruence |]. split; [congruence | reflexivity].
Qed.

(** X16: [coalesces] gives the first of its arguments that is not empty: the
    ones before it are all empty; it gives the empty string exactly when
    every argument is empty. *)
Theorem coalesces_first_nonempty ss :
  (coalesces ss = "" <-> Forall (fun s => s = "") ss)
  /\ (coalesces ss <> "" ->
        exists before after,
          ss = before ++ coalesces ss :: after
          /\ Forall (fun s => s = "") before).
Proof.
  induction ss as [| s ss [IH1 IH2]]; simpl.
  - split; [split; [constructor | reflexivity] | congruence].
  - destruct (String.eqb_spec s "") as [-> | Hs]; simpl.
    + split.
      * rewrite IH1. split; [constructor; auto |]. intros H. inversion H; assumption.
      * intros Hne. destruct (IH2 Hne) as (before & after & Heq & Hb).
        exists ("" :: before), after. split; [simpl; congruence | constructor; auto].
    + split.
      * split; [congruence |]. intros H. inversion H; subst. congruence.
      * intros _. exists [], ss. split; [reflexivity | constructor].
Qed.

(** X17: [lastline] never panics, whatever [TrimSpace] does: it returns the
    text after the last line feed of the trimmed data, which has no line
    feed in it. *)
Theorem lastline_spec TrimSpace data :
  exists line,
    lastline TrimSpace data = Returns line
    /\ ~ has "010"%char line
    /\ (TrimSpace data = line
        \/ exists before, TrimSpace data = before +:+ String "010"%char line).
Proof.
  unfold lastline.
  destruct (last (strings.Split (TrimSpace data) "010"%char)) as [l |] eqn:Hlast.
  2:{ apply last_None in Hlast. destruct (Split_nonempty _ _ Hlast). }
  rewrite (elem_last _ _ Hlast). exists l. split; [reflexivity |].
  pose proof (Split_parts (TrimSpace data) "010"%char) as Hparts.
  pose proof (Join_Split (TrimSpace data) "010"%char) as Hjoin.
  apply last_Some in Hlast as [init Hinit]. rewrite Hinit in Hparts, Hjoin.
  split.
  - apply Forall_app in Hparts as [_ Hl]. inversion Hl; assumption.
  - destruct init as [| e init]; [left; symmetry; exact Hjoin |].
    right. rewrite Join_snoc in Hjoin by discriminate. eauto.
Qed.

(** X18: [volumeTo] gives the text after the first colon, or the whole volume
    when it has no colon; the message [invalid volume] is never produced,
    whatever the formatter does. *)
Theorem volumeTo_after_first_colon quote s :
  (~ has ":"%char s -> volumeTo quote s = Returns s)
  /\ (forall b c, s = b +:+ ":" +:+ c -> ~ has ":"%char b ->
        volumeTo quote s = Returns c)
  /\ (forall quote', volumeTo quote' s = volumeTo quote s).
Proof.
  unfold volumeTo, SplitN. split; [| split].
  - intros Hno. apply cut_None in Hno. rewrite Hno. reflexivity.
  - intros b c Hs Hb.
    assert (Hc : cut ":"%char s = Some (b, c)) by (apply cut_Some; auto).
    rewrite Hc. reflexivity.
  - intros quote'. destruct (cut ":"%char s) as [[b c] |]; reflexivity.
Qed.

Lemma substring_mid a b c :
  substring (String.length a) (String.length b) (a +:+ b +:+ c) = b.
Proof.
  induction a as [| x a IH]; [| exact IH].
  change ("" +:+ b +:+ c) with (b +:+ c). simpl String.length.
  induction b as [| y b IHb]; [destruct c; reflexivity |].
  change (String y b +:+ c) with (String y (b +:+ c)). simpl. rewrite IHb. reflexivity.
Qed.

Lemma str_slice_mid a b c :
  str_slice (a +:+ b +:+ c) (len a) (len a + len b) = Returns b.
Proof.
  unfold str_slice, len. rewrite !length_append.
  destruct (Z.leb_spec 0 (Z.of_nat (String.length a))); [| lia].
  destruct (Z.leb_spec (Z.of_nat (String.length a))
              (Z.of_nat (String.length a) + Z.of_nat (String.length b))); [| lia].
  destruct (Z.leb_spec (Z.of_nat (String.length a) + Z.of_nat (String.length b))
              (Z.of_nat (String.length a + (String.length b + String.length c))));
    [| lia].
  cbn [andb]. rewrite Nat2Z.id.
  replace (Z.to_nat (Z.of_nat (String.length a) + Z.of_nat (String.length b)
                     - Z.of_nat (String.length a))) with (String.length b) by lia.
  rewrite substring_mid. reflexivity.
Qed.

Lemma Index_spec s c :
  (Index s c = -1 /\ ~ has c s)
  \/ exists pre post,
       s = pre +:+ String c post /\ ~ has c pre /\ Index s c = len pre.
Proof.
  induction s as [| a s IH]; simpl.
  - left. split; [reflexivity | apply has_nil].
  - destruct (Ascii.eqb_spec a c) as [-> | Hne].
    + right. exists "", s. split; [reflexivity |]. split; [apply has_nil | reflexivity].
    + destruct IH as [[Hi Hno] | (pre & post & -> & Hpre & Hi)].
      * left. rewrite Hi. split; [reflexivity |].
        rewrite has_String. intros [-> | H]; [congruence | tauto].
      * right. exists (String a pre), post. split; [reflexivity |].
        split; [rewrite has_String; intros [-> | H]; [congruence | tauto] |].
        rewrite Hi. unfold len. simpl String.length.
        destruct (Z.ltb_spec (Z.of_nat (String.length pre)) 0); lia.
Qed.

Lemma upper_facts c :
((upper c = "-"%char) <-> (c = "-"%char))
  /\ ((upper c = "_"%char) <-> (c = "_"%char))
  /\ ((strings.byte_of c <? 128) = true -> (strings.byte_of (upper c) <? 128) = true)
  /\ upper (upper c) = upper c.
Proof.
  destruct c as [[] [] [] [] [] [] [] []]; vm_compute;
    (split; [split; congruence | split; [split; congruence | split; congruence]]).
Qed.

Lemma is_separator_spec c :
  Ascii.eqb c "-" || Ascii.eqb c "_" = false <-> c <> "-"%char /\ c <> "_"%char.
Proof.
  destruct (Ascii.eqb_spec c "-"), (Ascii.eqb_spec c "_"); simpl;
    split; try congruence; try tauto; intros [? ?]; congruence.
Qed.

Lemma camel_plain s :
  ~ has "-"%char s -> ~ has "_"%char s -> camel false s = s.
Proof.
  induction s as [| c s IH]; [reflexivity |]. rewrite !has_String. intros Hd Hu.
  cbn [camel]. rewrite (proj2 (is_separator_spec c)) by (split; intros ->; tauto).
  rewrite IH by tauto. reflexivity.
Qed.

Lemma camel_app pre s :
  ~ has "-"%char pre -> ~ has "_"%char pre ->
  camel false (pre +:+ s) = pre +:+ camel false s.
Proof.
  induction pre as [| c pre IH]; [reflexivity |]. rewrite !has_String. intros Hd Hu.
  change (String c pre +:+ s) with (String c (pre +:+ s)). cbn [camel].
  rewrite (proj2 (is_separator_spec c)) by (split; intros ->; tauto).
  rewrite IH by tauto. reflexivity.
Qed.

(** Raising the byte first or while passing over it is the same. *)
Lemma camel_raised c s :
  c <> "_"%char -> camel false (String (upper c) s) = camel true (String c s).
Proof.
  intros Hc. destruct (upper_facts c) as (Hd & Hu & _ & _). cbn [camel].
  destruct (ascii_dec c "-") as [-> | Hne].
  - reflexivity.
  - rewrite (proj2 (is_separator_spec c)) by tauto.
    rewrite (proj2 (is_separator_spec (upper c))) by tauto. reflexivity.
Qed.

Lemma camel_Replace up s : camel up (Replace s "_" "-") = camel up s.
Proof.
  revert up. induction s as [| c s IH]; intros up; [reflexivity |].
  destruct (ascii_dec c "_") as [-> | Hne]; [simpl; apply IH |].
  apply Ascii.eqb_neq in Hne. cbn [Replace]. rewrite Hne. cbn [camel].
  rewrite !IH. reflexivity.
Qed.

Lemma camel_clean up s :
  ~ has "-"%char (camel up s) /\ ~ has "_"%char (camel up s).
Proof.
  revert up. induction s as [| c s IH]; intros up; simpl.
  - split; apply has_nil.
  - destruct (Ascii.eqb c "-" || Ascii.eqb c "_") eqn:Hsep; [apply IH |].
    apply is_separator_spec in Hsep as [Hd Hu].
    destruct (upper_facts c) as (Hd' & Hu' & _ & _).
    rewrite !has_String. destruct (IH false) as [IHd IHu].
    destruct up; split; intros [H | H]; try tauto; symmetry in H; tauto.
Qed.

Lemma is_ascii_String c s :
  is_ascii (String c s) = (strings.byte_of c <? 128) && is_ascii s.
Proof. reflexivity. Qed.

Lemma is_ascii_app s1 s2 : is_ascii (s1 +:+ s2) = is_ascii s1 && is_ascii s2.
Proof.
  induction s1 as [| c s1 IH]; [reflexivity |].
  change (String c s1 +:+ s2) with (String c (s1 +:+ s2)).
  rewrite !is_ascii_String, IH, andb_assoc. reflexivity.
Qed.

Lemma ToUpper_byte other c :
(strings.byte_of c <? 128) = true -> ToUpper other (String c "") = String (upper c) "".
Proof. intros Hc. unfold ToUpper. rewrite is_ascii_String, Hc. reflexivity. Qed.

Lemma is_ascii_Replace s : is_ascii (Replace s "_" "-") = is_ascii s.
Proof.
  induction s as [| c s IH]; [reflexivity |]. simpl Replace.
  rewrite !is_ascii_String, IH.
  destruct (Ascii.eqb_spec c "_") as [-> | Hne]; reflexivity.
Qed.

Lemma Replace_clean s : ~ has "_"%char (Replace s "_" "-").
Proof.
  induction s as [| c s IH]; [apply has_nil |]. cbn [Replace]. rewrite has_String.
  destruct (Ascii.eqb_spec c "_") as [-> | Hne]; intros [H | H];
    try tauto; try discriminate; congruence.
Qed.

Lemma length_Replace s old new : String.length (Replace s old new) = String.length s.
Proof. induction s as [| c s IH]; simpl; [| rewrite IH]; reflexivity. Qed.

(** The loop of [upperName] on an ASCII text without underscores. *)
Lemma upperName_loop_camel other fuel us :
  is_ascii us = true -> ~ has "_"%char us ->
  (String.length us < fuel)%nat ->
  upperName_loop other fuel us = Some (Returns (camel false us)).
Proof.
  revert us. induction fuel as [| fuel IH]; intros us Hascii Hu Hfuel; [lia |].
  simpl upperName_loop.
  destruct (Index_spec us "-"%char) as [[Hi Hno] | (pre & post & -> & Hpre & Hi)].
  - rewrite Hi. simpl. rewrite camel_plain by assumption. reflexivity.
  - rewrite Hi.
    assert (Hpos : 0 <= len pre) by (unfold len; lia).
    destruct (Z.eqb_spec (len pre) (-1)); [lia |].
    rewrite has_app, has_String in Hu.
    rewrite is_ascii_app, is_ascii_String in Hascii.
    apply andb_true_iff in Hascii as [Hapre Hapost].
    apply andb_true_iff in Hapost as [_ Hapost].
    rewrite length_append in Hfuel. simpl String.length in Hfuel.
    assert (Hs0 : str_slice (pre +:+ String "-" post) 0 (len pre) = Returns pre).
    { pose proof (str_slice_mid "" pre (String "-" post)) as Hmid.
      change (len "") with 0 in Hmid. rewrite Z.add_0_l in Hmid. exact Hmid. }
    rewrite Hs0.
    assert (Hlen : len (pre +:+ String "-" post) = len pre + 1 + len post).
    { unfold len. rewrite length_append. simpl String.length. lia. }
    rewrite Hlen.
    destruct post as [| c post].
    + change (len "") with 0.
      destruct (Z.gtb_spec (len pre + 1 + 0) (len pre + 1)); [lia |].
      destruct (Z.gtb_spec (len pre + 1 + 0) (len pre + 2)); [lia |].
      rewrite IH; [| exact Hapre | tauto | lia].
      rewrite camel_app by tauto. cbn [camel]. simpl.
      rewrite camel_plain by tauto. rewrite append_nil_r. reflexivity.
    + rewrite is_ascii_String in Hapost. apply andb_true_iff in Hapost as [Hc Hapost].
      rewrite has_String in Hu.
      assert (Hcu : c <> "_"%char) by (intros ->; tauto).
      assert (Hlc : len (String c post) = 1 + len post)
        by (unfold len; simpl String.length; lia).
      assert (Hpost : 0 <= len post) by (unfold len; lia).
      rewrite Hlc.
      destruct (Z.gtb_spec (len pre + 1 + (1 + len post)) (len pre + 1)); [| lia].
      assert (Hs1 : str_slice (pre +:+ String "-" (String c post))
                      (len pre + 1) (len pre + 2)
                    = Returns (String c "")).
      { pose proof (str_slice_mid (pre +:+ "-") (String c "") post) as Hmid.
        rewrite string_app_assoc in Hmid.
        replace (len (pre +:+ "-")) with (len pre + 1) in Hmid
          by (unfold len; rewrite length_append; simpl String.length; lia).
        change (len (String c "")) with 1 in Hmid.
        replace (len pre + 1 + 1) with (len pre + 2) in Hmid by lia.
        exact Hmid. }
      rewrite Hs1. cbn [Go.bind]. rewrite ToUpper_byte by exact Hc.
      assert (Hnew : (if len pre + 1 + (1 + len post) >? len pre + 2
                      then Go.bind
                             (str_slice (pre +:+ String "-" (String c post))
                                (len pre + 2) (len pre + 1 + (1 + len post)))
                             (fun rest => Returns ((pre +:+ String (upper c) "") +:+ rest))
                      else Returns (pre +:+ String (upper c) ""))
                     = Returns (pre +:+ String (upper c) post)).
      { destruct post as [| d post].
        - change (len "") with 0.
          destruct (Z.gtb_spec (len pre + 1 + (1 + 0)) (len pre + 2));
            [lia | reflexivity].
        - destruct (Z.gtb_spec (len pre + 1 + (1 + len (String d post))) (len pre + 2));
            [| unfold len in *; simpl String.length in *; lia].
          pose proof (str_slice_mid (pre +:+ String "-" (String c "")) (String d post) "")
            as Hmid.
          rewrite append_nil_r, string_app_assoc in Hmid.
          change (String "-" (String c "") +:+ String d post)
            with (String "-" (String c (String d post))) in Hmid.
          replace (len (pre +:+ String "-" (String c ""))) with (len pre + 2) in Hmid
            by (unfold len; rewrite length_append; simpl String.length; lia).
          replace (len pre + 1 + (1 + len (String d post)))
            with (len pre + 2 + len (String d post)) by lia.
          rewrite Hmid. cbn [Go.bind]. rewrite string_app_assoc. reflexivity. }
      rewrite Hnew.
      destruct (upper_facts c) as (_ & Hcu' & Hca & _).
      rewrite IH.
      * rewrite !camel_app by tauto.
        change (camel false (String "-" (String c post)))
          with (camel true (String c post)).
        rewrite camel_raised by exact Hcu. reflexivity.
      * rewrite is_ascii_app, is_ascii_String, Hapre, Hapost, (Hca Hc). reflexivity.
      * rewrite has_app, has_String. intros [Hin | [Hin | Hin]]; try tauto.
        symmetry in Hin. tauto.
      * rewrite length_append. simpl String.length. simpl String.length in Hfuel. lia.
Qed.

(** X19: On a name of ASCII bytes [upperName] ends within as many rounds as the
    name has bytes, without a panic, and gives the name in one pass: the
    dashes and underscores dropped, the first byte and every byte after a
    separator raised.  Its result has no dash and no underscore. *)
Theorem upperName_camel other fuel name :
  is_ascii name = true ->
  (String.length name < fuel)%nat ->
  upperName other fuel name = Some (Returns (camel true name))
  /\ ~ has "-"%char (camel true name)
  /\ ~ has "_"%char (camel true name)
  /\ (String.length (camel true name) <= String.length name)%nat.
Proof.
  intros Hascii Hfuel. split; [| split; [apply camel_clean | split; [apply camel_clean |]]].
  - unfold upperName. destruct name as [| c name]; [reflexivity |].
    change (String.eqb (String c name) "") with false. cbv iota.
    rewrite <- (camel_Replace true (String c name)).
    pose proof (is_ascii_Replace (String c name)) as Ha. rewrite Hascii in Ha.
    pose proof (Replace_clean (String c name)) as Hu.
    pose proof (length_Replace (String c name) "_" "-") as Hl.
    destruct (Replace (String c name) "_" "-") as [| c' name'] eqn:Hr;
      [discriminate |].
    rewrite is_ascii_String in Ha. apply andb_true_iff in Ha as [Hc' Hname'].
    rewrite has_String in Hu.
    pose proof (str_slice_mid "" (String c' "") name') as H0.
    change (str_slice (String c' name') 0 1 = Returns (String c' "")) in H0.
    rewrite H0.
    pose proof (str_slice_mid (String c' "") name' "") as H1.
    rewrite append_nil_r in H1.
    change (String c' "" +:+ name') with (String c' name') in H1.
    change (len (String c' "")) with 1 in H1.
    replace (1 + len name') with (len (String c' name')) in H1
      by (unfold len; simpl String.length; lia).
    rewrite H1. rewrite ToUpper_byte by exact Hc'.
    change (String (upper c') "" +:+ name') with (String (upper c') name').
    destruct (upper_facts c') as (_ & Hcu & Hca & _).
    rewrite upperName_loop_camel.
    + rewrite camel_raised by (intros ->; apply Hu; left; reflexivity). reflexivity.
    + rewrite is_ascii_String, (Hca Hc'), Hname'. reflexivity.
    + rewrite has_String. intros [Hin | Hin]; [| tauto].
      symmetry in Hin. apply Hcu in Hin. subst c'. apply Hu. left. reflexivity.
    + simpl String.length in *. lia.
  - clear Hascii Hfuel. generalize true as up.
    induction name as [| c name IH]; intros up; simpl; [lia |].
    destruct (Ascii.eqb c "-" || Ascii.eqb c "_").
    + specialize (IH true). lia.
    + simpl. specialize (IH false). lia.
Qed.
End naming.

(** ** Random identifiers *)

Section identifiers.
Import Text Naming.
Variable rng : nat -> Z.

(** The loop that fills a slice from an alphabet takes one draw for each
    rune and stays inside the alphabet. *)
Lemma fill_spec alphabet n k :
  alphabet <> [] ->
  exists b,
    fill rng alphabet n k = Returns (b, (k + n)%nat)
    /\ length b = n
    /\ forall i, (i < n)%nat ->
         b !! i = alphabet !! Z.to_nat (rng (k + i)%nat mod Z.of_nat (length alphabet)).
Proof.
  intros Hne. revert k. induction n as [| n IH]; intros k.
  - exists []. rewrite Nat.add_0_r. split; [reflexivity |]. split; [reflexivity |]. lia.
  - simpl fill. unfold Retry.Intn.
    assert (Hlen : 0 < Z.of_nat (length alphabet)) by (destruct alphabet; simpl; [congruence | lia]).
    destruct (Z.leb_spec (Z.of_nat (length alphabet)) 0); [lia |]. cbn [Go.bind].
    pose proof (Z.mod_pos_bound (rng k) _ Hlen) as Hj.
    destruct (alphabet !! Z.to_nat (rng k mod Z.of_nat (length alphabet))) as [r |] eqn:Hr.
    2:{ apply lookup_ge_None in Hr. lia. }
    unfold elem. destruct (Z.ltb_spec (rng k mod Z.of_nat (length alphabet)) 0); [lia |].
    rewrite Hr. cbn [Go.bind].
    destruct (IH (S k)) as (b & Hrun & Hb & Hat). rewrite Hrun. cbn [Go.bind].
    exists (r :: b). replace (k + S n)%nat with (S k + n)%nat by lia.
    split; [reflexivity |]. split; [simpl; lia |].
    intros [| i] Hi.
    + rewrite Nat.add_0_r. simpl. symmetry. exact Hr.
    + simpl. rewrite (Hat i) by lia. replace (S k + i)%nat with (k + S i)%nat by lia.
      reflexivity.
Qed.

(** X20: [generateId] with a size that is not negative gives the prefix
    followed by [size] capital letters, the i-th of them chosen by the
    i-th draw of the random source, and takes [size] draws. *)
Theorem generateId_letters prefix size k :
  0 <= size ->
  exists b,
    generateId rng prefix size k
    = Returns (prefix +:+ string_of_list_ascii b, (k + Z.to_nat size)%nat)
    /\ Z.of_nat (length b) = size
    /\ Forall (fun a => 65 <= strings.byte_of a <= 90) b
    /\ (forall i, (i < Z.to_nat size)%nat ->
          b !! i = idAlphabet !! Z.to_nat (rng (k + i)%nat mod 26)).
Proof.
  intros Hsize. unfold generateId, make.
  destruct (Z.ltb_spec size 0); [lia |]. cbn [Go.bind].
  destruct (fill_spec idAlphabet (Z.to_nat size) k ltac:(discriminate))
    as (b & Hrun & Hlen & Hat).
  rewrite Hrun. cbn [Go.bind]. exists b. split; [reflexivity |].
  split; [lia |]. split; [| exact Hat].
  apply Forall_lookup. intros i a Hi.
  assert (Hlt : (i < Z.to_nat size)%nat) by (apply lookup_lt_Some in Hi; lia).
  rewrite (Hat i Hlt) in Hi. apply list_elem_of_lookup_2 in Hi.
  revert a Hi. apply Forall_forall. unfold idAlphabet. simpl.
  repeat (constructor; [vm_compute; split; discriminate |]). constructor.
Qed.

(** X22: A negative size makes [generateId] and [randomString] panic in
    [make], before any draw. *)
Theorem negative_size_panics prefix size k :
  size < 0 ->
  generateId rng prefix size k = Panics "makeslice: len out of range"
  /\ randomString rng size k = Panics "makeslice: len out of range".
Proof.
  intros Hsize. unfold generateId, randomString, make.
  destruct (Z.ltb_spec size 0); [split; reflexivity | lia].
Qed.

(** X21: [randomString] gives [size] letters, capital or small, and takes
    [size] draws. *)
Theorem randomString_letters size k :
  0 <= size ->
  exists b,
    randomString rng size k
    = Returns (string_of_list_ascii b, (k + Z.to_nat size)%nat)
    /\ Z.of_nat (length b) = size
    /\ Forall (fun a => Cron.is_letter a = true) b
    /\ (forall i, (i < Z.to_nat size)%nat ->
          b !! i = randomAlphabet !! Z.to_nat (rng (k + i)%nat mod 52)).
Proof.
  intros Hsize. unfold randomString, make.
  destruct (Z.ltb_spec size 0); [lia |]. cbn [Go.bind].
  destruct (fill_spec randomAlphabet (Z.to_nat size) k ltac:(discriminate))
    as (b & Hrun & Hlen & Hat).
  rewrite Hrun. cbn [Go.bind]. exists b. split; [reflexivity |].
  split; [lia |]. split; [| exact Hat].
  apply Forall_lookup. intros i a Hi.
  assert (Hlt : (i < Z.to_nat size)%nat) by (apply lookup_lt_Some in Hi; lia).
  rewrite (Hat i Hlt) in Hi. apply list_elem_of_lookup_2 in Hi.
  revert a Hi. apply Forall_forall. unfold randomAlphabet. simpl.
  repeat (constructor; [reflexivity |]). constructor.
Qed.
End identifiers.

Section naming_cases.
Import Text Naming.

Lemma upperName_camel_witness :
  upperName (fun s => s) 15 "my_web-service" = Some (Returns "MyWebService").
Proof.
  exact (proj1 (upperName_camel (fun s => s) 15 "my_web-service"
                  ltac:(reflexivity) ltac:(simpl; lia))).
Defined.

Lemma generateId_letters_witness :
  exists b,
    generateId Cases.dice "R" 3 0
    = Returns ("R" +:+ string_of_list_ascii b, (0 + Z.to_nat 3)%nat)
    /\ Z.of_nat (length b) = 3.
Proof.
  destruct (generateId_letters Cases.dice "R" 3 0) as (b & Hrun & Hlen & _).
  - lia.
  - exists b. split; [exact Hrun | exact Hlen].
Defined.

Lemma negative_size_panics_witness :
  generateId Cases.dice "R" (-1) 0 = Panics "makeslice: len out of range"
  /\ randomString Cases.dice (-1) 0 = Panics "makeslice: len out of range".
Proof.
  apply (negative_size_panics Cases.dice "R" (-1) 0). lia.
Defined.

Lemma randomString_letters_witness :
  exists b,
    randomString Cases.dice 4 0
    = Returns (string_of_list_ascii b, (0 + Z.to_nat 4)%nat)
    /\ Z.of_nat (length b) = 4.
Proof.
  destruct (randomString_letters Cases.dice 4 0) as (b & Hrun & Hlen & _).
  - lia.
  - exists b. split; [exact Hrun | exact Hlen].
Defined.
End naming_cases.

(** ** Values of a stack *)

Section stack_values.
Import aws StackValues.
Context {R : Type} (A : api R).

Lemma values_of_cons k p ps :
  values_of k (p :: ps)
  = match (if decide (ParameterKey p = Some k) then ParameterValue p else None) with
    | Some v => v :: values_of k ps
    | None => values_of k ps
    end.
Proof. reflexivity. Qed.

Lemma parameters_loop_spec ps :
  Forall (fun p => is_Some (ParameterKey p) /\ is_Some (ParameterValue p)) ps ->
  forall m0,
    exists m,
      parameters_loop ps m0 = Returns m
      /\ forall k, m !! k = match last (values_of k ps) with
                            | Some v => Some v
                            | None => m0 !! k
                            end.
Proof.
  induction 1 as [| p ps [[k Hk] [v Hv]] _ IH]; intros m0.
  - exists m0. split; [reflexivity |]. intros k. reflexivity.
  - simpl parameters_loop. rewrite Hk, Hv.
    destruct (IH (<[k := v]> m0)) as (m & Hrun & Hm).
    exists m. split; [exact Hrun |]. intros k'. rewrite Hm.
    rewrite values_of_cons, Hk, Hv.
    destruct (decide (Some k = Some k')) as [[= ->] | Hne].
    + rewrite lookup_insert_eq.
      destruct (values_of k' ps) as [| x l] eqn:Hl; [reflexivity |].
      change (last (v :: x :: l)) with (last (x :: l)).
      destruct (last (x :: l)) eqn:Hlast; [reflexivity |].
      apply last_None in Hlast. discriminate.
    + rewrite lookup_insert_ne by congruence. reflexivity.
Qed.

Lemma find_parameter_spec ps param :
  Forall (fun p => is_Some (ParameterKey p) /\ is_Some (ParameterValue p)) ps ->
  find_parameter ps param = Returns (head (values_of param ps)).
Proof.
  induction 1 as [| p ps [[k Hk] [v Hv]] _ IH]; [reflexivity |].
  simpl find_parameter. rewrite values_of_cons, Hk, Hv.
  destruct (String.eqb_spec k param) as [-> | Hne].
  - rewrite decide_True by reflexivity. reflexivity.
  - rewrite decide_False by congruence. exact IH.
Qed.

Lemma values_of_NoDup k ps :
  NoDup (ParameterKey <$> ps) -> (length (values_of k ps) <= 1)%nat.
Proof.
  induction ps as [| p ps IH]; intros Hnd; [simpl; lia |].
  rewrite fmap_cons in Hnd. apply NoDup_cons in Hnd as [Hp Hnd].
  rewrite values_of_cons.
  destruct (decide (ParameterKey p = Some k)) as [Hk | Hk]; [| apply IH, Hnd].
  assert (Hnil : values_of k ps = []).
  { destruct (values_of k ps) as [| x l] eqn:Hl; [reflexivity |].
    exfalso. assert (Hx : x ∈ values_of k ps) by (rewrite Hl; left).
    unfold values_of in Hx. apply list_elem_of_omap in Hx as (q & Hq & Hqv).
    destruct (decide (ParameterKey q = Some k)) as [Hqk |]; [| discriminate].
    apply Hp. rewrite Hk, <- Hqk. apply list_elem_of_fmap. eauto. }
  rewrite Hnil. destruct (ParameterValue p); simpl; lia.
Qed.

(** X23: On a stack whose parameters all carry a key and a value,
    [stackParameters] gives the map from every key to the value of the
    last parameter that has it, and nothing else. *)
Theorem stackParameters_last st :
  Forall (fun p => is_Some (ParameterKey p) /\ is_Some (ParameterValue p))
         (StackParameters st) ->
  exists m,
    stackParameters (Some st) = Returns m
    /\ forall k, m !! k = last (values_of k (StackParameters st)).
Proof.
  intros Hall. destruct (parameters_loop_spec _ Hall ∅) as (m & Hrun & Hm).
  exists m. split; [exact Hrun |]. intros k. rewrite Hm, lookup_empty.
  destruct (last _); reflexivity.
Qed.

(** X25: [Provider.stackParameter] answers with the value of the first
    parameter of the described stack that has the key, and with the error
    [parameter not found] when there is none; it passes the error of the
    description on.  When no key occurs twice it agrees with the map of
    [stackParameters]. *)
Theorem stackParameter_first p stack param w st w' :
  describeStack A p stack w = (Returns (Ok st), w') ->
  Forall (fun q => is_Some (ParameterKey q) /\ is_Some (ParameterValue q))
         (StackParameters st) ->
  stackParameter A p stack param w
  = (Returns (match head (values_of param (StackParameters st)) with
              | Some v => Ok v
              | None => Err (Errorf ("parameter not found: " +:+ param))
              end), w')
  /\ (NoDup (ParameterKey <$> StackParameters st) ->
      exists m, stackParameters (Some st) = Returns m
                /\ m !! param = head (values_of param (StackParameters st))).
Proof.
  intros Hd Hall. split.
  - unfold stackParameter, mbind. rewrite Hd.
    rewrite (find_parameter_spec _ param Hall).
    destruct (head _); reflexivity.
  - intros Hnd. destruct (parameters_loop_spec _ Hall ∅) as (m & Hrun & Hm).
    exists m. split; [exact Hrun |]. rewrite Hm, lookup_empty.
    pose proof (values_of_NoDup param _ Hnd) as Hlen.
    destruct (values_of param (StackParameters st)) as [| x [| y l]];
      simpl in *; [reflexivity | reflexivity | lia].
Qed.

Lemma tags_loop_spec ts :
  Forall (fun t => is_Some (Key t) /\ is_Some (Value t)) ts ->
  forall m0,
    exists m,
      tags_loop ts m0 = Returns m
      /\ forall k, m !! k = match last (tag_values_of k ts) with
                            | Some v => Some v
                            | None => m0 !! k
                            end.
Proof.
  induction 1 as [| t ts [[k Hk] [v Hv]] _ IH]; intros m0.
  - exists m0. split; [reflexivity |]. intros k. reflexivity.
  - simpl tags_loop. rewrite Hk, Hv.
    destruct (IH (<[k := v]> m0)) as (m & Hrun & Hm).
    exists m. split; [exact Hrun |]. intros k'. rewrite Hm.
    change (tag_values_of k' (t :: ts))
      with (match (if decide (Key t = Some k') then Value t else None) with
            | Some v => v :: tag_values_of k' ts
            | None => tag_values_of k' ts
            end).
    rewrite Hk, Hv.
    destruct (decide (Some k = Some k')) as [[= ->] | Hne].
    + rewrite lookup_insert_eq.
      destruct (tag_values_of k' ts) as [| x l] eqn:Hl; [reflexivity |].
      change (last (v :: x :: l)) with (last (x :: l)).
      destruct (last (x :: l)) eqn:Hlast; [reflexivity |].
      apply last_None in Hlast. discriminate.
    + rewrite lookup_insert_ne by congruence. reflexivity.
Qed.

(** X24: [stackTags] gives the map from every tag key to the value of the last
    tag that has it; a stack without tags gives the empty map, and a tag
    without key or value makes it panic. *)
Theorem stackTags_last st :
  (Forall (fun t => is_Some (Key t) /\ is_Some (Value t)) (StackTags st) ->
   exists m,
     stackTags (Some st) = Returns m
     /\ forall k, m !! k = last (tag_values_of k (StackTags st)))
  /\ (forall before t after,
        StackTags st = before ++ t :: after ->
        Forall (fun t => is_Some (Key t) /\ is_Some (Value t)) before ->
        Key t = None \/ Value t = None ->
        stackTags (Some st) = Panics nil_dereference).
Proof.
  split.
  - intros Hall. destruct (tags_loop_spec _ Hall ∅) as (m & Hrun & Hm).
    exists m. split; [exact Hrun |]. intros k. rewrite Hm, lookup_empty.
    destruct (last _); reflexivity.
  - intros before t after Heq Hall Hnil. unfold stackTags. rewrite Heq. clear Heq.
    generalize (∅ : gmap string string) as m0.
    induction Hall as [| t0 before [[k Hk] [v Hv]] _ IH]; intros m0.
    + simpl. destruct Hnil as [-> | Hv]; [reflexivity |].
      rewrite Hv. destruct (Key t); reflexivity.
    + simpl. rewrite Hk, Hv. apply IH.
Qed.
End stack_values.

Section stack_values_cases.
Import aws StackValues.

Lemma live_stack_parameters :
  Forall (fun q => is_Some (ParameterKey q) /\ is_Some (ParameterValue q))
         (StackParameters Scenario.live_stack).
Proof. repeat (constructor; [split; eexists; reflexivity |]). constructor. Defined.

Lemma stackParameters_last_witness :
  exists m,
    stackParameters (Some Scenario.live_stack) = Returns m
    /\ forall k, m !! k = last (values_of k (StackParameters Scenario.live_stack)).
Proof.
  exact (stackParameters_last Scenario.live_stack live_stack_parameters).
Defined.

Lemma stackParameter_first_witness :
  fst (stackParameter (Scenario.provider_api true None) (Scenario.provider false)
         "rack-app" "B" Scenario.cold) = Returns (Ok "2").
Proof.
  destruct (stackParameter_first
              (Scenario.provider_api true None) (Scenario.provider false)
              "rack-app" "B" Scenario.cold Scenario.live_stack
              (snd (describeStack (Scenario.provider_api true None)
                      (Scenario.provider false) "rack-app" Scenario.cold)))
    as [Hrun _].
  - vm_compute. reflexivity.
  - exact live_stack_parameters.
  - rewrite Hrun. reflexivity.
Defined.
End stack_values_cases.

(** ** Batched deletion *)

Section dynamo.
Import Dynamo.
Context {WR St : Type}.
Variable BatchWriteItem : string -> list WR -> St -> option error * St.

Lemma batches_app (tr1 tr2 : list (event WR)) :
  batches (tr1 ++ tr2) = batches tr1 ++ batches tr2.
Proof. unfold batches. apply omap_app. Qed.

Lemma slice_chunk (wrs : list WR) (i high : Z) :
  0 <= i <= high -> high <= Z.of_nat (length wrs) ->
  slice wrs i high = Returns (take (Z.to_nat (high - i)) (drop (Z.to_nat i) wrs)).
Proof.
  intros Hi Hh. unfold slice.
  destruct (Z.leb_spec 0 i); [| lia]. destruct (Z.leb_spec i high); [| lia].
  destruct (Z.leb_spec high (Z.of_nat (length wrs))); [| lia]. reflexivity.
Qed.

(** The loop over the chunks: it sends chunks of the requests from index
    [i] on, in order, until one fails. *)
Lemma chunks_loop_answers (wrs : list WR) tableName :
  Z.of_nat (length wrs) + 25 <= MaxInt64 ->
  forall fuel i w,
    0 <= i -> i <= Z.of_nat (length wrs) + 25 ->
    (Z.to_nat (Z.of_nat (length wrs) - i) < fuel)%nat ->
    exists err w' sent rest errs,
      chunks_loop BatchWriteItem fuel wrs tableName 25 i w = Some (Returns err, w')
      /\ trace w' = trace w ++ (BatchWrite tableName <$> sent)
      /\ drop (Z.to_nat i) wrs = concat sent ++ rest
      /\ (forall before items after,
            sent = before ++ items :: after ->
            (0 < length items)%nat
            /\ length items
               = Nat.min 25 (length (drop (Z.to_nat i) wrs) - length (concat before)))
      /\ answers BatchWriteItem sent tableName (remote w) = (errs, remote w')
      /\ match err with
         | None => Forall (fun e => e = None) errs /\ rest = []
         | Some e =>
             exists before, errs = before ++ [Some e] /\ Forall (fun e => e = None) before
         end.
Proof.
  intros Hmax. induction fuel as [| fuel IH]; intros i w Hi Hle Hfuel; [lia |].
  simpl chunks_loop.
  destruct (Z.ltb_spec i (Z.of_nat (length wrs))) as [Hlt | Hge].
  - assert (Hw : wrap64 (i + 25) = i + 25).
    { apply wrap64_id. unfold in_int64, MinInt64, MaxInt64 in *. lia. }
    rewrite Hw.
    set (high := if i + 25 >? Z.of_nat (length wrs)
                 then Z.of_nat (length wrs) else i + 25).
    assert (Hhigh : i < high <= Z.of_nat (length wrs) /\ high <= i + 25
                    /\ (high = i + 25 \/ high = Z.of_nat (length wrs))).
    { unfold high. destruct (Z.gtb_spec (i + 25) (Z.of_nat (length wrs))); lia. }
    rewrite slice_chunk by lia.
    set (items := take (Z.to_nat (high - i)) (drop (Z.to_nat i) wrs)).
    assert (Hitems : length items = Z.to_nat (high - i)).
    { unfold items. rewrite length_take, length_drop. lia. }
    assert (Hmin : length items
                   = Nat.min 25 (length (drop (Z.to_nat i) wrs))).
    { rewrite Hitems, length_drop. lia. }
    destruct (BatchWriteItem tableName items (remote w)) as [[e |] r] eqn:Hcall.
    + exists (Some e), (World r (trace w ++ [BatchWrite tableName items])), [items],
        (drop (Z.to_nat (high - i)) (drop (Z.to_nat i) wrs)), [Some e].
      split; [reflexivity |]. split; [reflexivity |].
      split; [simpl; rewrite app_nil_r; unfold items; rewrite take_drop; reflexivity |].
      split.
      { intros before x after Heq.
        destruct before as [| b before]; simpl in Heq.
        - injection Heq as <- _. simpl. rewrite Nat.sub_0_r. split; [lia | exact Hmin].
        - injection Heq as _ Heq. destruct before; discriminate. }
      split; [simpl; rewrite Hcall; reflexivity |].
      exists []. split; [reflexivity | constructor].
    + destruct (IH (i + 25) (World r (trace w ++ [BatchWrite tableName items])))
        as (err & w' & sent & rest & errs & Hrun & Htrace & Hdrop & Hlen & Hans & Herr);
        [lia | lia | lia |].
      exists err, w', (items :: sent), rest, (None :: errs).
      split; [exact Hrun |].
      split; [rewrite Htrace; simpl; rewrite <- app_assoc; reflexivity |].
      split.
      { simpl. rewrite <- app_assoc, <- Hdrop.
        destruct (Z.gtb_spec (i + 25) (Z.of_nat (length wrs))) as [Hover | Hin].
        * assert (Hall : items = drop (Z.to_nat i) wrs).
          { unfold items. apply take_ge. rewrite length_drop. unfold high.
            destruct (Z.gtb_spec (i + 25) (Z.of_nat (length wrs))); lia. }
          rewrite Hall, (drop_ge wrs (Z.to_nat (i + 25))) by lia.
          rewrite app_nil_r. reflexivity.
        * assert (Hh : high = i + 25).
          { unfold high. destruct (Z.gtb_spec (i + 25) (Z.of_nat (length wrs))); lia. }
          unfold items. rewrite Hh.
          replace (Z.to_nat (i + 25)) with (Z.to_nat i + Z.to_nat (i + 25 - i))%nat by lia.
          rewrite <- drop_drop, take_drop. reflexivity. }
      split.
      { intros before x after Heq.
        destruct before as [| b before]; simpl in Heq.
        - injection Heq as <- _. simpl. rewrite Nat.sub_0_r. split; [lia | exact Hmin].
        - injection Heq as <- Heq.
          destruct (Hlen before x after Heq) as [Hpos Hx]. split; [exact Hpos |].
          rewrite Hx. change (concat (items :: before)) with (items ++ concat before).
          rewrite length_app, Hmin, !length_drop. lia. }
      split; [simpl; rewrite Hcall; cbn [remote] in Hans; rewrite Hans; reflexivity |].
      destruct err as [e |].
      * destruct Herr as (before & -> & Hbefore).
        exists (None :: before). split; [reflexivity | constructor; auto].
      * destruct Herr as [Hall Hrest]. split; [constructor; auto | exact Hrest].
  - exists None, w, [], (drop (Z.to_nat i) wrs), [].
    split; [reflexivity |]. split; [simpl; rewrite app_nil_r; reflexivity |].
    split; [reflexivity |].
    split; [intros before x after Heq; destruct before; discriminate |].
    split; [reflexivity |].
    split; [constructor | apply drop_ge; lia].
Qed.

(** X26: for fewer than MaxInt64 - 25 requests [dynamoBatchDeleteItems]
    ends without a panic.  It writes to the one table only, in chunks
    that follow one another in the order of the input, each of 25
    requests or, at the end of the input, of what is left.  It stops at
    the first chunk the service rejects and returns the error of that
    chunk: every chunk before the last one sent was accepted, an error
    returned is the answer to the last chunk sent, and nil is returned
    only when every chunk was accepted and the whole input was sent.  The
    service is left in the state these requests put it in.  On an empty
    input nothing is sent and one line is printed. *)
Theorem dynamoBatchDeleteItems_chunks fuel (wrs : list WR) tableName w :
  Z.of_nat (length wrs) + 25 <= MaxInt64 ->
  (length wrs < fuel)%nat ->
  exists err w' sent rest errs,
    dynamoBatchDeleteItems BatchWriteItem fuel wrs tableName w = Some (Returns err, w')
    /\ (wrs <> [] -> trace w' = trace w ++ (BatchWrite tableName <$> sent))
    /\ (wrs = [] -> trace w' = trace w ++ [Println no_builds] /\ sent = [])
    /\ Forall (fun items => (0 < length items <= 25)%nat) sent
    /\ wrs = concat sent ++ rest
    /\ (forall before items after,
          sent = before ++ items :: after ->
          length items = Nat.min 25 (length wrs - length (concat before)))
    /\ answers BatchWriteItem sent tableName (remote w) = (errs, remote w')
    /\ match err with
       | None => Forall (fun e => e = None) errs /\ rest = []
       | Some e =>
           exists before, errs = before ++ [Some e] /\ Forall (fun e => e = None) before
       end.
Proof.
  intros Hmax Hfuel. unfold dynamoBatchDeleteItems.
  destruct (Z.gtb_spec (Z.of_nat (length wrs)) 0) as [Hpos | Hempty].
  - destruct (Z.leb_spec (Z.of_nat (length wrs)) 25) as [Hsmall | Hlarge].
    + destruct (BatchWriteItem tableName wrs (remote w)) as [err r] eqn:Hcall.
      exists err, (World r (trace w ++ [BatchWrite tableName wrs])), [wrs], [], [err].
      split; [reflexivity |]. split; [reflexivity |].
      split; [intros ->; simpl in Hpos; lia |].
      split; [constructor; [lia | constructor] |].
      split; [simpl; rewrite !app_nil_r; reflexivity |].
      split.
      { intros before x after Heq. destruct before as [| b before]; simpl in Heq.
        - injection Heq as <- _. cbn [concat length]. rewrite Nat.sub_0_r. lia.
        - injection Heq as _ Heq. destruct before; discriminate. }
      split; [simpl; rewrite Hcall; reflexivity |].
      destruct err as [e |].
      * exists []. split; [reflexivity | constructor].
      * split; [repeat constructor | reflexivity].
    + destruct (chunks_loop_answers wrs tableName Hmax fuel 0 w)
        as (err & w' & sent & rest & errs & Hrun & Htrace & Hdrop & Hlen & Hans & Herr);
        [lia | lia | lia |].
      exists err, w', sent, rest, errs.
      split; [exact Hrun |]. split; [intros _; exact Htrace |].
      split; [intros ->; simpl in Hpos; lia |].
      split.
      { apply Forall_forall. intros x Hx.
        apply list_elem_of_split in Hx as (before & after & Heq).
        destruct (Hlen before x after Heq) as [Hp Hx]. lia. }
      split; [exact Hdrop |].
      split; [intros before x after Heq; apply (Hlen before x after Heq) |].
      split; [exact Hans | exact Herr].
  - assert (Hnil : wrs = []) by (destruct wrs; [reflexivity | simpl in Hempty; lia]).
    exists None, (World (remote w) (trace w ++ [Println no_builds])), [], [], [].
    split; [reflexivity |]. split; [congruence |].
    split; [intros _; split; reflexivity |].
    split; [constructor |]. split; [exact Hnil |].
    split; [intros before x after Heq; destruct before; discriminate |].
    split; [reflexivity |]. split; [constructor | reflexivity].
Qed.
End dynamo.

Section dynamo_cases.
Import Dynamo.

(** Sixty requests, to a service that rejects what comes after the first
    fifty: two chunks are accepted, the third is rejected and nothing is
    sent after it. *)
Lemma dynamoBatchDeleteItems_chunks_witness :
  exists w' sent rest errs before,
    dynamoBatchDeleteItems Cases.throttled 61 (seq 0 60) "builds" (World 0%nat [])
    = Some (Returns (Some (Errorf "throttled")), w')
    /\ seq 0 60 = concat sent ++ rest
    /\ answers Cases.throttled sent "builds" 0%nat = (errs, remote w')
    /\ errs = before ++ [Some (Errorf "throttled")]
    /\ Forall (fun e => e = None) before.
Proof.
  destruct (dynamoBatchDeleteItems_chunks Cases.throttled 61 (seq 0 60) "builds"
              (World 0%nat []))
    as (err & w' & sent & rest & errs & Hrun & _ & _ & _ & Hall & _ & Hans & Herr).
  - rewrite length_seq. unfold MaxInt64. lia.
  - rewrite length_seq. lia.
  - assert (He : err = Some (Errorf "throttled")).
    { vm_compute in Hrun. injection Hrun as <- _. reflexivity. }
    subst err. destruct Herr as (before & Herrs & Hbefore).
    exists w', sent, rest, errs, before. auto.
Defined.
End dynamo_cases.

(** ** Writing log events *)

Section logs.
Import Logs.
Context {Ev St : Type} (A : api Ev St).

Lemma puts_app (cs1 cs2 : list (call Ev)) : puts (cs1 ++ cs2) = (puts cs1 + puts cs2)%nat.
Proof. unfold puts. rewrite List.filter_app, length_app. reflexivity. Qed.

(** The loop entered after [a] failed attempts. *)
Lemma putLogEvents_loop_spec fuel :
  forall (a : nat) req w,
    (a <= 3)%nat -> (4 <= fuel + a)%nat ->
    exists out req' w' calls,
      putLogEvents_loop A fuel req (Z.of_nat a) w = Some (out, req', w')
      /\ log w' = log w ++ CallPutLogEvents req :: calls
      /\ (puts calls + a <= 3)%nat
      /\ (length calls + a <= puts calls + 3)%nat
      /\ LogEvents req' = LogEvents req
      /\ LogGroupName req' = LogGroupName req
      /\ LogStreamName req' = LogStreamName req
      /\ (forall t, out = Returns (Ok t) ->
            exists before last_req st st',
              CallPutLogEvents req :: calls = before ++ [CallPutLogEvents last_req]
              /\ PutLogEvents A last_req st = (Ok (Some t), st')).
Proof.
  induction fuel as [| fuel IH]; intros a req w Ha Hfuel; [lia |].
  simpl putLogEvents_loop.
  destruct (PutLogEvents A req (remote w)) as [[[t |] | err] st] eqn:Hput.
  - exists (Returns (Ok t)), req, (World st (log w ++ [CallPutLogEvents req])), [].
    repeat (split; [first [reflexivity | unfold puts; simpl; lia] |]).
    intros t' [= <-]. exists [], req, (remote w), st. split; [reflexivity | exact Hput].
  - exists (Panics aws.nil_dereference), req,
      (World st (log w ++ [CallPutLogEvents req])), [].
    repeat (split; [first [reflexivity | unfold puts; simpl; lia] |]). discriminate.
  - assert (Hw : wrap64 (Z.of_nat a + 1) = Z.of_nat (S a)).
    { rewrite wrap64_id; [lia |]. unfold in_int64, MinInt64, MaxInt64. lia. }
    rewrite Hw.
    destruct (Z.gtb_spec (Z.of_nat (S a)) 3) as [Hover | Hin].
    { exists (Returns (Err err)), req, (World st (log w ++ [CallPutLogEvents req])), [].
      repeat (split; [first [reflexivity | unfold puts; simpl; lia] |]). discriminate. }
    destruct (String.eqb (awsError err) "ResourceNotFoundException").
    { cbn [remote log].
      destruct (CreateLogStream A (LogGroupName req) (LogStreamName req) st)
        as [[e |] st2].
      - eexists (Returns (Err e)), req, _, [_].
        split; [reflexivity |].
        split; [cbn [log]; rewrite <- app_assoc; reflexivity |].
        repeat (split; [first [reflexivity | unfold puts; simpl; lia] |]). discriminate.
      - destruct (IH (S a) req
                    (World st2 ((log w ++ [CallPutLogEvents req])
                                ++ [CallCreateLogStream (LogGroupName req)
                                                        (LogStreamName req)])))
          as (out & req' & w' & calls & Hrun & Hlog & Hputs & Hlen & He & Hg & Hs & Hok);
          [lia | lia |].
        exists out, req', w',
          (CallCreateLogStream (LogGroupName req) (LogStreamName req)
           :: CallPutLogEvents req :: calls).
        split; [exact Hrun |].
        split; [rewrite Hlog; cbn [log]; rewrite <- !app_assoc; reflexivity |].
        split; [unfold puts in *; simpl; lia |].
        split; [unfold puts in *; simpl; lia |].
        split; [exact He |]. split; [exact Hg |]. split; [exact Hs |].
        intros t Hout. destruct (Hok t Hout) as (before & lr & s1 & s2 & Heq & Hlast).
        exists (CallPutLogEvents req
                :: CallCreateLogStream (LogGroupName req) (LogStreamName req) :: before),
          lr, s1, s2.
        split; [simpl; rewrite <- Heq; reflexivity | exact Hlast]. }
    destruct (String.eqb (awsError err) "InvalidSequenceTokenException").
    { cbn [remote log].
      destruct (DescribeLogStreams A (LogGroupName req) (LogStreamName req) st)
        as [[streams | e] st2].
      - destruct (negb (length streams =? 1)%nat).
        + destruct (LogGroupName req) as [group |] eqn:Hgroup,
                   (LogStreamName req) as [stream |] eqn:Hstream;
            (eexists _, req, _, [_];
             split; [reflexivity |];
             split; [cbn [log]; rewrite <- app_assoc; reflexivity |];
             repeat (split; [first [reflexivity | assumption | unfold puts; simpl; lia] |]);
             discriminate).
        + destruct streams as [| [stream |] streams].
          * eexists _, req, _, [_].
            split; [reflexivity |].
            split; [cbn [log]; rewrite <- app_assoc; reflexivity |].
            repeat (split; [first [reflexivity | unfold puts; simpl; lia] |]). discriminate.
          * destruct (IH (S a) (with_token req (UploadSequenceToken stream))
                        (World st2 ((log w ++ [CallPutLogEvents req])
                                    ++ [CallDescribeLogStreams (LogGroupName req)
                                                               (LogStreamName req)])))
              as (out & req' & w' & calls & Hrun & Hlog & Hputs & Hlen & He & Hg & Hs & Hok);
              [lia | lia |].
            exists out, req', w',
              (CallDescribeLogStreams (LogGroupName req) (LogStreamName req)
               :: CallPutLogEvents (with_token req (UploadSequenceToken stream)) :: calls).
            split; [exact Hrun |].
            split; [rewrite Hlog; cbn [log]; rewrite <- !app_assoc; reflexivity |].
            split; [unfold puts in *; simpl; lia |].
            split; [unfold puts in *; simpl; lia |].
            split; [exact He |]. split; [exact Hg |]. split; [exact Hs |].
            intros t Hout. destruct (Hok t Hout) as (before & lr & s1 & s2 & Heq & Hlast).
            exists (CallPutLogEvents req
                    :: CallDescribeLogStreams (LogGroupName req) (LogStreamName req)
                    :: before), lr, s1, s2.
            split; [simpl; rewrite <- Heq; reflexivity | exact Hlast].
          * eexists _, req, _, [_].
            split; [reflexivity |].
            split; [cbn [log]; rewrite <- app_assoc; reflexivity |].
            repeat (split; [first [reflexivity | unfold puts; simpl; lia] |]). discriminate.
      - eexists (Returns (Err e)), req, _, [_].
        split; [reflexivity |].
        split; [cbn [log]; rewrite <- app_assoc; reflexivity |].
        repeat (split; [first [reflexivity | unfold puts; simpl; lia] |]). discriminate. }
    exists (Returns (Err err)), req, (World st (log w ++ [CallPutLogEvents req])), [].
    repeat (split; [first [reflexivity | unfold puts; simpl; lia] |]). discriminate.
Qed.

(** X27: [putLogEvents] ends within four rounds: it sends the events at most
    four times and makes at most three repairing requests in between.  It
    begins with the request as given; of the caller's request it changes
    at most the sequence token; and a token it returns is the one the
    last [PutLogEvents] answered with. *)
Theorem putLogEvents_bounded fuel (req : PutLogEventsInput Ev) w :
  (4 <= fuel)%nat ->
  exists out req' w' calls,
    putLogEvents A fuel req w = Some (out, req', w')
    /\ log w' = log w ++ CallPutLogEvents req :: calls
    /\ (puts (CallPutLogEvents req :: calls) <= 4)%nat
    /\ (length calls - puts calls <= 3)%nat
    /\ LogEvents req' = LogEvents req
    /\ LogGroupName req' = LogGroupName req
    /\ LogStreamName req' = LogStreamName req
    /\ (forall t, out = Returns (Ok t) ->
          exists before last_req st st',
            CallPutLogEvents req :: calls = before ++ [CallPutLogEvents last_req]
            /\ PutLogEvents A last_req st = (Ok (Some t), st')).
Proof.
  intros Hfuel. unfold putLogEvents.
  destruct (putLogEvents_loop_spec fuel 0 req w)
    as (out & req' & w' & calls & Hrun & Hlog & Hputs & Hlen & He & Hg & Hs & Hok);
    [lia | lia |].
  exists out, req', w', calls.
  split; [exact Hrun |]. split; [exact Hlog |].
  split; [unfold puts in *; simpl; lia |].
  split; [lia |]. auto.
Qed.
End logs.

Section logs_cases.
Import Logs.

(** The service rejects the missing token once; the token is looked up
    and the events are sent again. *)
Lemma putLogEvents_bounded_witness :
  exists out req' w' calls,
    putLogEvents Cases.log_service 4 Cases.events (World 0%nat []) = Some (out, req', w')
    /\ log w' = CallPutLogEvents Cases.events :: calls
    /\ (puts (CallPutLogEvents Cases.events :: calls) <= 4)%nat
    /\ LogEvents req' = LogEvents Cases.events.
Proof.
  destruct (putLogEvents_bounded Cases.log_service 4 Cases.events (World 0%nat []))
    as (out & req' & w' & calls & Hrun & Hlog & Hputs & _ & Hevents & _).
  - lia.
  - exists out, req', w', calls. auto.
Defined.
End logs_cases.

(** ** The order in which services run *)

Section run_order.
Import RunOrder.
Context {Service : Type}.
Variable Name : Service -> string.
Variable Links : Service -> list string.

Lemma swap_perm (services : list Service) i j :
  (i < length services)%nat -> (j < length services)%nat ->
  exists services',
    swap services i j = Returns services' /\ services' ≡ₚ services.
Proof.
  intros Hi Hj. unfold swap.
  destruct (lookup_lt_is_Some_2 services i Hi) as [si Hsi].
  destruct (lookup_lt_is_Some_2 services j Hj) as [sj Hsj].
  rewrite Hsi, Hsj. eexists. split; [reflexivity |].
  apply Permutation_insert_swap; assumption.
Qed.

Lemma links_loop_perm names (services : list Service) i j :
  (i < length services)%nat -> (j < length services)%nat ->
  exists services',
    links_loop Name names services i j = Returns services'
    /\ services' ≡ₚ services.
Proof.
  intros Hi Hj. induction names as [| name names IH]; simpl.
  - exists services. split; reflexivity.
  - destruct (lookup_lt_is_Some_2 services j Hj) as [sj Hsj]. rewrite Hsj.
    destruct (String.eqb name (Name sj)); [apply swap_perm; assumption | exact IH].
Qed.

Lemma inner_loop_perm js :
  forall (services : list Service) i,
    (i < length services)%nat ->
    Forall (fun j => (j < length services)%nat) js ->
    exists services',
      inner_loop Name Links js services i = Returns services'
      /\ services' ≡ₚ services.
Proof.
  induction js as [| j js IH]; intros services i Hi Hjs; simpl.
  - exists services. split; reflexivity.
  - destruct (lookup_lt_is_Some_2 services i Hi) as [si Hsi]. rewrite Hsi.
    apply Forall_cons in Hjs as [Hj Hjs].
    destruct (links_loop_perm (Links si) services i j Hi Hj) as (s1 & Hrun1 & Hp1).
    rewrite Hrun1. cbn [Go.bind].
    assert (Hlen : length s1 = length services) by (rewrite Hp1; reflexivity).
    destruct (IH s1 i) as (s2 & Hrun2 & Hp2).
    + lia.
    + rewrite Hlen. exact Hjs.
    + exists s2. split; [exact Hrun2 |]. rewrite Hp2. exact Hp1.
Qed.

Lemma outer_loop_perm indices :
  forall services : list Service,
    Forall (fun i => (i < length services)%nat) indices ->
    exists services',
      outer_loop Name Links indices services = Returns services'
      /\ services' ≡ₚ services.
Proof.
  induction indices as [| i indices IH]; intros services His; simpl.
  - exists services. split; reflexivity.
  - apply Forall_cons in His as [Hi His].
    destruct (inner_loop_perm (seq (S i) (length services - S i)) services i Hi)
      as (s1 & Hrun1 & Hp1).
    { apply Forall_forall. intros j Hj. apply elem_of_seq in Hj. lia. }
    rewrite Hrun1. cbn [Go.bind].
    assert (Hlen : length s1 = length services) by (rewrite Hp1; reflexivity).
    destruct (IH s1) as (s2 & Hrun2 & Hp2).
    + rewrite Hlen. exact His.
    + exists s2. split; [exact Hrun2 |]. rewrite Hp2. exact Hp1.
Qed.

Lemma links_loop_unlinked names (services : list Service) i j sj :
  services !! j = Some sj -> Name sj ∉ names ->
  links_loop Name names services i j = Returns services.
Proof.
  intros Hsj. induction names as [| name names IH]; intros Hno; simpl; [reflexivity |].
  rewrite Hsj. apply not_elem_of_cons in Hno as [Hne Hno].
  destruct (String.eqb_spec name (Name sj)); [congruence | apply IH, Hno].
Qed.

Lemma inner_loop_unlinked js (services : list Service) i :
  unlinked Name Links services ->
  (i < length services)%nat ->
  Forall (fun j => (j < length services)%nat) js ->
  inner_loop Name Links js services i = Returns services.
Proof.
  intros Hun Hi. induction js as [| j js IH]; intros Hjs; simpl; [reflexivity |].
  destruct (lookup_lt_is_Some_2 services i Hi) as [si Hsi]. rewrite Hsi.
  apply Forall_cons in Hjs as [Hj Hjs].
  destruct (lookup_lt_is_Some_2 services j Hj) as [sj Hsj].
  rewrite (links_loop_unlinked _ _ _ _ sj Hsj).
  - cbn [Go.bind]. apply IH, Hjs.
  - apply Hun; eapply list_elem_of_lookup_2; eassumption.
Qed.

Lemma outer_loop_unlinked indices (services : list Service) :
  unlinked Name Links services ->
  Forall (fun i => (i < length services)%nat) indices ->
  outer_loop Name Links indices services = Returns services.
Proof.
  intros Hun. induction indices as [| i indices IH]; intros His; simpl; [reflexivity |].
  apply Forall_cons in His as [Hi His].
  rewrite inner_loop_unlinked; [cbn [Go.bind]; apply IH, His | exact Hun | exact Hi |].
  apply Forall_forall. intros j Hj. apply elem_of_seq in Hj. lia.
Qed.

(** X28: [runOrder] never panics and returns a rearrangement of the services
    of the manifest: each one once, none added. *)
Theorem runOrder_permutation (m : gmap string Service) visited :
  visited ≡ₚ map_to_list m ->
  exists services,
    runOrder Name Links visited = Returns services
    /\ services ≡ₚ (map_to_list m).*2
    /\ length services = size m.
Proof.
  intros Hv. unfold runOrder.
  destruct (outer_loop_perm (seq 0 (length visited.*2 - 1)) visited.*2)
    as (services & Hrun & Hp).
  { apply Forall_forall. intros i Hi. apply elem_of_seq in Hi. lia. }
  exists services. split; [exact Hrun |].
  assert (Hperm : services ≡ₚ (map_to_list m).*2) by (rewrite Hp, Hv; reflexivity).
  split; [exact Hperm |].
  rewrite Hperm, length_fmap. apply length_map_to_list.
Qed.

(** X29: When no service links to a service of the manifest, [runOrder]
    leaves the services in the order in which the map was visited. *)
Theorem runOrder_unlinked (visited : list (string * Service)) :
  unlinked Name Links visited.*2 ->
  runOrder Name Links visited = Returns visited.*2.
Proof.
  intros Hun. unfold runOrder. apply outer_loop_unlinked; [exact Hun |].
  apply Forall_forall. intros i Hi. apply elem_of_seq in Hi. lia.
Qed.
End run_order.

Section run_order_cases.
Import RunOrder.

Lemma runOrder_permutation_witness :
  exists services,
    runOrder fst snd (map_to_list Cases.independent) = Returns services
    /\ services ≡ₚ (map_to_list Cases.independent).*2
    /\ length services = size Cases.independent.
Proof.
  exact (runOrder_permutation fst snd Cases.independent
           (map_to_list Cases.independent) (reflexivity _)).
Defined.

Lemma runOrder_unlinked_witness :
  runOrder fst snd [("database", Cases.database); ("cache", Cases.cache_service)]
  = Returns [Cases.database; Cases.cache_service].
Proof.
  apply (runOrder_unlinked fst snd
           [("database", Cases.database); ("cache", Cases.cache_service)]).
  intros s s' Hs Hs'. simpl in Hs, Hs'.
  apply elem_of_cons in Hs as [-> | Hs]; [apply not_elem_of_nil |].
  apply elem_of_cons in Hs as [-> | Hs]; [| inversion Hs].
  apply elem_of_cons in Hs' as [-> | Hs'].
  - simpl. apply not_elem_of_cons. split; [discriminate | apply not_elem_of_nil].
  - apply elem_of_cons in Hs' as [-> | Hs']; [| inversion Hs'].
    simpl. apply not_elem_of_cons. split; [discriminate | apply not_elem_of_nil].
Defined.
End run_order_cases.
